(** * auto-subtitle: the SRT serializer and the command line of [cli.py]

    A shallow embedding of [cli.py].  Python values are modelled as the
    interpreter has them: a [float] is an IEEE 754 binary64 number (a
    finite float is the rational it denotes, every arithmetic operation
    rounds to nearest, ties to even), an [int] is an integer of [Z], a
    [str] is a sequence of Unicode code points and a [dict] with string
    keys is a finite map.  Exceptions are explicit results; the sink of
    [write_srt] and the effects of [main] are threaded as state. *)

From Stdlib Require Import ZArith QArith Qround Qpower Qabs Lia Lqa List.
From Stdlib Require Import Strings.String Strings.Ascii.
From Stdlib Require Import Decimal DecimalFacts DecimalString DecimalN DecimalPos.
From stdpp Require Import base strings gmap.
Import ListNotations.

(** ** IEEE 754 binary64 *)

Module Binary64.

Local Open Scope Q_scope.

(** A float is a finite value, an infinity or a NaN.  The sign of a zero
    is not modelled: the program converts every float it computes to an
    integer before printing it, which erases that sign.  The operations
    return finite values as reduced fractions. *)
Inductive float : Type :=
  | Finite (q : Q)
  | Inf (negative : bool)
  | NaN.

Definition two : Q := 2.

(** [Qlog2 q] is the integer [l] with [2^l <= q < 2^(l+1)], for [0 < q]. *)
Definition Qlog2 (q : Q) : Z :=
  let l := (Z.log2 (Qnum q) - Z.log2 (Zpos (Qden q)))%Z in
  if Qle_bool (two ^ l) q then l else (l - 1)%Z.

(** Nearest integer, ties to even. *)
Definition rne (q : Q) : Z :=
  let f := Qfloor q in
  match Qcompare (q - inject_Z f) (1 # 2) with
  | Lt => f
  | Gt => (f + 1)%Z
  | Eq => if Z.even f then f else (f + 1)%Z
  end.

(** Exponent of the unit in the last place: 53 significant bits, and no
    exponent below that of the subnormal numbers. *)
Definition ulp_exp (q : Q) : Z := Z.max (Qlog2 (Qabs q) - 52) (-1074).

(** Rounding to the binary64 grid, before the overflow test. *)
Definition rnd (q : Q) : Q :=
  if Qeq_bool q 0 then 0
  else Qred (inject_Z (rne (q / two ^ ulp_exp q)) * two ^ ulp_exp q).

Definition huge : Q := two ^ 1024.

Definition round (q : Q) : float :=
  let r := rnd q in
  if Qle_bool huge (Qabs r) then Inf (negb (Qle_bool 0 r)) else Finite r.

(** The finite floats are the rationals that rounding leaves alone. *)
Definition representable (q : Q) : bool :=
  Qeq_bool (rnd q) q && negb (Qle_bool huge (Qabs q)).

Definition repr (q : Q) : Prop := rnd q == q /\ Qabs q < huge.

Definition fneg (x : float) : float :=
  match x with
  | Finite q => Finite (- q)
  | Inf s => Inf (negb s)
  | NaN => NaN
  end.

Definition fadd (x y : float) : float :=
  match x, y with
  | NaN, _ | _, NaN => NaN
  | Inf a, Inf b => if Bool.eqb a b then Inf a else NaN
  | Inf a, Finite _ => Inf a
  | Finite _, Inf b => Inf b
  | Finite a, Finite b => round (a + b)
  end.

Definition fsub (x y : float) : float := fadd x (fneg y).

Definition fmul (x y : float) : float :=
  match x, y with
  | NaN, _ | _, NaN => NaN
  | Inf a, Inf b => Inf (xorb a b)
  | Inf a, Finite q | Finite q, Inf a =>
      if Qeq_bool q 0 then NaN else Inf (xorb a (negb (Qle_bool 0 q)))
  | Finite a, Finite b => round (a * b)
  end.

Definition fdiv (x y : float) : float :=
  match x, y with
  | NaN, _ | _, NaN => NaN
  | Inf _, Inf _ => NaN
  | Inf a, Finite q => Inf (xorb a (negb (Qle_bool 0 q)))
  | Finite _, Inf _ => Finite 0
  | Finite a, Finite b =>
      if Qeq_bool b 0 then
        if Qeq_bool a 0 then NaN else Inf (negb (Qle_bool 0 a))
      else round (a / b)
  end.

(** Truncation towards zero. *)
Definition Qtrunc (q : Q) : Z := Z.quot (Qnum q) (Zpos (Qden q)).

(** C's [fmod]: the remainder has the sign of [x] and is exact. *)
Definition fmod (x y : float) : float :=
  match x, y with
  | NaN, _ | _, NaN => NaN
  | Inf _, _ => NaN
  | Finite a, Inf _ => Finite a
  | Finite a, Finite b =>
      if Qeq_bool b 0 then NaN
      else Finite (Qred (a - b * inject_Z (Qtrunc (a / b))))
  end.

(** C's [floor]: exact. *)
Definition ffloor (x : float) : float :=
  match x with
  | Finite q => Finite (inject_Z (Qfloor q))
  | _ => x
  end.

Definition flt (x y : float) : bool :=
  match x, y with
  | NaN, _ | _, NaN => false
  | Inf a, Inf b => a && negb b
  | Inf a, Finite _ => a
  | Finite _, Inf b => negb b
  | Finite a, Finite b => negb (Qle_bool b a)
  end.

(** [x != 0.0], the truth value of a C double. *)
Definition nonzero (x : float) : bool :=
  match x with
  | Finite q => negb (Qeq_bool q 0)
  | _ => true
  end.

Definition of_Z (z : Z) : float := round (inject_Z z).

(** The float a decimal literal denotes: the nearest one. *)
Definition literal (q : Q) : float := round q.

(** The real number [x mod m], for a positive integer [m]. *)
Definition Qmod (x : Q) (m : Z) : Q :=
  x - inject_Z m * inject_Z (Qfloor (x / inject_Z m)).

End Binary64.

Import Binary64.

(** ** Python values and operators *)

Inductive exn : Type :=
  | KeyError | TypeError | AttributeError | ValueError
  | OverflowError | ZeroDivisionError | NameError
  | ExternalError.

Inductive result (A : Type) : Type :=
  | Ok (a : A)
  | Raise (e : exn).
Arguments Ok {A} a.
Arguments Raise {A} e.

#[global] Instance result_ret : MRet result := fun _ a => Ok a.
#[global] Instance result_bind : MBind result := fun _ _ k r =>
  match r with
  | Ok a => k a
  | Raise e => Raise e
  end.

(** A [str] is a sequence of code points. *)
Definition str : Type := list N.

(** An ASCII literal as a [str]. *)
Definition lit (s : string) : str := map N_of_ascii (list_ascii_of_string s).

Definition nl : N := 10%N.
Definition arrow : N := 8594%N.

Inductive value : Type :=
  | VFloat (x : float)
  | VStr (s : str).

Section FloatOperators.
Local Open Scope Q_scope.

Definition zero : float := Finite 0.
Definition one : float := Finite 1.
Definition half : float := Finite (1 # 2).

(** [float_divmod] of floatobject.c, for a non-zero [wx]. *)
Definition float_div_mod (vx wx : float) : float * float :=
  let mod_ := fmod vx wx in
  let div := fdiv (fsub vx mod_) wx in
  let '(mod_, div) :=
    if nonzero mod_ then
      if negb (Bool.eqb (flt wx zero) (flt mod_ zero))
      then (fadd mod_ wx, fsub div one)
      else (mod_, div)
    else (zero, div) in
  let floordiv :=
    if nonzero div then
      let fl := ffloor div in
      if flt half (fsub div fl) then fadd fl one else fl
    else zero in
  (floordiv, mod_).

(** [float(n)] for an int operand of a float operator. *)
Definition float_of_int (n : Z) : result float :=
  match of_Z n with
  | Finite q => Ok (Finite q)
  | _ => Raise OverflowError
  end.

(** [vx // n] *)
Definition float_floordiv (vx : float) (n : Z) : result float :=
  (wx ← float_of_int n ;
   if nonzero wx then Ok (fst (float_div_mod vx wx))
   else Raise ZeroDivisionError).

(** [vx % n] *)
Definition float_rem (vx : float) (n : Z) : result float :=
  (wx ← float_of_int n ;
   if nonzero wx then
     let mod_ := fmod vx wx in
     Ok (if nonzero mod_ then
           if negb (Bool.eqb (flt wx zero) (flt mod_ zero))
           then fadd mod_ wx else mod_
         else zero)
   else Raise ZeroDivisionError).

(** [vx - n] and [vx * n] *)
Definition float_sub_int (vx : float) (n : Z) : result float :=
  (wx ← float_of_int n ; Ok (fsub vx wx)).

Definition float_mul_int (vx : float) (n : Z) : result float :=
  (wx ← float_of_int n ; Ok (fmul vx wx)).

(** [int(x)] *)
Definition int_of_float (x : float) : result Z :=
  match x with
  | Finite q => Ok (Qtrunc q)
  | Inf _ => Raise OverflowError
  | NaN => Raise ValueError
  end.

End FloatOperators.

(** [str(n)] and the format specification [0<width>d] of an int. *)
Definition digits (n : Z) : str :=
  lit (NilEmpty.string_of_uint (N.to_uint (Z.abs_N n))).

Definition sign (n : Z) : str := if (n <? 0)%Z then lit "-" else [].

Definition str_of_int (n : Z) : str := sign n ++ digits n.

Definition format_d (width : nat) (n : Z) : str :=
  sign n
  ++ repeat 48%N (width - length (sign n) - length (digits n))
  ++ digits n.

(** The number a string of decimal digits denotes, and the timecode
    [HH:MM:SS,mmm] of four integers. *)
Definition decimal_value (s : str) : option Z :=
  (fun d => Z.of_N (N.of_uint d))
    <$> NilEmpty.uint_of_string (string_of_list_ascii (map ascii_of_N s)).

Definition is_digit (c : N) : bool := ((48 <=? c) && (c <=? 57))%N.

Definition timecode (hours minutes secs milliseconds : Z) : str :=
  format_d 2 hours ++ lit ":" ++ format_d 2 minutes ++ lit ":"
  ++ format_d 2 secs ++ lit "," ++ format_d 3 milliseconds.

(** [s] writes [n] in exactly [w] decimal digits. *)
Definition padded (w : nat) (n : Z) (s : str) : Prop :=
  length s = w /\ forallb is_digit s = true /\ decimal_value s = Some n.

(** ** [write_srt] *)

(** The four locals of [format_timestamp], then its f-string. *)
Definition timestamp_fields (seconds : value) : result (Z * Z * Z * Z) :=
  match seconds with
  | VStr _ => Raise TypeError
  | VFloat seconds =>
      q ← float_floordiv seconds 3600 ;
      hours ← int_of_float q ;
      r ← float_rem seconds 3600 ;
      q ← float_floordiv r 60 ;
      minutes ← int_of_float q ;
      r ← float_rem seconds 60 ;
      secs ← int_of_float r ;
      whole ← int_of_float seconds ;
      frac ← float_sub_int seconds whole ;
      scaled ← float_mul_int frac 1000 ;
      milliseconds ← int_of_float scaled ;
      Ok (hours, minutes, secs, milliseconds)
  end.

Definition format_timestamp (seconds : value) : result str :=
  fields ← timestamp_fields seconds ;
  let '(hours, minutes, secs, milliseconds) := fields in
  Ok (format_d 2 hours ++ lit ":" ++ format_d 2 minutes ++ lit ":"
      ++ format_d 2 secs ++ lit "," ++ format_d 3 milliseconds).

(** [str.strip()]: the code points Python holds for white space. *)
Definition is_space (c : N) : bool :=
  ((9 <=? c) && (c <=? 13) || (28 <=? c) && (c <=? 32)
   || (c =? 133) || (c =? 160) || (c =? 5760)
   || (8192 <=? c) && (c <=? 8202)
   || (c =? 8232) || (c =? 8233) || (c =? 8239) || (c =? 8287)
   || (c =? 12288))%N.

Fixpoint lstrip (s : str) : str :=
  match s with
  | c :: rest => if is_space c then lstrip rest else s
  | [] => []
  end.

Definition rstrip (s : str) : str := rev (lstrip (rev s)).

Definition strip (s : str) : str := rstrip (lstrip s).

(** [str.replace(old, new)]: the occurrences of [old] are found from the
    left and do not overlap. *)
Fixpoint starts_with (p s : str) : bool :=
  match p, s with
  | [], _ => true
  | a :: p', b :: s' => (a =? b)%N && starts_with p' s'
  | _ :: _, [] => false
  end.

Fixpoint replace_from (fuel : nat) (old new s : str) : str :=
  match fuel, s with
  | S fuel', c :: rest =>
      if starts_with old s
      then new ++ replace_from fuel' old new (skipn (length old) s)
      else c :: replace_from fuel' old new rest
  | _, _ => []
  end.

Definition replace (old new s : str) : str :=
  match old with
  | [] => new ++ flat_map (fun c => c :: new) s
  | _ :: _ => replace_from (length s) old new s
  end.

Definition separator : str := lit "-->".

(** The number of positions of [s] at which [p] occurs. *)
Fixpoint occurrences (p s : str) : nat :=
  (if starts_with p s then 1 else 0)
  + match s with
    | [] => 0
    | _ :: rest => occurrences p rest
    end.

(** The order of [str]: lexicographic, by code point. *)
Fixpoint str_compare (a b : str) : comparison :=
  match a, b with
  | [], [] => Eq
  | [], _ :: _ => Lt
  | _ :: _, [] => Gt
  | x :: a', y :: b' =>
      match (x ?= y)%N with
      | Eq => str_compare a' b'
      | c => c
      end
  end.

Definition str_le (a b : str) : bool :=
  match str_compare a b with
  | Gt => false
  | _ => true
  end.

(** Lines, each ended by a newline. *)
Definition unlines (lines : list str) : str :=
  concat (map (fun l => l ++ [nl]) lines).

Definition sanitize (text : str) : str := replace separator [arrow] (strip text).

(** The replacement alone, and strings with no white space at either
    end. *)
Definition dash : N := 45%N.
Definition gt : N := 62%N.

Definition rep (s : str) : str := replace separator [arrow] s.

Definition nonspace (o : option N) : Prop :=
  match o with
  | Some c => is_space c = false
  | None => True
  end.

Definition trimmed (s : str) : Prop := nonspace (head s) /\ nonspace (last s).

(** [segment[key]] *)
Definition getitem (segment : gmap string value) (key : string) : result value :=
  match segment !! key with
  | Some v => Ok v
  | None => Raise KeyError
  end.

(** [text.strip().replace('-->', '→')] *)
Definition sanitized_text (text : value) : result str :=
  match text with
  | VStr s => Ok (sanitize s)
  | VFloat _ => Raise AttributeError
  end.

(** The sink is the sequence of the strings written to it. *)
Definition sink : Type := list str.

Definition content (file : sink) : str := concat file.

(** The three [file.write] calls of one iteration, once [start], [end]
    and [text] are computed. *)
Definition entry (i : Z) (segment : gmap string value) : result (list str) :=
  v ← getitem segment "start" ;
  start ← format_timestamp v ;
  v ← getitem segment "end" ;
  end_ ← format_timestamp v ;
  v ← getitem segment "text" ;
  text ← sanitized_text v ;
  Ok [ str_of_int i ++ [nl];
       start ++ lit " --> " ++ end_ ++ [nl];
       text ++ [nl; nl] ].

Fixpoint write_srt_from (i : Z) (segments : list (gmap string value))
    (file : sink) : sink * result unit :=
  match segments with
  | [] => (file, Ok tt)
  | segment :: rest =>
      match entry i segment with
      | Ok writes => write_srt_from (i + 1) rest (file ++ writes)
      | Raise e => (file, Raise e)
      end
  end.

Definition write_srt (segments : list (gmap string value)) (file : sink)
    : sink * result unit :=
  write_srt_from 1 segments file.

(** [block] is what one iteration writes for [segment] under the number
    [i]: the line of the decimal numeral of [i], the timecodes of
    [start] and [end] around the separator, and the sanitized text
    before an empty line. *)
Definition entry_lines (i : Z) (segment : gmap string value) (block : list str) : Prop :=
  exists index vstart vend start end_ text,
    block = [ index ++ [nl];
              start ++ lit " --> " ++ end_ ++ [nl];
              sanitize text ++ [nl; nl] ]
    /\ forallb is_digit index = true
    /\ head index <> Some 48%N
    /\ decimal_value index = Some i
    /\ segment !! "start" = Some vstart /\ format_timestamp vstart = Ok start
    /\ segment !! "end" = Some vend /\ format_timestamp vend = Ok end_
    /\ segment !! "text" = Some (VStr text).

Definition segment_of (start end_ : float) (text : str) : gmap string value :=
  {[ "start" := VFloat start; "end" := VFloat end_; "text" := VStr text ]}.

(** A segment as the transcription gives it: two finite floats and a
    string under the three keys. *)
Definition finite_float (v : option value) : bool :=
  match v with
  | Some (VFloat (Finite q)) => representable q
  | _ => false
  end.

Definition is_str (v : option value) : bool :=
  match v with
  | Some (VStr _) => true
  | _ => false
  end.

Definition valid_segment (segment : gmap string value) : bool :=
  finite_float (segment !! "start") && finite_float (segment !! "end")
  && is_str (segment !! "text").

(** ** The command line *)

(** What the process does to the outside, in order. *)
Inductive message : Type :=
  | MsgFileMissing (path : string)
  | MsgProbeError (path : string)
  | MsgNoAudioForSubtitles (path : string)
  | MsgNoAudioForVideo (path : string)
  | MsgLoadingModel (name : string)
  | MsgStartingTranscription
  | MsgSubtitlesSaved (path : string)
  | MsgRenderingWithSubtitles
  | MsgProgress (percent : nat)
  | MsgVideoError
  | MsgVideoDone (path : string)
  | MsgExtractionStarts
  | MsgExtractionDone
  | MsgVideoStarts
  | MsgVideoCompleted
  | MsgSubtitledVideoStarts
  | MsgSubtitledVideoCompleted
  | MsgNoSubtitlesAbort.

Inductive event : Type :=
  | Print (m : message)
  | MakeDirs (path : string)
  | WriteFile (path : string) (written : sink)
  | Sleep
  | RunFfmpeg (input subtitles output : string) (quiet : bool).

(** How a call ends: it returns, [sys.exit] was called, or an exception
    nobody catches is raised. *)
Inductive outcome (A : Type) : Type :=
  | Return (a : A)
  | Exit (code : Z)
  | Uncaught (e : exn).
Arguments Return {A} a.
Arguments Exit {A} code.
Arguments Uncaught {A} e.

Definition proc (A : Type) : Type := list event -> list event * outcome A.

#[global] Instance proc_ret : MRet proc := fun _ a log => (log, Return a).
#[global] Instance proc_bind : MBind proc := fun _ _ k c log =>
  match c log with
  | (log', Return a) => k a log'
  | (log', Exit code) => (log', Exit code)
  | (log', Uncaught e) => (log', Uncaught e)
  end.

Definition emit (e : event) : proc unit := fun log => (log ++ [e], Return tt).
Definition sys_exit {A} (code : Z) : proc A := fun log => (log, Exit code).
Definition raise {A} (e : exn) : proc A := fun log => (log, Uncaught e).
Definition when (b : bool) (c : proc unit) : proc unit :=
  if b then c else mret tt.

(** The status the operating system sees. *)
Definition exit_status {A} (o : outcome A) : Z :=
  match o with
  | Return _ => 0
  | Exit code => code
  | Uncaught _ => 1
  end.

(** The collaborators: the file system, [ffmpeg] and [whisper].  A probe
    answers with the streams of the file, each a dict, or fails with
    [ffmpeg.Error]; so does a run of the filter graph.  Loading a model
    and transcribing answer or raise. *)
Record world : Type := {
  cwd_assets : string;
  path_exists : string -> bool;
  isfile : string -> bool;
  base_name : string -> string;
  join : string -> string -> string;
  probe : string -> option (list (gmap string string));
  load_model : string -> result string;
  transcribe : string -> string -> option string -> string -> bool
               -> result (list (gmap string value));
  ffmpeg_run : string -> string -> string -> bool -> bool
}.

(** The namespace that [parser.parse_args()] hands to the rest of
    [main]: one field for each [add_argument]. *)
Record arguments : Type := {
  input_file : string;
  output_path : string;
  extract_subtitles_flag : bool;
  audio_to_video : bool;
  audio_to_video_with_subtitles : bool;
  combine : bool;
  subtitle_output_path : string;
  model : string;
  language : option string;
  task : string;
  verbose : bool
}.

(** The names bound at the top level of [cli.py]: its imports and its
    function definitions. *)
Definition module_names : list string :=
  [ "argparse"; "os"; "sys"; "subprocess"; "whisper"; "ffmpeg"; "time";
    "create_assets_directory"; "check_file_exists"; "has_audio_stream";
    "write_srt"; "extract_subtitles";
    "transform_audio_to_video_with_subtitles"; "main" ]%string.

(** Looking up a global name at run time. *)
Definition load_global (name : string) : proc unit :=
  if bool_decide (name ∈ module_names) then mret tt else raise NameError.

(** [ffmpeg.Error] as a failed [run] raises it: [stderr] holds the output
    of the process when [run] was asked to capture it, and is [None]
    otherwise.  [decode] is [e.stderr.decode()]: [None] has no such
    attribute. *)
Definition error_stderr (capture_stderr : bool) (output : str) : option str :=
  if capture_stderr then Some output else None.

Definition decode (stderr : option str) : result str :=
  match stderr with
  | Some bytes => Ok bytes
  | None => Raise AttributeError
  end.

(** The loop of [has_audio_stream] over the streams of a probe. *)
Definition has_audio (streams : list (gmap string string)) : bool :=
  existsb (fun stream : gmap string string =>
             bool_decide (stream !! "codec_type"%string = Some "audio"%string))
          streams.

Section Program.
Variable w : world.

Definition create_assets_directory : proc string :=
  let assets_dir := cwd_assets w in
  _ ← when (negb (path_exists w assets_dir)) (emit (MakeDirs assets_dir)) ;
  mret assets_dir.

Definition check_file_exists (file_path : string) : proc unit :=
  when (negb (isfile w file_path))
    (_ ← emit (Print (MsgFileMissing file_path)) ; sys_exit 1).

Definition has_audio_stream (file_path : string) : proc bool :=
  match probe w file_path with
  | Some streams => mret (has_audio streams)
  | None => _ ← emit (Print (MsgProbeError file_path)) ; sys_exit 1
  end.

Definition lift {A} (r : result A) : proc A :=
  match r with
  | Ok a => mret a
  | Raise e => raise e
  end.

Definition extract_subtitles (input_file model_name : string)
    (language : option string) (task subtitle_output_path : string)
    (verbose : bool) : proc (option string) :=
  audio ← has_audio_stream input_file ;
  if negb audio then
    _ ← emit (Print (MsgNoAudioForSubtitles input_file)) ; mret None
  else
    model ← lift (load_model w model_name) ;
    _ ← when verbose (_ ← emit (Print (MsgLoadingModel model_name)) ;
                      emit (Print MsgStartingTranscription)) ;
    segments ← lift (transcribe w model input_file language task verbose) ;
    _ ← when (negb (path_exists w subtitle_output_path))
          (emit (MakeDirs subtitle_output_path)) ;
    let srt_file := join w subtitle_output_path (base_name w input_file ++ ".srt") in
    let '(f, r) := write_srt segments [] in
    _ ← emit (WriteFile srt_file f) ;
    _ ← lift r ;
    _ ← when verbose (emit (Print (MsgSubtitlesSaved srt_file))) ;
    mret (Some srt_file).

Fixpoint progress (i : nat) (total_steps : nat) : proc unit :=
  match total_steps with
  | O => mret tt
  | S n =>
      _ ← emit Sleep ;
      _ ← emit (Print (MsgProgress (S i))) ;
      progress (S i) n
  end.

Definition transform_audio_to_video_with_subtitles
    (input_file srt_file output_path : string) (verbose : bool) : proc unit :=
  audio ← has_audio_stream input_file ;
  if negb audio then emit (Print (MsgNoAudioForVideo input_file))
  else
    _ ← when (negb (path_exists w output_path)) (emit (MakeDirs output_path)) ;
    let output_file := join w output_path (base_name w input_file ++ "_subtitled.mp4") in
    _ ← when verbose (emit (Print MsgRenderingWithSubtitles)) ;
    _ ← progress 0 100 ;
    _ ← emit (RunFfmpeg input_file srt_file output_file (negb verbose)) ;
    if ffmpeg_run w input_file srt_file output_file (negb verbose)
    then when verbose (emit (Print (MsgVideoDone output_file)))
    else
      (* [run()] is called without [capture_stderr] *)
      _ ← lift (decode (error_stderr false [])) ;
      _ ← emit (Print MsgVideoError) ; sys_exit 1.

(** [main] from the line after [args = parser.parse_args()]: [args] is
    the namespace of a command line that was parsed.  On a usage error
    and on [-h] it is [argparse] that ends the process, before this
    point. *)
Definition main (args : arguments) : proc unit :=
  _ ← create_assets_directory ;
  _ ← check_file_exists (input_file args) ;
  srt_file ←
    (if extract_subtitles_flag args || combine args
        || audio_to_video_with_subtitles args
     then
       _ ← when (verbose args) (emit (Print MsgExtractionStarts)) ;
       srt_file ← extract_subtitles (input_file args) (model args)
                    (language args) (task args) (subtitle_output_path args)
                    (verbose args) ;
       _ ← when (verbose args) (emit (Print MsgExtractionDone)) ;
       mret srt_file
     else mret None) ;
  _ ← when (audio_to_video args || combine args)
        (_ ← when (verbose args) (emit (Print MsgVideoStarts)) ;
         _ ← load_global "transform_audio_to_video" ;
         when (verbose args) (emit (Print MsgVideoCompleted))) ;
  when (audio_to_video_with_subtitles args)
    (match srt_file with
     | None => _ ← emit (Print MsgNoSubtitlesAbort) ; sys_exit 1
     | Some srt_file =>
         _ ← when (verbose args) (emit (Print MsgSubtitledVideoStarts)) ;
         _ ← transform_audio_to_video_with_subtitles (input_file args)
               srt_file (output_path args) (verbose args) ;
         when (verbose args) (emit (Print MsgSubtitledVideoCompleted))
     end).

End Program.

(** The extraction step comes back to [main]: the probe answers, and
    when there is an audio track the model loads, the transcription
    answers and its segments are serialized without an exception. *)
Definition transcription_raises (w : world) (args : arguments) : bool :=
  match load_model w (model args) with
  | Raise _ => true
  | Ok m =>
      match transcribe w m (input_file args) (language args) (task args)
              (verbose args) with
      | Raise _ => true
      | Ok segments =>
          match snd (write_srt segments []) with
          | Raise _ => true
          | Ok _ => false
          end
      end
  end.

Definition extraction_requested (args : arguments) : bool :=
  extract_subtitles_flag args || combine args
  || audio_to_video_with_subtitles args.

Definition extraction_returns (w : world) (args : arguments) : bool :=
  match probe w (input_file args) with
  | None => false
  | Some streams => negb (has_audio streams && transcription_raises w args)
  end.

Definition produces_video (log : list event) : bool :=
  existsb (fun e => match e with RunFfmpeg _ _ _ _ => true | _ => false end) log.

(** Invocations to run [main] on: the input file is there or not, and
    holds one stream, audio or video; a transcription gives a single
    segment. *)
Definition sample_world (present audio : bool) : world :=
  {| cwd_assets := "assets";
     path_exists := fun _ => true;
     isfile := fun _ => present;
     base_name := fun path =>
       if String.eqb path "talk.mp3" then "talk"%string else path;
     join := fun dir name => (dir ++ "/" ++ name)%string;
     probe := fun _ =>
       Some [ {[ "codec_type"%string := if audio then "audio"%string else "video"%string ]} ];
     load_model := fun name => Ok name;
     transcribe := fun _ _ _ _ _ =>
       Ok [ segment_of (literal 0) (literal (3 # 2)) (lit "Hello") ];
     ffmpeg_run := fun _ _ _ _ => true |}.

(** The same, with a render that fails. *)
Definition failing_render (w : world) : world :=
  {| cwd_assets := cwd_assets w;
     path_exists := path_exists w;
     isfile := isfile w;
     base_name := base_name w;
     join := join w;
     probe := probe w;
     load_model := load_model w;
     transcribe := transcribe w;
     ffmpeg_run := fun _ _ _ _ => false |}.

Definition sample_arguments (extract video subtitled both : bool) : arguments :=
  {| input_file := "talk.mp3";
     output_path := "./assets";
     extract_subtitles_flag := extract;
     audio_to_video := video;
     audio_to_video_with_subtitles := subtitled;
     combine := both;
     subtitle_output_path := "./assets/subtitles";
     model := "small";
     language := None;
     task := "transcribe";
     verbose := false |}.

(** When a run without [--audio_to_video] and [--combine] ends with
    status 1. *)
Definition fails (w : world) (args : arguments) : bool :=
  negb (isfile w (input_file args))
  || extraction_requested args
     && match probe w (input_file args) with
        | None => true
        | Some streams =>
            has_audio streams && transcription_raises w args
            || audio_to_video_with_subtitles args
               && (negb (has_audio streams)
                   || negb (ffmpeg_run w (input_file args)
                              (join w (subtitle_output_path args)
                                 (base_name w (input_file args) ++ ".srt"))
                              (join w (output_path args)
                                 (base_name w (input_file args) ++ "_subtitled.mp4"))
                              (negb (verbose args))))
        end.

(** How a procedure ends, apart from what it logs.  [ends c o v]:
    whatever was logged before, [c] appends its events and ends with
    [o]; [v] tells whether a video was rendered on the way. *)
Definition ends {A} (c : proc A) (o : outcome A) (v : bool) : Prop :=
  forall log, exists evs, c log = (log ++ evs, o) /\ produces_video evs = v.

Definition is_render (e : event) : bool :=
  match e with
  | RunFfmpeg _ _ _ _ => true
  | _ => false
  end.

Definition continue {A B} (o : outcome A) (k : A -> outcome B) : outcome B :=
  match o with
  | Return a => k a
  | Exit code => Exit code
  | Uncaught e => Uncaught e
  end.

Definition continue_video {A} (o : outcome A) (v : bool) (k : A -> bool) : bool :=
  match o with
  | Return a => v || k a
  | _ => v
  end.

Section Outcomes.
Variable w : world.

Definition probe_outcome (path : string) : outcome bool :=
  match probe w path with
  | Some streams => Return (has_audio streams)
  | None => Exit 1
  end.

Definition serialized (args : arguments) : outcome (option string) :=
  match load_model w (model args) with
  | Raise e => Uncaught e
  | Ok m =>
      match transcribe w m (input_file args) (language args) (task args)
              (verbose args) with
      | Raise e => Uncaught e
      | Ok segments =>
          match snd (write_srt segments []) with
          | Raise e => Uncaught e
          | Ok _ => Return (Some (join w (subtitle_output_path args)
                                    (base_name w (input_file args) ++ ".srt")))
          end
      end
  end.

Definition extraction_outcome (args : arguments) : outcome (option string) :=
  continue (probe_outcome (input_file args))
    (fun audio => if audio then serialized args else Return None).

Definition transform_outcome (args : arguments) (srt_file : string) : outcome unit :=
  continue (probe_outcome (input_file args))
    (fun audio =>
       if audio then
         if ffmpeg_run w (input_file args) srt_file
              (join w (output_path args)
                 (base_name w (input_file args) ++ "_subtitled.mp4"))
              (negb (verbose args))
         then Return tt else Uncaught AttributeError
       else Return tt).

Definition main_outcome (args : arguments) : outcome unit :=
  if isfile w (input_file args) then
    continue (if extraction_requested args then extraction_outcome args
              else Return None)
      (fun srt_file =>
         continue (if audio_to_video args || combine args
                   then Uncaught NameError else Return tt)
           (fun _ =>
              if audio_to_video_with_subtitles args then
                match srt_file with
                | None => Exit 1
                | Some srt_file => transform_outcome args srt_file
                end
              else Return tt))
  else Exit 1.

End Outcomes.

(** What a log holds of each kind: the renders that were run, the files
    that were written, the messages and the progress reports that were
    printed. *)
Definition renders (log : list event) : list (string * string * string * bool) :=
  flat_map (fun e => match e with
                     | RunFfmpeg input subtitles output quiet =>
                         [(input, subtitles, output, quiet)]
                     | _ => []
                     end) log.

Definition written (log : list event) : list (string * sink) :=
  flat_map (fun e => match e with WriteFile path f => [(path, f)] | _ => [] end) log.

Definition printed (log : list event) : list message :=
  flat_map (fun e => match e with Print m => [m] | _ => [] end) log.

Definition reports (log : list event) : list nat :=
  flat_map (fun e => match e with Print (MsgProgress n) => [n] | _ => [] end) log.

(** An event other than the report of
    [transform_audio_to_video_with_subtitles] on a missing audio track. *)
Definition harmless (e : event) : Prop :=
  forall path, e <> Print (MsgNoAudioForVideo path).

(** [runs c evs o]: whatever was logged before, [c] appends [evs] and
    ends with [o]. *)
Definition runs {A} (c : proc A) (evs : list event) (o : outcome A) : Prop :=
  forall log, c log = (log ++ evs, o).

Definition say (b : bool) (m : message) : list event :=
  if b then [Print m] else [].

Definition progress_events (i n : nat) : list event :=
  flat_map (fun k => [Sleep; Print (MsgProgress (S k))]) (seq i n).

Section Events.
Variable w : world.

Definition make (path : string) : list event :=
  if path_exists w path then [] else [MakeDirs path].

Definition srt_path (args : arguments) : string :=
  join w (subtitle_output_path args) (base_name w (input_file args) ++ ".srt").

Definition video_path (args : arguments) : string :=
  join w (output_path args) (base_name w (input_file args) ++ "_subtitled.mp4").

(** The segments that reach [write_srt]: the file has an audio track,
    the model loads and the transcription answers. *)
Definition transcribed (args : arguments) : option (list (gmap string value)) :=
  match probe w (input_file args) with
  | Some streams =>
      if has_audio streams then
        match load_model w (model args) with
        | Ok m =>
            match transcribe w m (input_file args) (language args) (task args)
                    (verbose args) with
            | Ok segments => Some segments
            | Raise _ => None
            end
        | Raise _ => None
        end
      else None
  | None => None
  end.

Definition extraction_events (args : arguments) : list event :=
  match probe w (input_file args) with
  | None => [Print (MsgProbeError (input_file args))]
  | Some streams =>
      if has_audio streams then
        match load_model w (model args) with
        | Raise _ => []
        | Ok m =>
            say (verbose args) (MsgLoadingModel (model args))
            ++ say (verbose args) MsgStartingTranscription
            ++ match transcribe w m (input_file args) (language args) (task args)
                       (verbose args) with
               | Raise _ => []
               | Ok segments =>
                   make (subtitle_output_path args)
                   ++ [WriteFile (srt_path args) (fst (write_srt segments []))]
                   ++ match snd (write_srt segments []) with
                      | Ok _ => say (verbose args) (MsgSubtitlesSaved (srt_path args))
                      | Raise _ => []
                      end
               end
        end
      else [Print (MsgNoAudioForSubtitles (input_file args))]
  end.

Definition transform_events (args : arguments) (srt_file : string) : list event :=
  match probe w (input_file args) with
  | None => [Print (MsgProbeError (input_file args))]
  | Some streams =>
      if has_audio streams then
        make (output_path args)
        ++ say (verbose args) MsgRenderingWithSubtitles
        ++ progress_events 0 100
        ++ [RunFfmpeg (input_file args) srt_file (video_path args)
              (negb (verbose args))]
        ++ (if ffmpeg_run w (input_file args) srt_file (video_path args)
                 (negb (verbose args))
            then say (verbose args) (MsgVideoDone (video_path args))
            else [])
      else [Print (MsgNoAudioForVideo (input_file args))]
  end.

Definition main_events (args : arguments) : list event :=
  make (cwd_assets w)
  ++ if isfile w (input_file args) then
       (if extraction_requested args then
          say (verbose args) MsgExtractionStarts
          ++ extraction_events args
          ++ match extraction_outcome w args with
             | Return _ => say (verbose args) MsgExtractionDone
             | _ => []
             end
        else [])
       ++ match (if extraction_requested args then extraction_outcome w args
                 else Return None) with
          | Return srt_file =>
              if audio_to_video args || combine args then
                say (verbose args) MsgVideoStarts
              else if audio_to_video_with_subtitles args then
                match srt_file with
                | None => [Print MsgNoSubtitlesAbort]
                | Some srt_file =>
                    say (verbose args) MsgSubtitledVideoStarts
                    ++ transform_events args srt_file
                    ++ match transform_outcome w args srt_file with
                       | Return _ => say (verbose args) MsgSubtitledVideoCompleted
                       | _ => []
                       end
                end
              else []
          | _ => []
          end
     else [Print (MsgFileMissing (input_file args))].

(** A run renders a video: the file is there and has an audio track,
    [--audio_to_video_with_subtitles] is the only render asked for, and
    the subtitles were extracted. *)
Definition will_render (args : arguments) : bool :=
  isfile w (input_file args)
  && audio_to_video_with_subtitles args
  && negb (audio_to_video args || combine args)
  && match transcribed args with
     | Some segments =>
         match snd (write_srt segments []) with
         | Ok _ => true
         | Raise _ => false
         end
     | None => false
     end.

End Events.

(** Rounding to binary64: powers of two, the binary exponent, round to
    nearest even, exactly representable values. *)
Section RoundingFacts.
Local Open Scope Q_scope.

Section Pow2.

Lemma two_neq_0 : ~ two == 0.
Proof. unfold two. lra. Qed.

Lemma pow2_pos e : 0 < two ^ e.
Proof. apply Qpower_0_lt. reflexivity. Qed.

Lemma pow2_add a b : two ^ (a + b) == two ^ a * two ^ b.
Proof. apply Qpower_plus, two_neq_0. Qed.

Lemma pow2_le a b : (a <= b)%Z -> two ^ a <= two ^ b.
Proof. intros H. apply Qpower_le_compat_l; [exact H | unfold two; lra]. Qed.

Lemma pow2_lt a b : (a < b)%Z -> two ^ a < two ^ b.
Proof. intros H. apply Qpower_lt_compat_l; [exact H | unfold two; lra]. Qed.

Lemma pow2_Z e : (0 <= e)%Z -> two ^ e == inject_Z (2 ^ e).
Proof. intros H. unfold two. symmetry. apply (Zpower_Qpower 2 e H). Qed.

Lemma pow2_succ e : two ^ (e + 1) == 2 * two ^ e.
Proof. rewrite pow2_add. change (two ^ 1) with 2. ring. Qed.

Lemma pow2_cancel e : two ^ e * two ^ (- e) == 1.
Proof. rewrite <- pow2_add. rewrite Z.add_opp_diag_r. reflexivity. Qed.

End Pow2.

Section Log2.

Lemma Qlog2_bounds q :
  0 < q -> two ^ Qlog2 q <= q /\ q < two ^ (Qlog2 q + 1).
Proof.
  intros Hq. unfold Qlog2.
  destruct q as [n d]. cbn [Qnum Qden].
  assert (Hn : (0 < n)%Z) by (unfold Qlt in Hq; cbn in Hq; lia).
  set (a := Z.log2 n). set (b := Z.log2 (Z.pos d)).
  destruct (Z.log2_spec n Hn) as [Ha1 Ha2]. fold a in Ha1, Ha2.
  destruct (Z.log2_spec (Z.pos d) eq_refl) as [Hb1 Hb2]. fold b in Hb1, Hb2.
  assert (Ha0 : (0 <= a)%Z) by apply Z.log2_nonneg.
  assert (Hb0 : (0 <= b)%Z) by apply Z.log2_nonneg.
  rewrite <- Z.add_1_r in Ha2, Hb2.
  rewrite Zle_Qle, <- pow2_Z in Ha1, Hb1 by lia.
  rewrite Zlt_Qlt, <- pow2_Z, pow2_succ in Ha2, Hb2 by lia.
  assert (Hq' : (n # d) * inject_Z (Z.pos d) == inject_Z n).
  { rewrite (Qmake_Qdiv n d). field. unfold Qeq; cbn; lia. }
  assert (Hl : two ^ (a - b) * two ^ b == two ^ a).
  { rewrite <- pow2_add. f_equiv; lia. }
  pose proof (pow2_pos (a - b)) as Hp.
  pose proof (pow2_pos b) as Hpb.
  assert (Hl1 : two ^ (a - b + 1) == 2 * two ^ (a - b)) by apply pow2_succ.
  assert (Hl2 : 2 * two ^ (a - b - 1) == two ^ (a - b)).
  { rewrite <- pow2_succ. f_equiv; lia. }
  pose proof (pow2_pos (a - b - 1)) as Hp1.
  set (L := two ^ (a - b)) in *. set (B := two ^ b) in *.
  set (A := two ^ a) in *. set (D := inject_Z (Z.pos d)) in *.
  set (N := inject_Z n) in *. set (q := n # d) in *.
  set (L1 := two ^ (a - b - 1)) in *.
  assert (E0 : two ^ (a - b) == L) by reflexivity.
  assert (E1 : two ^ (a - b - 1) == L1) by reflexivity.
  assert (E2 : two ^ (a - b - 1 + 1) == L).
  { unfold L. f_equiv. lia. }
  clearbody L L1 B A D N q. clear Ha0 Hb0 Hn.
  assert (HD : 0 < D) by lra.
  destruct (Qle_bool L q) eqn:Hc.
  - apply Qle_bool_iff in Hc. rewrite E0, Hl1. split; [exact Hc |].
    apply Qnot_le_lt. intros Hge.
    assert (2 * L * D <= q * D) by (apply Qmult_le_compat_r; lra).
    assert (L * B <= L * D) by (apply Qmult_le_l; lra). lra.
  - assert (Hlt : q < L).
    { apply Qnot_le_lt. intros H. apply Qle_bool_iff in H. congruence. }
    rewrite E1, E2. split.
    + apply Qnot_lt_le. intros Hlt'.
      assert (q * D < L1 * D) by (apply Qmult_lt_compat_r; lra).
      assert (L1 * D < L1 * (2 * B)).
      { apply Qmult_lt_l; lra. }
      assert (L1 * (2 * B) == A) by (rewrite <- Hl, <- Hl2; ring).
      lra.
    + exact Hlt.
Qed.

Lemma Qlog2_unique q l :
  two ^ l <= q -> q < two ^ (l + 1) -> Qlog2 q = l.
Proof.
  intros H1 H2.
  assert (Hq : 0 < q) by (pose proof (pow2_pos l); lra).
  destruct (Qlog2_bounds q Hq) as [H3 H4].
  destruct (Z.lt_trichotomy (Qlog2 q) l) as [Hlt | [Heq | Hgt]]; [| exact Heq |].
  - pose proof (pow2_le (Qlog2 q + 1) l ltac:(lia)). lra.
  - pose proof (pow2_le (l + 1) (Qlog2 q) ltac:(lia)). lra.
Qed.

Lemma Qlog2_comp q q' : 0 < q -> q == q' -> Qlog2 q = Qlog2 q'.
Proof.
  intros Hq Heq. symmetry.
  destruct (Qlog2_bounds q Hq). apply Qlog2_unique; rewrite <- Heq; assumption.
Qed.

Lemma Qlog2_mono a b : 0 < a -> a <= b -> (Qlog2 a <= Qlog2 b)%Z.
Proof.
  intros Ha Hab.
  destruct (Qlog2_bounds a Ha) as [H1 H2].
  destruct (Qlog2_bounds b ltac:(lra)) as [H3 H4].
  destruct (Z.le_gt_cases (Qlog2 a) (Qlog2 b)) as [H | H]; [exact H |].
  pose proof (pow2_le (Qlog2 b + 1) (Qlog2 a) ltac:(lia)). lra.
Qed.

End Log2.

Section Rne.

Lemma rne_comp q q' : q == q' -> rne q = rne q'.
Proof.
  intros H. unfold rne.
  assert (E : Qfloor q = Qfloor q') by (rewrite H; reflexivity).
  rewrite <- E.
  assert (Hc : Qcompare (q - inject_Z (Qfloor q)) (1 # 2)
             = Qcompare (q' - inject_Z (Qfloor q)) (1 # 2)).
  { apply Qcompare_comp; [lra | reflexivity]. }
  rewrite Hc. reflexivity.
Qed.

Lemma rne_cases q :
  (rne q = Qfloor q /\ q - inject_Z (Qfloor q) <= 1 # 2)
  \/ (rne q = (Qfloor q + 1)%Z /\ 1 # 2 <= q - inject_Z (Qfloor q)).
Proof.
  unfold rne.
  destruct (Qcompare_spec (q - inject_Z (Qfloor q)) (1 # 2)) as [H | H | H].
  - destruct (Z.even (Qfloor q)); [left | right]; split; try reflexivity; lra.
  - left. split; [reflexivity | lra].
  - right. split; [reflexivity | lra].
Qed.

Lemma Qfloor_frac q : 0 <= q - inject_Z (Qfloor q) < 1.
Proof.
  pose proof (Qfloor_le q). pose proof (Qlt_floor q) as H1.
  rewrite inject_Z_plus in H1. change (inject_Z 1) with 1 in H1. lra.
Qed.

Lemma rne_Z z : rne (inject_Z z) = z.
Proof.
  unfold rne. rewrite Qfloor_Z.
  destruct (Qcompare_spec (inject_Z z - inject_Z z) (1 # 2)) as [H | H | H];
    [lra | reflexivity | lra].
Qed.

Lemma rne_near q : - (1 # 2) <= inject_Z (rne q) - q <= 1 # 2.
Proof.
  pose proof (Qfloor_frac q).
  destruct (rne_cases q) as [[-> H1] | [-> H1]].
  - lra.
  - rewrite inject_Z_plus. change (inject_Z 1) with 1. lra.
Qed.

Lemma rne_mono a b : a <= b -> (rne a <= rne b)%Z.
Proof.
  intros Hab.
  pose proof (Qfloor_resp_le _ _ Hab) as Hf.
  pose proof (Qfloor_frac a) as Ha. pose proof (Qfloor_frac b) as Hb.
  destruct (Z.eq_dec (Qfloor a) (Qfloor b)) as [E | N].
  - unfold rne. rewrite <- E.
    destruct (Qcompare_spec (a - inject_Z (Qfloor a)) (1 # 2)) as [H | H | H];
    destruct (Qcompare_spec (b - inject_Z (Qfloor a)) (1 # 2)) as [H' | H' | H'];
    try lra; try lia; destruct (Z.even (Qfloor a)); lia.
  - destruct (rne_cases a) as [[-> _] | [-> _]];
    destruct (rne_cases b) as [[-> _] | [-> _]]; lia.
Qed.

Lemma Qfloor_opp_nonint q :
  ~ q == inject_Z (Qfloor q) -> Qfloor (- q) = (- Qfloor q - 1)%Z.
Proof.
  intros Hn. pose proof (Qfloor_frac q) as Hq.
  pose proof (Qfloor_frac (- q)) as Hq'.
  assert (H1 : inject_Z (- Qfloor q - 2) < inject_Z (Qfloor (- q))).
  { unfold Z.sub. rewrite !inject_Z_plus, inject_Z_opp.
    change (inject_Z (- (2))) with (- (2)). lra. }
  assert (H2 : inject_Z (Qfloor (- q)) < inject_Z (- Qfloor q)).
  { rewrite inject_Z_opp.
    destruct (Qlt_le_dec (inject_Z (Qfloor (- q))) (- inject_Z (Qfloor q)));
      [assumption | exfalso; apply Hn; lra]. }
  rewrite <- Zlt_Qlt in H1, H2. lia.
Qed.

End Rne.

Section RneOpp.

Lemma rne_opp q : rne (- q) = (- rne q)%Z.
Proof.
  destruct (Qeq_dec q (inject_Z (Qfloor q))) as [E | N].
  - rewrite (rne_comp q _ E), rne_Z.
    assert (E' : - q == inject_Z (- Qfloor q)) by (rewrite inject_Z_opp; lra).
    rewrite (rne_comp _ _ E'), rne_Z. reflexivity.
  - pose proof (Qfloor_opp_nonint q N) as Hf.
    pose proof (Qfloor_frac q) as Hq.
    unfold rne. rewrite Hf.
    assert (Hd : - q - inject_Z (- Qfloor q - 1)
                 == 1 - (q - inject_Z (Qfloor q))).
    { unfold Z.sub. rewrite inject_Z_plus, inject_Z_opp.
      change (inject_Z (- (1))) with (- (1)). lra. }
    assert (Hpar : Z.even (- Qfloor q - 1) = negb (Z.even (Qfloor q))).
    { replace (- Qfloor q - 1)%Z with (- (Qfloor q + 1))%Z by lia.
      rewrite Z.even_opp, Z.even_add. destruct (Z.even (Qfloor q)); reflexivity. }
    rewrite Hpar.
    destruct (Qcompare_spec (q - inject_Z (Qfloor q)) (1 # 2)) as [H | H | H];
    destruct (Qcompare_spec (- q - inject_Z (- Qfloor q - 1)) (1 # 2))
      as [H' | H' | H']; try lra; try lia.
    destruct (Z.even (Qfloor q)); cbn; lia.
Qed.

End RneOpp.

Section Rnd.

Lemma Qeq_bool_false a b : ~ a == b -> Qeq_bool a b = false.
Proof.
  intros H. destruct (Qeq_bool a b) eqn:E; [| reflexivity].
  apply Qeq_bool_eq in E. contradiction.
Qed.

Lemma ulp_exp_comp q q' : ~ q == 0 -> q == q' -> ulp_exp q = ulp_exp q'.
Proof.
  intros Hn H. unfold ulp_exp. f_equal. f_equal.
  apply Qlog2_comp.
  - apply Qabs_case; intros; destruct (Qeq_dec q 0); try contradiction; lra.
  - rewrite H. reflexivity.
Qed.

Lemma rnd_comp q q' : q == q' -> rnd q = rnd q'.
Proof.
  intros H. unfold rnd.
  rewrite <- (Qeqb_comp _ _ H 0 0 (Qeq_refl 0)).
  destruct (Qeq_bool q 0) eqn:E; [reflexivity |].
  apply Qeq_bool_neq in E.
  rewrite <- (ulp_exp_comp q q' E H).
  apply Qred_complete.
  rewrite (rne_comp (q / two ^ ulp_exp q) (q' / two ^ ulp_exp q)).
  - reflexivity.
  - unfold Qdiv. apply Qmult_comp; [exact H | reflexivity].
Qed.

Lemma rnd_value q :
  rnd q == inject_Z (rne (q / two ^ ulp_exp q)) * two ^ ulp_exp q.
Proof.
  unfold rnd. destruct (Qeq_bool q 0) eqn:E.
  - apply Qeq_bool_eq in E.
    rewrite (rne_comp (q / two ^ ulp_exp q) (inject_Z 0)).
    + rewrite rne_Z. change (inject_Z 0) with 0. ring.
    + unfold Qdiv. transitivity (0 * / two ^ ulp_exp q).
      * apply Qmult_comp; [exact E | reflexivity].
      * change (inject_Z 0) with 0. ring.
  - apply Qred_correct.
Qed.

Lemma rnd_0 : rnd 0 = 0.
Proof. reflexivity. Qed.

Lemma ulp_exp_opp q : ulp_exp (- q) = ulp_exp q.
Proof.
  unfold ulp_exp. f_equal. f_equal.
  destruct (Qeq_dec q 0) as [E | N].
  - destruct q as [n d]. unfold Qeq in E. cbn in E.
    assert (n = 0%Z) by lia. subst. reflexivity.
  - apply Qlog2_comp.
    + apply Qabs_case; intros; destruct (Qeq_dec q 0); try contradiction; lra.
    + apply Qabs_opp.
Qed.

Lemma rnd_opp q : rnd (- q) = - rnd q.
Proof.
  unfold rnd.
  assert (Hz : Qeq_bool (- q) 0 = Qeq_bool q 0).
  { destruct (Qeq_bool q 0) eqn:E.
    - apply Qeq_bool_eq in E. apply Qeq_eq_bool. lra.
    - apply Qeq_bool_neq in E. apply Qeq_bool_false. lra. }
  rewrite Hz. destruct (Qeq_bool q 0); [reflexivity |].
  rewrite ulp_exp_opp, <- Qred_opp. apply Qred_complete.
  rewrite (rne_comp (- q / two ^ ulp_exp q) (- (q / two ^ ulp_exp q))).
  - rewrite rne_opp, inject_Z_opp. ring.
  - unfold Qdiv. ring.
Qed.

End Rnd.

Section RndExact.

Lemma pow2_sub_Z e E : (E <= e)%Z -> two ^ e / two ^ E == inject_Z (2 ^ (e - E)).
Proof.
  intros H. rewrite <- pow2_Z by lia.
  replace e with ((e - E) + E)%Z at 1 by lia.
  rewrite pow2_add. field. pose proof (pow2_pos E). lra.
Qed.

Lemma Qabs_pos_lt q : ~ q == 0 -> 0 < Qabs q.
Proof.
  intros H. apply Qabs_case; intros; destruct (Qeq_dec q 0); try contradiction; lra.
Qed.

Lemma Qlog2_lt q l : 0 < q -> q < two ^ l -> (Qlog2 q < l)%Z.
Proof.
  intros Hq H. destruct (Qlog2_bounds q Hq) as [H1 _].
  destruct (Z.lt_ge_cases (Qlog2 q) l) as [Hlt | Hge]; [exact Hlt |].
  pose proof (pow2_le l (Qlog2 q) Hge). lra.
Qed.

Lemma Qlog2_ge q l : two ^ l <= q -> (l <= Qlog2 q)%Z.
Proof.
  intros H. assert (Hq : 0 < q) by (pose proof (pow2_pos l); lra).
  destruct (Qlog2_bounds q Hq) as [_ H2].
  destruct (Z.le_gt_cases l (Qlog2 q)) as [Hle | Hgt]; [exact Hle |].
  pose proof (pow2_le (Qlog2 q + 1) l ltac:(lia)). lra.
Qed.

Lemma Qabs_dyadic k e : Qabs (inject_Z k * two ^ e) == inject_Z (Z.abs k) * two ^ e.
Proof.
  rewrite Qabs_Qmult. rewrite (Qabs_pos (two ^ e)) by (pose proof (pow2_pos e); lra).
  apply Qmult_comp; [| reflexivity].
  unfold Qabs, inject_Z. reflexivity.
Qed.

Lemma rnd_dyadic k e q :
  (Z.abs k < 2 ^ 53)%Z -> (-1074 <= e)%Z ->
  q == inject_Z k * two ^ e -> rnd q == q.
Proof.
  intros Hk He Hq.
  destruct (Qeq_dec q 0) as [E0 | N0].
  - rewrite (rnd_comp q 0 E0), rnd_0. symmetry. exact E0.
  - pose proof (pow2_pos e) as Hpe.
    assert (Habs : Qabs q == inject_Z (Z.abs k) * two ^ e).
    { rewrite <- Qabs_dyadic. apply Qabs_wd. exact Hq. }
    assert (Hlt : Qabs q < two ^ (53 + e)).
    { rewrite Habs, pow2_add.
      apply Qmult_lt_compat_r; [exact Hpe |].
      rewrite pow2_Z by lia. rewrite <- Zlt_Qlt. exact Hk. }
    pose proof (Qlog2_lt _ _ (Qabs_pos_lt q N0) Hlt) as HL.
    assert (HE : (ulp_exp q <= e)%Z) by (unfold ulp_exp; lia).
    rewrite rnd_value.
    set (E := ulp_exp q) in *. clearbody E.
    assert (Hs : q / two ^ E == inject_Z (k * 2 ^ (e - E))).
    { rewrite inject_Z_mult, <- (pow2_sub_Z e E HE), Hq.
      unfold Qdiv. ring. }
    rewrite (rne_comp _ _ Hs), rne_Z, Hq, inject_Z_mult.
    rewrite <- (pow2_sub_Z e E HE).
    field. pose proof (pow2_pos E). lra.
Qed.

Lemma rnd_Z z : (Z.abs z <= 2 ^ 53)%Z -> rnd (inject_Z z) == inject_Z z.
Proof.
  intros H. destruct (Z.eq_dec (Z.abs z) (2 ^ 53)%Z) as [E | N].
  - assert (Hz : z = (Z.sgn z * 2 ^ 53)%Z) by lia.
    apply (rnd_dyadic (Z.sgn z) 53); [lia | lia |].
    rewrite pow2_Z by lia. rewrite <- inject_Z_mult, <- Hz. reflexivity.
  - apply (rnd_dyadic z 0); [lia | lia |].
    change (two ^ 0) with 1. ring.
Qed.

Lemma rnd_pow2 e : (-1074 <= e)%Z -> rnd (two ^ e) == two ^ e.
Proof.
  intros H. apply (rnd_dyadic 1 e); [reflexivity | exact H |].
  change (inject_Z 1) with 1. ring.
Qed.

Lemma rnd_grid q :
  ~ q == 0 ->
  (Z.abs (rne (q / two ^ ulp_exp q)) <= 2 ^ 53)%Z.
Proof.
  intros N0. set (E := ulp_exp q).
  pose proof (pow2_pos E) as HpE.
  destruct (Qlog2_bounds _ (Qabs_pos_lt q N0)) as [_ H2].
  assert (Hle : two ^ (Qlog2 (Qabs q) + 1) <= two ^ (53 + E)).
  { apply pow2_le. unfold E, ulp_exp. lia. }
  assert (Hb : Qabs q < two ^ 53 * two ^ E)
    by (rewrite <- pow2_add; lra).
  assert (Hb' : - inject_Z (2 ^ 53) <= q / two ^ E <= inject_Z (2 ^ 53)).
  { rewrite <- pow2_Z by lia.
    assert (Hq : q == (q / two ^ E) * two ^ E) by (field; lra).
    set (s := q / two ^ E) in *. clearbody s.
    assert (Hqa : - (two ^ 53 * two ^ E) < q < two ^ 53 * two ^ E).
    { revert Hb. apply Qabs_case; intros; lra. }
    rewrite Hq in Hqa. destruct Hqa as [Ha1 Ha2].
    set (P := two ^ 53) in *. clearbody P.
    split; apply Qnot_lt_le; intros Hc.
    - assert (s * two ^ E < - P * two ^ E) by (apply Qmult_lt_compat_r; lra). lra.
    - assert (P * two ^ E < s * two ^ E) by (apply Qmult_lt_compat_r; lra). lra. }
  destruct Hb' as [Hb1 Hb2].
  apply rne_mono in Hb1, Hb2.
  rewrite <- inject_Z_opp in Hb1. rewrite rne_Z in Hb1, Hb2.
  lia.
Qed.

End RndExact.

Section RndMono.

Lemma Qdiv_le_pos a b p : 0 < p -> a <= b -> a / p <= b / p.
Proof.
  intros Hp H. unfold Qdiv. apply Qmult_le_compat_r; [exact H |].
  apply Qlt_le_weak, Qinv_lt_0_compat, Hp.
Qed.

Lemma rnd_nonneg q : 0 <= q -> 0 <= rnd q.
Proof.
  intros H. rewrite rnd_value.
  pose proof (pow2_pos (ulp_exp q)) as Hp.
  apply Qmult_le_0_compat; [| lra].
  change 0 with (inject_Z 0). rewrite <- Zle_Qle.
  rewrite <- (rne_Z 0). apply rne_mono.
  change (inject_Z 0) with 0.
  apply Qle_shift_div_l; [exact Hp | lra].
Qed.

Lemma ulp_exp_pos q : 0 < q -> ulp_exp q = Z.max (Qlog2 q - 52) (-1074).
Proof.
  intros H. unfold ulp_exp. f_equal. f_equal.
  apply Qlog2_comp; [apply Qabs_pos_lt; lra | apply Qabs_pos; lra].
Qed.

Lemma rnd_mono_pos a b : 0 < a -> a <= b -> rnd a <= rnd b.
Proof.
  intros Ha Hab. assert (Hb : 0 < b) by lra.
  rewrite (rnd_value a), (rnd_value b).
  pose proof (ulp_exp_pos a Ha) as Ea. pose proof (ulp_exp_pos b Hb) as Eb.
  pose proof (Qlog2_mono a b Ha Hab) as HL.
  destruct (Qlog2_bounds a Ha) as [Ha1 Ha2].
  destruct (Qlog2_bounds b Hb) as [Hb1 Hb2].
  set (ea := ulp_exp a) in *. set (eb := ulp_exp b) in *.
  pose proof (pow2_pos ea) as Hpa. pose proof (pow2_pos eb) as Hpb.
  destruct (Z.eq_dec ea eb) as [E | N].
  - rewrite E in *. apply Qmult_le_compat_r; [| lra].
    rewrite <- Zle_Qle. apply rne_mono. apply Qdiv_le_pos; assumption.
  - assert (Hlt : (ea < eb)%Z) by lia.
    apply Qle_trans with (two ^ (ea + 53)).
    + assert (Hp : two ^ (ea + 53) == inject_Z (2 ^ 53) * two ^ ea).
      { rewrite pow2_add, <- pow2_Z by lia. ring. }
      rewrite Hp. apply Qmult_le_compat_r; [| lra].
      rewrite <- Zle_Qle.
      rewrite <- (rne_Z (2 ^ 53)). apply rne_mono.
      rewrite <- pow2_Z by lia.
      apply Qle_shift_div_r; [exact Hpa |].
      rewrite <- pow2_add.
      pose proof (pow2_le (Qlog2 a + 1) (53 + ea) ltac:(lia)). lra.
    + apply Qle_trans with (two ^ 52 * two ^ eb).
      { rewrite <- pow2_add. apply pow2_le. lia. }
      apply Qmult_le_compat_r; [| lra].
      rewrite pow2_Z by lia. rewrite <- Zle_Qle.
      rewrite <- (rne_Z (2 ^ 52)) at 1. apply rne_mono.
      rewrite <- pow2_Z by lia.
      apply Qle_shift_div_l; [exact Hpb |].
      rewrite <- pow2_add.
      pose proof (pow2_le (52 + eb) (Qlog2 b) ltac:(lia)). lra.
Qed.

Lemma rnd_mono a b : a <= b -> rnd a <= rnd b.
Proof.
  intros Hab.
  destruct (Qlt_le_dec 0 a) as [Ha | Ha].
  - apply rnd_mono_pos; assumption.
  - destruct (Qlt_le_dec b 0) as [Hb | Hb].
    + assert (H : rnd (- b) <= rnd (- a)) by (apply rnd_mono_pos; lra).
      rewrite !rnd_opp in H. lra.
    + pose proof (rnd_nonneg b Hb).
      assert (H1 : 0 <= rnd (- a)) by (apply rnd_nonneg; lra).
      rewrite rnd_opp in H1. lra.
Qed.

End RndMono.

Section Round.

Lemma representable_repr q : representable q = true <-> repr q.
Proof.
  unfold representable, repr. rewrite andb_true_iff, negb_true_iff.
  rewrite Qeq_bool_iff. split; intros [H1 H2]; split; try exact H1.
  - apply Qnot_le_lt. intros H. apply Qle_bool_iff in H. congruence.
  - destruct (Qle_bool huge (Qabs q)) eqn:E; [| reflexivity].
    apply Qle_bool_iff in E. lra.
Qed.

Lemma ulp_exp_ge q : (-1074 <= ulp_exp q)%Z.
Proof. unfold ulp_exp. lia. Qed.

Lemma rnd_idem q : rnd (rnd q) == rnd q.
Proof.
  destruct (Qeq_dec q 0) as [E0 | N0].
  - rewrite (rnd_comp q 0 E0). reflexivity.
  - pose proof (rnd_grid q N0) as Hm. pose proof (ulp_exp_ge q) as He.
    pose proof (rnd_value q) as Hv.
    set (m := rne (q / two ^ ulp_exp q)) in *. set (E := ulp_exp q) in *.
    destruct (Z.eq_dec (Z.abs m) (2 ^ 53)%Z) as [Eq | Ne].
    + apply (rnd_dyadic (Z.sgn m) (E + 53)); [lia | lia |].
      rewrite Hv, pow2_add, (pow2_Z 53) by lia.
      assert (Hz : m = (Z.sgn m * 2 ^ 53)%Z) by lia.
      rewrite Hz at 1. rewrite inject_Z_mult. ring.
    + apply (rnd_dyadic m E); [lia | lia | exact Hv].
Qed.

Lemma rnd_Qred v : rnd v == v -> rnd v = Qred v.
Proof.
  intros H. unfold rnd in *. destruct (Qeq_bool v 0) eqn:E.
  - apply Qeq_bool_eq in E. rewrite (Qred_complete v 0 E). reflexivity.
  - rewrite Qred_correct in H. apply Qred_complete. exact H.
Qed.

Lemma huge_pos : 0 < huge.
Proof. apply pow2_pos. Qed.

Lemma round_finite q : Qabs (rnd q) < huge -> round q = Finite (rnd q).
Proof.
  intros H. unfold round.
  destruct (Qle_bool huge (Qabs (rnd q))) eqn:E; [| reflexivity].
  apply Qle_bool_iff in E. lra.
Qed.

Lemma round_repr q v : q == v -> repr v -> round q = Finite (Qred v).
Proof.
  intros Hq [Hv Hb]. rewrite <- (rnd_Qred v Hv), <- (rnd_comp q v Hq).
  apply round_finite. rewrite (rnd_comp q v Hq).
  rewrite (Qabs_wd _ _ Hv). exact Hb.
Qed.

Lemma repr_Qred v : repr v -> repr (Qred v).
Proof.
  intros [H1 H2]. split.
  - rewrite (rnd_comp (Qred v) v (Qred_correct v)), H1. symmetry. apply Qred_correct.
  - rewrite (Qabs_wd _ _ (Qred_correct v)). exact H2.
Qed.

Lemma repr_comp v v' : v == v' -> repr v -> repr v'.
Proof.
  intros E [H1 H2]. split.
  - rewrite <- (rnd_comp v v' E), H1. exact E.
  - rewrite <- (Qabs_wd _ _ E). exact H2.
Qed.

Lemma repr_opp v : repr v -> repr (- v).
Proof.
  intros [H1 H2]. split.
  - rewrite rnd_opp, H1. reflexivity.
  - rewrite Qabs_opp. exact H2.
Qed.

Lemma repr_0 : repr 0.
Proof. split; [reflexivity | apply huge_pos]. Qed.

Lemma repr_pow2 e : (-1074 <= e <= 1023)%Z -> repr (two ^ e).
Proof.
  intros H. split; [apply rnd_pow2; lia |].
  rewrite Qabs_pos by (pose proof (pow2_pos e); lra).
  apply pow2_lt. lia.
Qed.

Lemma repr_Z z : (Z.abs z <= 2 ^ 53)%Z -> repr (inject_Z z).
Proof.
  intros H. split; [apply rnd_Z, H |].
  apply Qle_lt_trans with (inject_Z (2 ^ 53)).
  - apply Qabs_Qle_condition. rewrite <- inject_Z_opp, <- !Zle_Qle. lia.
  - rewrite <- pow2_Z by lia. apply pow2_lt. lia.
Qed.

Lemma repr_dyadic k e q :
  (Z.abs k < 2 ^ 53)%Z -> (-1074 <= e <= 971)%Z ->
  q == inject_Z k * two ^ e -> repr q.
Proof.
  intros Hk He Hq. split; [apply (rnd_dyadic k e); [exact Hk | lia | exact Hq] |].
  assert (Ha : Qabs q == inject_Z (Z.abs k) * two ^ e).
  { rewrite <- Qabs_dyadic. apply Qabs_wd. exact Hq. }
  rewrite Ha.
  pose proof (pow2_pos e) as Hp.
  apply Qlt_le_trans with (two ^ 53 * two ^ e).
  - apply Qmult_lt_compat_r; [exact Hp |]. rewrite pow2_Z by lia.
    rewrite <- Zlt_Qlt. exact Hk.
  - rewrite <- pow2_add. apply pow2_le. lia.
Qed.

Lemma round_between q lo hi :
  repr lo -> repr hi -> lo <= q <= hi ->
  exists r, round q = Finite r /\ repr r /\ lo <= r <= hi.
Proof.
  intros [Hlo Blo] [Hhi Bhi] [H1 H2].
  pose proof (rnd_mono _ _ H1) as M1. pose proof (rnd_mono _ _ H2) as M2.
  rewrite Hlo in M1. rewrite Hhi in M2.
  assert (Hb : Qabs (rnd q) < huge).
  { apply Qabs_Qlt_condition in Blo, Bhi. apply Qabs_Qlt_condition. lra. }
  exists (rnd q). split; [apply round_finite, Hb |].
  split; [split; [apply rnd_idem | exact Hb] | split; assumption].
Qed.

End Round.

Section Trunc.

Lemma Qtrunc_nonneg q : 0 <= q -> Qtrunc q = Qfloor q.
Proof.
  destruct q as [n d]. unfold Qle, Qtrunc, Qfloor. cbn. intros H.
  apply Z.quot_div_nonneg; lia.
Qed.

Lemma Qtrunc_opp q : Qtrunc (- q) = (- Qtrunc q)%Z.
Proof.
  destruct q as [n d]. unfold Qtrunc. cbn. apply Z.quot_opp_l. lia.
Qed.

Lemma Qopp_opp_eq q : - - q = q.
Proof. destruct q as [n d]. unfold Qopp. cbn. f_equal. lia. Qed.

Lemma Qtrunc_comp q q' : q == q' -> Qtrunc q = Qtrunc q'.
Proof.
  intros H. destruct (Qlt_le_dec q 0) as [Hn | Hp].
  - assert (E : Qtrunc (- q) = Qtrunc (- q')).
    { rewrite !Qtrunc_nonneg by lra. apply Qfloor_comp. lra. }
    rewrite !Qtrunc_opp in E. lia.
  - rewrite !Qtrunc_nonneg by lra. apply Qfloor_comp. exact H.
Qed.

Lemma Qtrunc_Z z : Qtrunc (inject_Z z) = z.
Proof. unfold Qtrunc. cbn. apply Z.quot_1_r. Qed.

Lemma Qtrunc_Qred q : Qtrunc (Qred q) = Qtrunc q.
Proof. apply Qtrunc_comp, Qred_correct. Qed.

Lemma Qfloor_div_Z a b : (0 < b)%Z -> Qfloor (inject_Z a / inject_Z b) = (a / b)%Z.
Proof. intros _. symmetry. apply Zdiv_Qdiv. Qed.

Lemma Qtrunc_abs_le q : Qabs (inject_Z (Qtrunc q)) <= Qabs q.
Proof.
  destruct (Qlt_le_dec q 0) as [Hn | Hp].
  - assert (E : Qtrunc q = (- Qtrunc (- q))%Z) by (rewrite Qtrunc_opp; lia).
    rewrite E, inject_Z_opp, Qabs_opp.
    rewrite Qtrunc_nonneg by lra.
    pose proof (Qfloor_le (- q)).
    assert (0 <= inject_Z (Qfloor (- q))).
    { change 0 with (inject_Z 0). rewrite <- Zle_Qle, <- (Qfloor_Z 0).
      apply Qfloor_resp_le. change (inject_Z 0) with 0. lra. }
    rewrite Qabs_pos, (Qabs_neg q) by lra. lra.
  - rewrite Qtrunc_nonneg by lra.
    pose proof (Qfloor_le q).
    assert (0 <= inject_Z (Qfloor q)).
    { change 0 with (inject_Z 0). rewrite <- Zle_Qle, <- (Qfloor_Z 0).
      apply Qfloor_resp_le. exact Hp. }
    rewrite !Qabs_pos by lra. lra.
Qed.

End Trunc.

Section Dyadic.

(** A finite float is an integer, or a multiple of a negative power of
    two whose numerator fits in 53 bits. *)
Lemma repr_decompose x :
  repr x ->
  exists k n, (0 <= n <= 1074)%Z
    /\ x == inject_Z k / inject_Z (2 ^ n)
    /\ (n = 0%Z \/ Z.abs k < 2 ^ 53)%Z.
Proof.
  intros [Hx Hb].
  destruct (Qeq_dec x 0) as [E0 | N0].
  { exists 0%Z, 0%Z. split; [lia | split; [rewrite E0; reflexivity | left; reflexivity]]. }
  pose proof (rnd_value x) as Hv. rewrite Hx in Hv.
  pose proof (ulp_exp_ge x) as He.
  destruct (Qlog2_bounds _ (Qabs_pos_lt x N0)) as [_ H2].
  assert (Hle : two ^ (Qlog2 (Qabs x) + 1) <= two ^ (53 + ulp_exp x)).
  { apply pow2_le. unfold ulp_exp. lia. }
  assert (Hlt : Qabs x < two ^ 53 * two ^ ulp_exp x).
  { rewrite <- pow2_add. lra. }
  clear H2 Hle.
  set (m := rne (x / two ^ ulp_exp x)) in *. set (E := ulp_exp x) in *.
  clearbody m E.
  pose proof (pow2_pos E) as HpE.
  assert (Hm : (Z.abs m < 2 ^ 53)%Z).
  { rewrite Zlt_Qlt, <- pow2_Z by lia.
    assert (Ha : Qabs x == inject_Z (Z.abs m) * two ^ E).
    { rewrite <- Qabs_dyadic. apply Qabs_wd. exact Hv. }
    rewrite Ha in Hlt.
    apply Qnot_le_lt. intros Hc.
    assert (two ^ 53 * two ^ E <= inject_Z (Z.abs m) * two ^ E)
      by (apply Qmult_le_compat_r; lra).
    lra. }
  destruct (Z.le_gt_cases 0 E) as [Hpos | Hneg].
  - exists (m * 2 ^ E)%Z, 0%Z. split; [lia |]. split; [| left; reflexivity].
    rewrite Hv, inject_Z_mult, <- pow2_Z by lia.
    change (inject_Z (2 ^ 0)) with 1. field.
  - exists m, (- E)%Z. split; [lia |]. split; [| right; exact Hm].
    rewrite Hv, <- pow2_Z by lia.
    replace E with (- - E)%Z at 1 by lia.
    rewrite (Qpower_opp two (- E)). field.
    pose proof (pow2_pos (- E)). lra.
Qed.

Lemma repr_grid j n :
  (0 <= n <= 1074)%Z -> (Z.abs j < 2 ^ 53)%Z ->
  repr (inject_Z j / inject_Z (2 ^ n)).
Proof.
  intros Hn Hj. apply (repr_dyadic j (- n)); [exact Hj | lia |].
  rewrite (Qpower_opp two n), <- pow2_Z by lia. reflexivity.
Qed.

End Dyadic.

End RoundingFacts.

(** The float operators of [format_timestamp] on non-negative
    representable arguments. *)
Section OperatorFacts.
Local Open Scope Q_scope.

Section Fraction.

Lemma Qtrunc_div_Z k D :
  (0 < D)%Z -> Qtrunc (inject_Z k / inject_Z D) = Z.quot k D.
Proof.
  intros HD.
  assert (HDq : 0 < inject_Z D) by (change 0 with (inject_Z 0); rewrite <- Zlt_Qlt; exact HD).
  destruct (Z.le_gt_cases 0 k) as [Hk | Hk].
  - rewrite Qtrunc_nonneg.
    + rewrite Qfloor_div_Z by exact HD. symmetry. apply Z.quot_div_nonneg; lia.
    + apply Qle_shift_div_l; [exact HDq |].
      rewrite Qmult_0_l. change 0 with (inject_Z 0). rewrite <- Zle_Qle. exact Hk.
  - assert (E : inject_Z k / inject_Z D == - (inject_Z (- k) / inject_Z D)).
    { rewrite inject_Z_opp. field. lra. }
    rewrite (Qtrunc_comp _ _ E), Qtrunc_opp, Qtrunc_nonneg.
    + rewrite Qfloor_div_Z by exact HD.
      rewrite <- (Z.quot_div_nonneg (- k) D) by lia.
      rewrite Z.quot_opp_l by lia. lia.
    + apply Qle_shift_div_l; [exact HDq |].
      rewrite Qmult_0_l. change 0 with (inject_Z 0). rewrite <- Zle_Qle. lia.
Qed.

Lemma pow2_Z_pos n : (0 <= n)%Z -> 0 < inject_Z (2 ^ n).
Proof.
  intros H. change 0 with (inject_Z 0). rewrite <- Zlt_Qlt. apply Z.pow_pos_nonneg; lia.
Qed.

(** The integer part of a float is a float, and so is what remains. *)
Lemma repr_trunc x : repr x -> repr (inject_Z (Qtrunc x)).
Proof.
  intros Hx. destruct (repr_decompose x Hx) as (k & n & Hn & Hk & Hc).
  pose proof (pow2_Z_pos n ltac:(lia)) as HD.
  assert (HDz : (0 < 2 ^ n)%Z) by (apply Z.pow_pos_nonneg; lia).
  rewrite (Qtrunc_comp _ _ Hk), Qtrunc_div_Z by exact HDz.
  destruct Hc as [-> | Hc].
  - change (2 ^ 0)%Z with 1%Z in *. rewrite Z.quot_1_r.
    apply (repr_comp x); [| exact Hx]. rewrite Hk. field.
  - apply repr_Z.
    pose proof (Z.quot_abs k (2 ^ n) ltac:(lia)).
    assert (Z.abs (k ÷ 2 ^ n) <= Z.abs k)%Z; [| lia].
    rewrite <- H. apply Z.quot_le_upper_bound; [lia |]. nia.
Qed.

Lemma repr_frac x :
  repr x ->
  repr (x - inject_Z (Qtrunc x)) /\ Qabs (x - inject_Z (Qtrunc x)) <= 1 - two ^ (-53).
Proof.
  intros Hx. destruct (repr_decompose x Hx) as (k & n & Hn & Hk & Hc).
  pose proof (pow2_Z_pos n ltac:(lia)) as HD.
  assert (HDz : (0 < 2 ^ n)%Z) by (apply Z.pow_pos_nonneg; lia).
  assert (Hf : x - inject_Z (Qtrunc x) == inject_Z (Z.rem k (2 ^ n)) / inject_Z (2 ^ n)).
  { rewrite (Qtrunc_comp _ _ Hk), Qtrunc_div_Z by exact HDz.
    rewrite Hk. pose proof (Z.quot_rem' k (2 ^ n)) as E.
    rewrite E at 1. rewrite inject_Z_plus, inject_Z_mult. field. lra. }
  assert (Hr : (Z.abs (Z.rem k (2 ^ n)) < 2 ^ n)%Z).
  { pose proof (Z.rem_bound_abs k (2 ^ n) ltac:(lia)). lia. }
  assert (Hr' : (Z.abs (Z.rem k (2 ^ n)) <= Z.abs k)%Z).
  { rewrite <- Z.rem_abs by lia. apply Z.rem_le; lia. }
  set (j := Z.rem k (2 ^ n)) in *. clearbody j.
  assert (Hj : (Z.abs j < 2 ^ 53)%Z).
  { destruct Hc as [-> | Hc]; [change (2 ^ 0)%Z with 1%Z in Hr |]; lia. }
  split.
  - apply (repr_comp _ _ (Qeq_sym _ _ Hf)). apply repr_grid; assumption.
  - rewrite (Qabs_wd _ _ Hf).
    assert (Ha : Qabs (inject_Z j / inject_Z (2 ^ n))
                 == inject_Z (Z.abs j) / inject_Z (2 ^ n)).
    { unfold Qdiv. rewrite Qabs_Qmult.
      rewrite (Qabs_pos (/ _)) by (apply Qlt_le_weak, Qinv_lt_0_compat, HD).
      reflexivity. }
    rewrite Ha. apply Qle_shift_div_r; [exact HD |].
    assert (Hp : two ^ (-53) == / inject_Z (2 ^ 53)).
    { rewrite (Qpower_opp two 53), pow2_Z by lia. reflexivity. }
    rewrite Hp.
    destruct (Z.le_gt_cases n 53) as [Hle | Hgt].
    + assert (Hd : (2 ^ 53 = 2 ^ n * 2 ^ (53 - n))%Z).
      { rewrite <- Z.pow_add_r by lia. f_equal. lia. }
      assert (Hj' : (Z.abs j * 2 ^ 53 <= (2 ^ 53 - 1) * 2 ^ n)%Z).
      { pose proof (Z.pow_pos_nonneg 2 (53 - n) ltac:(lia) ltac:(lia)).
        rewrite Hd. nia. }
      rewrite Zle_Qle, !inject_Z_mult in Hj'.
      unfold Z.sub in Hj'. rewrite inject_Z_plus in Hj'.
      change (inject_Z (- (1))) with (- (1)) in Hj'.
      pose proof (pow2_Z_pos 53 ltac:(lia)) as H53.
      set (P := inject_Z (2 ^ 53)) in *. set (Dq := inject_Z (2 ^ n)) in *.
      set (J := inject_Z (Z.abs j)) in *. clearbody P Dq J.
      apply Qmult_le_r with P; [exact H53 |].
      assert (E : (1 - / P) * Dq * P == (P - 1) * Dq) by (field; lra).
      rewrite E. lra.
    + assert (Hd : (2 ^ n = 2 ^ 53 * 2 ^ (n - 53))%Z).
      { rewrite <- Z.pow_add_r by lia. f_equal. lia. }
      assert (Hj' : (Z.abs j * 2 <= 2 ^ n)%Z).
      { assert (2 <= 2 ^ (n - 53))%Z.
        { change 2%Z with (2 ^ 1)%Z at 1. apply Z.pow_le_mono_r; lia. }
        rewrite Hd. nia. }
      rewrite Zle_Qle, !inject_Z_mult in Hj'.
      change (inject_Z 2) with 2 in Hj'.
      assert (H53 : 2 <= inject_Z (2 ^ 53)).
      { change 2 with (inject_Z 2). rewrite <- Zle_Qle. lia. }
      set (P := inject_Z (2 ^ 53)) in *. set (Dq := inject_Z (2 ^ n)) in *.
      set (J := inject_Z (Z.abs j)) in *. clearbody P Dq J.
      assert (/ P <= 1 # 2).
      { apply Qle_shift_inv_r; lra. }
      assert ((1 # 2) * Dq <= (1 - / P) * Dq) by (apply Qmult_le_compat_r; lra).
      lra.
Qed.

End Fraction.

Section Modulo.

Lemma Qmod_bounds x m : (0 < m)%Z -> 0 <= Qmod x m < inject_Z m.
Proof.
  intros Hm. unfold Qmod.
  assert (Hq : 0 < inject_Z m) by (change 0 with (inject_Z 0); rewrite <- Zlt_Qlt; exact Hm).
  pose proof (Qfloor_frac (x / inject_Z m)) as [H1 H2].
  set (q := inject_Z (Qfloor (x / inject_Z m))) in *. clearbody q.
  assert (E : x == (x / inject_Z m) * inject_Z m) by (field; lra).
  set (y := x / inject_Z m) in *. clearbody y. rewrite E.
  set (M := inject_Z m) in *. clearbody M.
  assert (0 <= (y - q) * M) by (apply Qmult_le_0_compat; lra).
  assert ((y - q) * M < 1 * M) by (apply Qmult_lt_compat_r; lra).
  split; lra.
Qed.

Lemma Qfloor_nonneg q : 0 <= q -> (0 <= Qfloor q)%Z.
Proof.
  intros H. rewrite <- (Qfloor_Z 0). apply Qfloor_resp_le. exact H.
Qed.

Lemma Qmod_le x m : (0 < m)%Z -> 0 <= x -> Qmod x m <= x.
Proof.
  intros Hm Hx. unfold Qmod.
  assert (Hq : 0 < inject_Z m) by (change 0 with (inject_Z 0); rewrite <- Zlt_Qlt; exact Hm).
  assert (H : (0 <= Qfloor (x / inject_Z m))%Z).
  { apply Qfloor_nonneg. apply Qle_shift_div_l; lra. }
  rewrite Zle_Qle in H. change (inject_Z 0) with 0 in H.
  set (q := inject_Z (Qfloor (x / inject_Z m))) in *. clearbody q.
  assert (0 <= inject_Z m * q) by (apply Qmult_le_0_compat; lra). lra.
Qed.

Lemma Qmod_decompose k D m :
  (0 < D)%Z -> (0 < m)%Z ->
  Qmod (inject_Z k / inject_Z D) m == inject_Z (k mod (m * D)) / inject_Z D.
Proof.
  intros HD Hm. unfold Qmod.
  assert (HDq : 0 < inject_Z D) by (change 0 with (inject_Z 0); rewrite <- Zlt_Qlt; exact HD).
  assert (Hmq : 0 < inject_Z m) by (change 0 with (inject_Z 0); rewrite <- Zlt_Qlt; exact Hm).
  assert (E : inject_Z k / inject_Z D / inject_Z m == inject_Z k / inject_Z (m * D)).
  { rewrite inject_Z_mult. field. lra. }
  rewrite (Qfloor_comp _ _ E), Qfloor_div_Z by lia.
  rewrite (Z.mod_eq k (m * D)) by lia.
  unfold Z.sub. rewrite inject_Z_plus, inject_Z_opp, !inject_Z_mult. field. lra.
Qed.

Lemma Qmod_comp x x' m : x == x' -> Qmod x m == Qmod x' m.
Proof.
  intros E. unfold Qmod.
  assert (E' : x / inject_Z m == x' / inject_Z m) by (rewrite E; reflexivity).
  rewrite (Qfloor_comp _ _ E'), E. reflexivity.
Qed.

Context (x : Q) (m : Z).
Hypothesis Hx : repr x.
Hypothesis Hx0 : 0 <= x.
Hypothesis Hm : (1 <= m <= 2 ^ 53)%Z.

Lemma repr_Qmod : repr (Qmod x m).
Proof.
  destruct (repr_decompose x Hx) as (k & n & Hn & Hk & Hc).
  pose proof (pow2_Z_pos n ltac:(lia)) as HD.
  assert (HDz : (0 < 2 ^ n)%Z) by (apply Z.pow_pos_nonneg; lia).
  assert (Hk0 : (0 <= k)%Z).
  { rewrite Zle_Qle. change (inject_Z 0) with 0.
    assert (E : inject_Z k == x * inject_Z (2 ^ n)) by (rewrite Hk; field; lra).
    rewrite E. apply Qmult_le_0_compat; lra. }
  apply (repr_comp (inject_Z (k mod (m * 2 ^ n)) / inject_Z (2 ^ n))).
  - rewrite <- Qmod_decompose by lia. apply Qmod_comp. symmetry. exact Hk.
  - apply repr_grid; [exact Hn |].
    pose proof (Z.mod_pos_bound k (m * 2 ^ n) ltac:(nia)).
    pose proof (Z.mod_le k (m * 2 ^ n) Hk0 ltac:(nia)).
    destruct Hc as [-> | Hc]; [change (2 ^ 0)%Z with 1%Z in * |]; lia.
Qed.

Lemma Qfloor_div_le : inject_Z m * inject_Z (Qfloor (x / inject_Z m)) <= x.
Proof.
  pose proof (Qmod_bounds x m ltac:(lia)) as [H _]. unfold Qmod in H. lra.
Qed.

Lemma Qfloor_div_nonneg : (0 <= Qfloor (x / inject_Z m))%Z.
Proof.
  apply Qfloor_nonneg. apply Qle_shift_div_l; [| lra].
  change 0 with (inject_Z 0). rewrite <- Zlt_Qlt. lia.
Qed.

Hypothesis Hsmall : x < inject_Z (2 ^ 53).

Lemma floor_div_small : (m * Qfloor (x / inject_Z m) < 2 ^ 53)%Z.
Proof.
  rewrite Zlt_Qlt, inject_Z_mult. pose proof Qfloor_div_le. lra.
Qed.

End Modulo.

Section Operators.

Lemma float_of_int_repr z :
  repr (inject_Z z) -> float_of_int z = Ok (Finite (inject_Z z)).
Proof.
  intros H. unfold float_of_int, of_Z.
  rewrite (round_repr (inject_Z z) (inject_Z z) (Qeq_refl _) H), inject_Z_Qred.
  reflexivity.
Qed.

Lemma float_of_int_small z :
  (Z.abs z <= 2 ^ 53)%Z -> float_of_int z = Ok (Finite (inject_Z z)).
Proof. intros H. apply float_of_int_repr, repr_Z, H. Qed.

Lemma Qeq_bool_inject_Z_0 m : (0 < m)%Z -> Qeq_bool (inject_Z m) 0 = false.
Proof.
  intros H. apply Qeq_bool_false. intros E.
  assert (0 < inject_Z m) by (change 0 with (inject_Z 0); rewrite <- Zlt_Qlt; exact H).
  lra.
Qed.

Lemma inject_Z_eq_0 z : inject_Z z == 0 -> z = 0%Z.
Proof. unfold Qeq. cbn. lia. Qed.

Lemma Qle_bool_true a b : a <= b -> Qle_bool a b = true.
Proof. apply Qle_bool_iff. Qed.

Lemma Qle_bool_false a b : b < a -> Qle_bool a b = false.
Proof.
  intros H. destruct (Qle_bool a b) eqn:E; [| reflexivity].
  apply Qle_bool_iff in E. lra.
Qed.

(** [fmod] on a non-negative float. *)
Lemma fmod_nonneg x m :
  0 <= x -> (0 < m)%Z ->
  fmod (Finite x) (Finite (inject_Z m)) = Finite (Qred (Qmod x m)).
Proof.
  intros Hx Hm. unfold fmod. rewrite Qeq_bool_inject_Z_0 by exact Hm.
  rewrite Qtrunc_nonneg; [reflexivity |].
  apply Qle_shift_div_l; [| lra].
  change 0 with (inject_Z 0). rewrite <- Zlt_Qlt. exact Hm.
Qed.

Lemma nonzero_Qred_zero q : nonzero (Finite (Qred q)) = false -> Qred q = 0.
Proof.
  cbn. rewrite negb_false_iff. intros H. apply Qeq_bool_eq in H.
  rewrite <- Qcanon.Qred_involutive. apply (Qred_complete _ 0 H).
Qed.

Lemma flt_zero_nonneg q : 0 <= q -> flt (Finite q) zero = false.
Proof. intros H. cbn. rewrite Qle_bool_true by exact H. reflexivity. Qed.

Lemma float_rem_nonneg x m :
  0 <= x -> (1 <= m <= 2 ^ 53)%Z ->
  float_rem (Finite x) m = Ok (Finite (Qred (Qmod x m))).
Proof.
  intros Hx Hm. unfold float_rem.
  rewrite float_of_int_small by lia. cbn [mbind result_bind].
  assert (Hnz : nonzero (Finite (inject_Z m)) = true).
  { cbn. rewrite Qeq_bool_inject_Z_0 by lia. reflexivity. }
  rewrite Hnz, fmod_nonneg by (exact Hx || lia).
  pose proof (Qmod_bounds x m ltac:(lia)) as [Hb _].
  destruct (nonzero (Finite (Qred (Qmod x m)))) eqn:En.
  - rewrite (flt_zero_nonneg (inject_Z m)), (flt_zero_nonneg (Qred (Qmod x m))).
    + reflexivity.
    + rewrite Qred_correct. exact Hb.
    + change 0 with (inject_Z 0). rewrite <- Zle_Qle. lia.
  - rewrite (nonzero_Qred_zero _ En). reflexivity.
Qed.

(** Floor division of a float below [2^53] by a positive integer is the
    floor of the real quotient. *)
Lemma float_div_mod_exact x m :
  repr x -> 0 <= x -> x < inject_Z (2 ^ 53) -> (1 <= m <= 2 ^ 53)%Z ->
  float_div_mod (Finite x) (Finite (inject_Z m))
  = (Finite (inject_Z (Qfloor (x / inject_Z m))), Finite (Qred (Qmod x m))).
Proof.
  intros Hx Hx0 Hs Hm. unfold float_div_mod.
  rewrite fmod_nonneg by (exact Hx0 || lia).
  pose proof (Qmod_bounds x m ltac:(lia)) as [Hb _].
  pose proof (Qfloor_div_nonneg x m Hx0 Hm) as Hq0.
  pose proof (floor_div_small x m Hm Hs) as Hq1.
  set (q := Qfloor (x / inject_Z m)) in *.
  assert (Hmq : 0 < inject_Z m) by (change 0 with (inject_Z 0); rewrite <- Zlt_Qlt; lia).
  assert (E1 : fsub (Finite x) (Finite (Qred (Qmod x m))) = Finite (inject_Z (m * q))).
  { unfold fsub, fneg, fadd. rewrite <- inject_Z_Qred. apply round_repr.
    - rewrite Qred_correct. unfold Qmod. fold q. rewrite inject_Z_mult. ring.
    - apply repr_Z. nia. }
  rewrite E1.
  assert (E2 : fdiv (Finite (inject_Z (m * q))) (Finite (inject_Z m)) = Finite (inject_Z q)).
  { unfold fdiv. rewrite Qeq_bool_inject_Z_0 by lia.
    rewrite <- (inject_Z_Qred q). apply round_repr.
    - rewrite inject_Z_mult. field. lra.
    - apply repr_Z. nia. }
  rewrite E2.
  assert (E3 : (if nonzero (Finite (Qred (Qmod x m)))
                then if negb (Bool.eqb (flt (Finite (inject_Z m)) zero)
                                       (flt (Finite (Qred (Qmod x m))) zero))
                     then (fadd (Finite (Qred (Qmod x m))) (Finite (inject_Z m)),
                           fsub (Finite (inject_Z q)) one)
                     else (Finite (Qred (Qmod x m)), Finite (inject_Z q))
                else (zero, Finite (inject_Z q)))
               = (Finite (Qred (Qmod x m)), Finite (inject_Z q))).
  { destruct (nonzero (Finite (Qred (Qmod x m)))) eqn:En.
    - rewrite (flt_zero_nonneg (inject_Z m)), (flt_zero_nonneg (Qred (Qmod x m))).
      + reflexivity.
      + rewrite Qred_correct. exact Hb.
      + lra.
    - rewrite (nonzero_Qred_zero _ En). reflexivity. }
  rewrite E3. f_equal.
  destruct (nonzero (Finite (inject_Z q))) eqn:En.
  - cbn [ffloor]. rewrite Qfloor_Z.
    assert (E4 : fsub (Finite (inject_Z q)) (Finite (inject_Z q)) = Finite 0).
    { unfold fsub, fneg, fadd. change 0 with (Qred 0). apply round_repr; [ring | apply repr_0]. }
    rewrite E4. reflexivity.
  - unfold nonzero in En. rewrite negb_false_iff in En. apply Qeq_bool_eq in En.
    apply inject_Z_eq_0 in En. rewrite En. reflexivity.
Qed.

Lemma float_floordiv_exact x m :
  repr x -> 0 <= x -> x < inject_Z (2 ^ 53) -> (1 <= m <= 2 ^ 53)%Z ->
  float_floordiv (Finite x) m = Ok (Finite (inject_Z (Qfloor (x / inject_Z m)))).
Proof.
  intros Hx Hx0 Hs Hm. unfold float_floordiv.
  rewrite float_of_int_small by lia. cbn [mbind result_bind].
  assert (Hnz : nonzero (Finite (inject_Z m)) = true).
  { cbn. rewrite Qeq_bool_inject_Z_0 by lia. reflexivity. }
  rewrite Hnz, float_div_mod_exact by assumption. reflexivity.
Qed.

End Operators.

Section Totality.

Lemma inject_Z_pos m : (0 < m)%Z -> 0 < inject_Z m.
Proof. intros H. change 0 with (inject_Z 0). rewrite <- Zlt_Qlt. exact H. Qed.

Lemma trunc_div_nonneg x w :
  0 < w -> 0 <= x ->
  0 <= w * inject_Z (Qtrunc (x / w)) <= x /\ x - w * inject_Z (Qtrunc (x / w)) < w.
Proof.
  intros Hw Hx.
  assert (Hq : 0 <= x / w) by (apply Qle_shift_div_l; lra).
  rewrite Qtrunc_nonneg by exact Hq.
  pose proof (Qfloor_frac (x / w)) as [H1 H2].
  pose proof (Qfloor_nonneg _ Hq) as H0. rewrite Zle_Qle in H0.
  change (inject_Z 0) with 0 in H0.
  set (T := inject_Z (Qfloor (x / w))) in *. clearbody T.
  assert (E : x == (x / w) * w) by (field; lra).
  set (y := x / w) in *. clearbody y.
  assert (0 <= w * T) by (apply Qmult_le_0_compat; lra).
  assert (0 <= (y - T) * w) by (apply Qmult_le_0_compat; lra).
  assert ((y - T) * w < 1 * w) by (apply Qmult_lt_compat_r; lra).
  lra.
Qed.

Lemma trunc_div_nonpos x w :
  0 < w -> x <= 0 ->
  x <= w * inject_Z (Qtrunc (x / w)) <= 0 /\ - w < x - w * inject_Z (Qtrunc (x / w)).
Proof.
  intros Hw Hx.
  destruct (trunc_div_nonneg (- x) w Hw ltac:(lra)) as [H1 H2].
  assert (E : - x / w == - (x / w)) by (field; lra).
  rewrite (Qtrunc_comp _ _ E), Qtrunc_opp, inject_Z_opp in H1, H2. lra.
Qed.

Lemma repr_1 : repr 1.
Proof. apply (repr_Z 1). lia. Qed.

Lemma repr_neg_pow2 e : (-1074 <= e <= 1023)%Z -> repr (- two ^ e).
Proof. intros H. apply repr_opp, repr_pow2, H. Qed.

Lemma fsub_finite a b : fsub (Finite a) (Finite b) = round (a + - b).
Proof. reflexivity. Qed.

Lemma fadd_finite a b : fadd (Finite a) (Finite b) = round (a + b).
Proof. reflexivity. Qed.

(** The last step of [float_div_mod]: snapping the quotient to an integer. *)
Lemma snap_finite d :
  - two ^ 1023 <= d <= two ^ 1022 ->
  exists f,
    (if nonzero (Finite d)
     then if flt half (fsub (Finite d) (ffloor (Finite d)))
          then fadd (ffloor (Finite d)) (Finite 1)
          else ffloor (Finite d)
     else zero) = Finite f
    /\ (0 <= d -> 0 <= f).
Proof.
  intros [Hlo Hhi].
  destruct (nonzero (Finite d)); [| exists 0; split; [reflexivity | intros; lra]].
  cbn [ffloor]. pose proof (Qfloor_frac d) as [F1 F2].
  assert (Hfl : - two ^ 1023 <= inject_Z (Qfloor d)).
  { rewrite (pow2_Z 1023), <- inject_Z_opp, <- Zle_Qle by lia.
    rewrite <- (Qfloor_Z (- 2 ^ 1023)). apply Qfloor_resp_le.
    rewrite inject_Z_opp, <- pow2_Z by lia. exact Hlo. }
  assert (Hfl0 : 0 <= d -> 0 <= inject_Z (Qfloor d)).
  { intros H. change 0 with (inject_Z 0). rewrite <- Zle_Qle. apply Qfloor_nonneg, H. }
  set (fl := inject_Z (Qfloor d)) in *. clearbody fl.
  rewrite fsub_finite.
  destruct (round_between (d + - fl) 0 1 repr_0 repr_1 ltac:(lra)) as (r & -> & _ & _).
  destruct (flt half (Finite r)).
  - rewrite fadd_finite.
    assert (H23 : two ^ 1023 == 2 * two ^ 1022) by (rewrite <- pow2_succ; reflexivity).
    pose proof (pow2_le 0 1022 ltac:(lia)) as H1. change (two ^ 0) with 1 in H1.
    destruct (Qlt_le_dec d 0) as [Hn | Hp].
    + destruct (round_between (fl + 1) (- two ^ 1023) 1
                  (repr_neg_pow2 1023 ltac:(lia)) repr_1 ltac:(lra))
        as (f & -> & _ & _).
      exists f. split; [reflexivity | intros; lra].
    + destruct (round_between (fl + 1) 0 (two ^ 1023)
                  repr_0 (repr_pow2 1023 ltac:(lia)) ltac:(specialize (Hfl0 Hp); lra))
        as (f & -> & _ & Hf).
      exists f. split; [reflexivity | intros; lra].
  - exists fl. split; [reflexivity | exact Hfl0].
Qed.

Lemma float_div_mod_finite x m :
  repr x -> (4 <= m <= 2 ^ 53)%Z ->
  exists d r,
    float_div_mod (Finite x) (Finite (inject_Z m)) = (Finite d, Finite r)
    /\ (0 <= x -> 0 <= d).
Proof.
  intros Hx Hm. unfold float_div_mod, fmod, one.
  pose proof (Qeq_bool_inject_Z_0 m ltac:(lia)) as Hwz. rewrite Hwz.
  pose proof (inject_Z_pos m ltac:(lia)) as Hw.
  assert (Hw4 : 4 <= inject_Z m) by (change 4 with (inject_Z 4); rewrite <- Zle_Qle; lia).
  set (w := inject_Z m) in *.
  set (T := inject_Z (Qtrunc (x / w))).
  pose proof (Qred_correct (x - w * T)) as Hr0.
  set (r0 := Qred (x - w * T)) in *.
  assert (Hxb : - two ^ 1024 < x < two ^ 1024).
  { destruct Hx as [_ Hb]. apply Qabs_Qlt_condition in Hb. exact Hb. }
  assert (H24 : two ^ 1024 == 4 * two ^ 1022).
  { change 1024%Z with (1 + 1 + 1022)%Z. rewrite !pow2_add. change (two ^ 1) with 2. ring. }
  assert (H23 : two ^ 1023 == 2 * two ^ 1022) by (rewrite <- pow2_succ; reflexivity).
  pose proof (pow2_le 0 1022 ltac:(lia)) as H1. change (two ^ 0) with 1 in H1.
  rewrite fsub_finite.
  destruct (Qlt_le_dec x 0) as [Hn | Hp].
  - destruct (trunc_div_nonpos x w Hw ltac:(lra)) as [B1 B2]. fold T in B1, B2.
    destruct (round_between (x + - r0) x 0 Hx repr_0 ltac:(lra)) as (t & -> & _ & Ht).
    unfold fdiv. rewrite Hwz.
    assert (Hd : - two ^ 1022 <= t / w <= 0).
    { split.
      - apply Qle_shift_div_l; [exact Hw |].
        assert (two ^ 1022 * 4 <= two ^ 1022 * w) by (apply Qmult_le_l; lra). lra.
      - apply Qle_shift_div_r; [exact Hw |]. lra. }
    destruct (round_between (t / w) (- two ^ 1022) 0
                (repr_neg_pow2 1022 ltac:(lia)) repr_0 Hd) as (d0 & -> & _ & Hd0).
    destruct (nonzero (Finite r0)) eqn:En.
    + assert (Hr0n : r0 < 0).
      { unfold nonzero in En. rewrite negb_true_iff in En. apply Qeq_bool_neq in En.
        destruct (Qlt_le_dec r0 0); [assumption | exfalso; apply En; lra]. }
      rewrite (flt_zero_nonneg w) by lra.
      assert (Hf : flt (Finite r0) zero = true).
      { cbn. rewrite Qle_bool_false by exact Hr0n. reflexivity. }
      rewrite Hf. cbn [Bool.eqb negb]. rewrite fadd_finite, fsub_finite.
      destruct (round_between (r0 + w) 0 w repr_0 (repr_Z m ltac:(lia)) ltac:(lra))
        as (r & -> & _ & _).
      destruct (round_between (d0 + - (1)) (- two ^ 1023) 0
                  (repr_neg_pow2 1023 ltac:(lia)) repr_0 ltac:(lra))
        as (d & -> & _ & Hdd).
      cbv beta iota zeta.
      destruct (snap_finite d ltac:(lra)) as (f & -> & _).
      exists f, r. split; [reflexivity | intros; lra].
    + cbv beta iota zeta.
      destruct (snap_finite d0 ltac:(lra)) as (f & -> & _).
      exists f, 0. split; [reflexivity | intros; lra].
  - destruct (trunc_div_nonneg x w Hw Hp) as [B1 B2]. fold T in B1, B2.
    destruct (round_between (x + - r0) 0 x repr_0 Hx ltac:(lra)) as (t & -> & _ & Ht).
    unfold fdiv. rewrite Hwz.
    assert (Hd : 0 <= t / w <= two ^ 1022).
    { split.
      - apply Qle_shift_div_l; [exact Hw |]. lra.
      - apply Qle_shift_div_r; [exact Hw |].
        assert (two ^ 1022 * 4 <= two ^ 1022 * w) by (apply Qmult_le_l; lra). lra. }
    destruct (round_between (t / w) 0 (two ^ 1022)
                repr_0 (repr_pow2 1022 ltac:(lia)) Hd) as (d0 & -> & _ & Hd0).
    assert (Hsame : (if nonzero (Finite r0)
                     then if negb (Bool.eqb (flt (Finite w) zero) (flt (Finite r0) zero))
                          then (fadd (Finite r0) (Finite w), fsub (Finite d0) (Finite 1))
                          else (Finite r0, Finite d0)
                     else (zero, Finite d0))
                    = (if nonzero (Finite r0) then Finite r0 else zero, Finite d0)).
    { destruct (nonzero (Finite r0)); [| reflexivity].
      rewrite (flt_zero_nonneg w), (flt_zero_nonneg r0) by lra. reflexivity. }
    rewrite Hsame. cbv beta iota zeta.
    destruct (snap_finite d0 ltac:(lra)) as (f & -> & Hf).
    destruct (nonzero (Finite r0)).
    + exists f, r0. split; [reflexivity | intros; apply Hf; lra].
    + exists f, 0. split; [reflexivity | intros; apply Hf; lra].
Qed.

Lemma float_floordiv_finite x m :
  repr x -> (4 <= m <= 2 ^ 53)%Z ->
  exists d, float_floordiv (Finite x) m = Ok (Finite d) /\ (0 <= x -> 0 <= d).
Proof.
  intros Hx Hm. unfold float_floordiv.
  rewrite float_of_int_small by lia. cbn [mbind result_bind].
  assert (Hnz : nonzero (Finite (inject_Z m)) = true).
  { cbn. rewrite Qeq_bool_inject_Z_0 by lia. reflexivity. }
  rewrite Hnz.
  destruct (float_div_mod_finite x m Hx Hm) as (d & r & -> & Hd).
  exists d. split; [reflexivity | exact Hd].
Qed.

(** [x % m] is a float of [0 .. m] whatever the sign of [x]. *)
Lemma float_rem_finite x m :
  repr x -> (1 <= m <= 2 ^ 53)%Z ->
  exists r, float_rem (Finite x) m = Ok (Finite r) /\ repr r /\ 0 <= r <= inject_Z m.
Proof.
  intros Hx Hm.
  pose proof (inject_Z_pos m ltac:(lia)) as Hw.
  destruct (Qlt_le_dec x 0) as [Hn | Hp].
  - unfold float_rem. rewrite float_of_int_small by lia. cbn [mbind result_bind].
    assert (Hnz : nonzero (Finite (inject_Z m)) = true).
    { cbn. rewrite Qeq_bool_inject_Z_0 by lia. reflexivity. }
    rewrite Hnz. unfold fmod. rewrite Qeq_bool_inject_Z_0 by lia.
    destruct (trunc_div_nonpos x (inject_Z m) Hw ltac:(lra)) as [B1 B2].
    set (T := inject_Z (Qtrunc (x / inject_Z m))) in *.
    pose proof (Qred_correct (x - inject_Z m * T)) as Hr0.
    set (r0 := Qred (x - inject_Z m * T)) in *.
    destruct (nonzero (Finite r0)) eqn:En.
    + assert (Hr0n : r0 < 0).
      { unfold nonzero in En. rewrite negb_true_iff in En. apply Qeq_bool_neq in En.
        destruct (Qlt_le_dec r0 0); [assumption | exfalso; apply En; lra]. }
      rewrite (flt_zero_nonneg (inject_Z m)) by lra.
      assert (Hf : flt (Finite r0) zero = true).
      { cbn. rewrite Qle_bool_false by exact Hr0n. reflexivity. }
      rewrite Hf. cbn [Bool.eqb negb]. rewrite fadd_finite.
      destruct (round_between (r0 + inject_Z m) 0 (inject_Z m) repr_0
                  (repr_Z m ltac:(lia)) ltac:(lra)) as (r & -> & Hr & Hb).
      exists r. split; [reflexivity | split; assumption].
    + exists 0. split; [reflexivity | split; [apply repr_0 | lra]].
  - rewrite float_rem_nonneg by assumption.
    exists (Qred (Qmod x m)). split; [reflexivity |].
    pose proof (Qmod_bounds x m ltac:(lia)).
    split; [apply repr_Qred, repr_Qmod; assumption | rewrite Qred_correct; lra].
Qed.

End Totality.

End OperatorFacts.

Section Formatting.

Lemma below_forall (P : Z -> Prop) (b : nat) :
  Forall (fun k => P (Z.of_nat k)) (seq 0 b) ->
  forall n, (0 <= n < Z.of_nat b)%Z -> P n.
Proof.
  intros H n Hn. rewrite Forall_forall in H.
  rewrite <- (Z2Nat.id n) by lia. apply H.
  apply list_elem_of_In, in_seq. lia.
Qed.

Lemma format_d_2 n :
  (0 <= n < 100)%Z ->
  format_d 2 n = [Z.to_N (48 + n / 10); Z.to_N (48 + n mod 10)].
Proof.
  revert n. apply (below_forall _ 100).
  apply (bool_decide_unpack _). vm_compute. reflexivity.
Qed.

Lemma format_d_3 n :
  (0 <= n < 1000)%Z ->
  format_d 3 n
  = [Z.to_N (48 + n / 100); Z.to_N (48 + (n / 10) mod 10); Z.to_N (48 + n mod 10)].
Proof.
  revert n. apply (below_forall _ 1000).
  apply (bool_decide_unpack _). vm_compute. reflexivity.
Qed.

End Formatting.

Section Decimal.

Lemma lit_length s : length (lit s) = String.length s.
Proof.
  unfold lit. rewrite length_map. induction s; cbn; [reflexivity | f_equal; assumption].
Qed.

Lemma string_of_lit s : string_of_list_ascii (map ascii_of_N (lit s)) = s.
Proof.
  unfold lit. rewrite map_map.
  rewrite (map_ext _ (fun a => a)), map_id by (intros; apply ascii_N_embedding).
  apply string_of_list_ascii_of_string.
Qed.

Lemma uint_digits d : forallb is_digit (lit (NilEmpty.string_of_uint d)) = true.
Proof. induction d; cbn; [reflexivity | ..]; exact IHd. Qed.

Lemma uint_nonempty d : d <> Nil -> (1 <= length (lit (NilEmpty.string_of_uint d)))%nat.
Proof. destruct d; [congruence | ..]; intros _; cbn; lia. Qed.

Lemma to_uint_nonnil n : N.to_uint n <> Nil.
Proof. destruct n; [discriminate | apply Unsigned.to_uint_nonnil]. Qed.

Lemma sign_nonneg n : (0 <= n)%Z -> sign n = [].
Proof. intros H. unfold sign. destruct (Z.ltb_spec n 0); [lia | reflexivity]. Qed.

Lemma digits_length n : (1 <= length (digits n))%nat.
Proof. apply uint_nonempty, to_uint_nonnil. Qed.

Lemma digits_are_digits n : forallb is_digit (digits n) = true.
Proof. apply uint_digits. Qed.

Lemma value_zeros k d :
  decimal_value (repeat 48%N k ++ lit (NilEmpty.string_of_uint d))
  = Some (Z.of_N (N.of_uint d)).
Proof.
  unfold decimal_value. induction k as [| k IH].
  - cbn [repeat app]. rewrite string_of_lit, NilEmpty.usu. reflexivity.
  - cbn [repeat app map string_of_list_ascii NilEmpty.uint_of_string].
    destruct (NilEmpty.uint_of_string _) as [u |]; [| discriminate].
    cbn in IH |- *. exact IH.
Qed.

Lemma value_digits n : (0 <= n)%Z -> decimal_value (digits n) = Some n.
Proof.
  intros H. unfold digits.
  pose proof (value_zeros 0 (N.to_uint (Z.abs_N n))) as E.
  cbn [repeat app] in E. rewrite E, DecimalN.Unsigned.of_to.
  f_equal. lia.
Qed.

(** A non-negative integer under [0<w>d]: at least [w] digits, the
    decimal digits of the number, none dropped. *)
Lemma format_d_nonneg w n :
  (0 <= n)%Z ->
  (w <= length (format_d w n))%nat
  /\ forallb is_digit (format_d w n) = true
  /\ decimal_value (format_d w n) = Some n.
Proof.
  intros H. unfold format_d. rewrite sign_nonneg by exact H. cbn [app length].
  split; [| split].
  - rewrite length_app, repeat_length. lia.
  - rewrite forallb_app, digits_are_digits, andb_true_r.
    induction (w - 0 - length (digits n))%nat; [reflexivity | assumption].
  - unfold digits. rewrite value_zeros, DecimalN.Unsigned.of_to. f_equal. lia.
Qed.

Lemma digits_length_100 n : (100 <= n)%Z -> (3 <= length (digits n))%nat.
Proof.
  intros H.
  destruct (le_lt_dec 3 (length (digits n))) as [Hle | Hlt]; [exact Hle | exfalso].
  pose proof (value_digits n ltac:(lia)) as Hv.
  pose proof (digits_are_digits n) as Hd.
  pose proof (digits_length n) as Hl.
  destruct (digits n) as [| a [| b [| c l]]]; cbn in Hl, Hlt; try lia.
  - cbn in Hd. rewrite andb_true_r in Hd. unfold is_digit in Hd.
    apply andb_true_iff in Hd as [H1 H2].
    apply N.leb_le in H1, H2.
    assert (Ha : (a = 48 \/ a = 49 \/ a = 50 \/ a = 51 \/ a = 52 \/ a = 53
                  \/ a = 54 \/ a = 55 \/ a = 56 \/ a = 57)%N) by lia.
    destruct Ha as [-> | [-> | [-> | [-> | [-> | [-> | [-> | [-> | [-> | ->]]]]]]]]];
      vm_compute in Hv; injection Hv as <-; lia.
  - cbn in Hd. rewrite andb_true_r in Hd. unfold is_digit in Hd.
    apply andb_true_iff in Hd as [Ha Hb].
    apply andb_true_iff in Ha as [H1 H2]. apply andb_true_iff in Hb as [H3 H4].
    apply N.leb_le in H1, H2, H3, H4.
    assert (Hn : (0 <= n < 100)%Z -> False) by lia.
    apply Hn. clear Hn H.
    assert (Ha : exists i j, (i < 10)%nat /\ (j < 10)%nat /\ a = N.of_nat (48 + i)
                             /\ b = N.of_nat (48 + j)).
    { exists (N.to_nat a - 48)%nat, (N.to_nat b - 48)%nat. lia. }
    destruct Ha as (i & j & Hi & Hj & -> & ->).
    clear H1 H2 H3 H4.
    assert (Hall : Forall (fun i => Forall (fun j =>
               forall v, decimal_value [N.of_nat (48 + i); N.of_nat (48 + j)] = Some v ->
                         (0 <= v < 100)%Z) (seq 0 10)) (seq 0 10)).
    { repeat (constructor; [repeat (constructor;
        [intros v Hvv; vm_compute in Hvv; injection Hvv as <-; lia |]); constructor |]).
      constructor. }
    rewrite Forall_forall in Hall. specialize (Hall i ltac:(apply list_elem_of_In, in_seq; lia)).
    rewrite Forall_forall in Hall. specialize (Hall j ltac:(apply list_elem_of_In, in_seq; lia)).
    exact (Hall n Hv).
Qed.

(** Past 99 the number is written in full: nothing is padded or cut. *)
Lemma format_d_2_large n : (100 <= n)%Z -> format_d 2 n = str_of_int n.
Proof.
  intros H. unfold format_d, str_of_int. rewrite sign_nonneg by lia.
  pose proof (digits_length_100 n H).
  replace (2 - length [] - length (digits n))%nat with 0%nat by (cbn; lia).
  reflexivity.
Qed.

End Decimal.

Section Timestamp.
Local Open Scope Q_scope.

Lemma float_sub_int_frac x :
  repr x ->
  float_sub_int (Finite x) (Qtrunc x) = Ok (Finite (Qred (x - inject_Z (Qtrunc x)))).
Proof.
  intros Hx. unfold float_sub_int.
  rewrite float_of_int_repr by (apply repr_trunc, Hx). cbn [mbind result_bind].
  f_equal. rewrite fsub_finite. apply round_repr; [reflexivity |].
  apply repr_frac, Hx.
Qed.

Lemma repr_1000 : repr 1000.
Proof. apply (repr_Z 1000). lia. Qed.

Lemma float_mul_int_1000 f :
  Qabs f <= 1 ->
  float_mul_int (Finite f) 1000 = Ok (Finite (rnd (f * 1000))).
Proof.
  intros Hf. unfold float_mul_int.
  rewrite float_of_int_small by lia. cbn [mbind result_bind fmul].
  f_equal. apply round_finite.
  apply Qabs_Qle_condition in Hf.
  pose proof (rnd_mono (- (1000)) (f * 1000) ltac:(lra)) as H1.
  pose proof (rnd_mono (f * 1000) 1000 ltac:(lra)) as H2.
  destruct repr_1000 as [E _]. rewrite E in H2.
  rewrite rnd_opp, E in H1.
  apply Qabs_Qlt_condition.
  assert (1000 < huge) by (vm_compute; reflexivity). lra.
Qed.

Lemma rnd_millis_bound f :
  0 <= f <= 1 - two ^ (-53) -> 0 <= rnd (f * 1000) < 1000.
Proof.
  intros [H0 H1]. split.
  - apply rnd_nonneg. lra.
  - apply Qle_lt_trans with (rnd ((1 - two ^ (-53)) * 1000)).
    + apply rnd_mono. lra.
    + vm_compute. reflexivity.
Qed.

(** What [format_timestamp] computes on a finite float of any sign. *)
Lemma timestamp_fields_total x :
  repr x ->
  exists hours minutes secs milliseconds,
    timestamp_fields (VFloat (Finite x)) = Ok (hours, minutes, secs, milliseconds).
Proof.
  intros Hx. unfold timestamp_fields.
  destruct (float_floordiv_finite x 3600 Hx ltac:(lia)) as (d & -> & _).
  cbn [mbind result_bind int_of_float].
  destruct (float_rem_finite x 3600 Hx ltac:(lia)) as (r & -> & Hr & Hrb).
  cbn [mbind result_bind].
  rewrite (float_floordiv_exact r 60 Hr) by (lia || lra || (change (inject_Z 3600) with 3600 in Hrb;
    assert (3600 < inject_Z (2 ^ 53)) by (vm_compute; reflexivity); lra)).
  cbn [mbind result_bind int_of_float].
  destruct (float_rem_finite x 60 Hx ltac:(lia)) as (r' & -> & _ & _).
  cbn [mbind result_bind int_of_float].
  rewrite (float_sub_int_frac x Hx). cbn [mbind result_bind].
  rewrite float_mul_int_1000.
  - cbn [mbind result_bind int_of_float]. eexists _, _, _, _. reflexivity.
  - rewrite (Qabs_wd _ _ (Qred_correct _)).
    destruct (repr_frac x Hx) as [_ H]. pose proof (pow2_pos (-53)). lra.
Qed.

Lemma format_timestamp_fields v h m s ms :
  timestamp_fields v = Ok (h, m, s, ms) ->
  format_timestamp v = Ok (timecode h m s ms).
Proof. intros H. unfold format_timestamp. rewrite H. reflexivity. Qed.

Lemma format_timestamp_total x :
  repr x ->
  exists hours minutes secs milliseconds,
    format_timestamp (VFloat (Finite x))
    = Ok (timecode hours minutes secs milliseconds).
Proof.
  intros Hx. destruct (timestamp_fields_total x Hx) as (h & m & s & ms & H).
  exists h, m, s, ms. apply format_timestamp_fields, H.
Qed.

Lemma frac_nonneg x :
  0 <= x -> x - inject_Z (Qtrunc x) == x - inject_Z (Qfloor x)
            /\ 0 <= x - inject_Z (Qfloor x).
Proof.
  intros H. rewrite Qtrunc_nonneg by exact H.
  split; [reflexivity | apply Qfloor_frac].
Qed.

(** On a non-negative float every field is a floor: minutes and seconds
    of the real number, milliseconds of the rounded product, and hours
    of the real quotient as long as the float is below [2^53]. *)
Lemma timestamp_fields_nonneg x :
  repr x -> 0 <= x ->
  exists hours,
    timestamp_fields (VFloat (Finite x))
    = Ok (hours,
          Qfloor (Qmod x 3600 / 60),
          Qfloor (Qmod x 60),
          Qfloor (rnd ((x - inject_Z (Qfloor x)) * 1000)))
    /\ (0 <= hours)%Z
    /\ (x < inject_Z (2 ^ 53) -> hours = Qfloor (x / 3600)).
Proof.
  intros Hx Hx0.
  assert (Hrest :
    forall d, (0 <= d) ->
      (hours ← int_of_float (Finite d);
       r ← float_rem (Finite x) 3600;
       q ← float_floordiv r 60;
       minutes ← int_of_float q;
       r ← float_rem (Finite x) 60;
       secs ← int_of_float r;
       whole ← int_of_float (Finite x);
       frac ← float_sub_int (Finite x) whole;
       scaled ← float_mul_int frac 1000;
       milliseconds ← int_of_float scaled;
       Ok (hours, minutes, secs, milliseconds))
      = Ok (Qfloor d,
            Qfloor (Qmod x 3600 / 60),
            Qfloor (Qmod x 60),
            Qfloor (rnd ((x - inject_Z (Qfloor x)) * 1000)))).
  { intros d Hd. cbn [mbind result_bind int_of_float].
    rewrite (float_rem_nonneg x 3600) by (exact Hx0 || lia).
    cbn [mbind result_bind].
    pose proof (Qmod_bounds x 3600 ltac:(lia)) as [Hm1 Hm2].
    change (inject_Z 3600) with 3600 in Hm2.
    rewrite (float_floordiv_exact (Qred (Qmod x 3600)) 60).
    2: apply repr_Qred, repr_Qmod; [exact Hx | exact Hx0 | lia].
    2: rewrite Qred_correct; exact Hm1.
    2: { rewrite Qred_correct.
         assert (3600 < inject_Z (2 ^ 53)) by (vm_compute; reflexivity). lra. }
    2: lia.
    cbn [mbind result_bind int_of_float].
    rewrite (float_rem_nonneg x 60) by (exact Hx0 || lia).
    cbn [mbind result_bind int_of_float].
    rewrite (float_sub_int_frac x Hx). cbn [mbind result_bind].
    destruct (frac_nonneg x Hx0) as [Ef Hf0].
    destruct (repr_frac x Hx) as [_ Hfb].
    rewrite float_mul_int_1000.
    2: { rewrite (Qabs_wd _ _ (Qred_correct _)). pose proof (pow2_pos (-53)). lra. }
    cbn [mbind result_bind int_of_float].
    rewrite Qtrunc_Z, Qtrunc_Qred.
    rewrite (Qtrunc_nonneg d) by exact Hd.
    pose proof (Qmod_bounds x 60 ltac:(lia)) as [Hs1 _].
    rewrite (Qtrunc_nonneg (Qmod x 60)) by exact Hs1.
    assert (E1 : Qred (Qmod x 3600) / inject_Z 60 == Qmod x 3600 / 60).
    { rewrite Qred_correct. reflexivity. }
    rewrite (Qfloor_comp _ _ E1).
    assert (E2 : Qred (x - inject_Z (Qtrunc x)) * 1000
                 == (x - inject_Z (Qfloor x)) * 1000).
    { rewrite Qred_correct, Ef. reflexivity. }
    rewrite (rnd_comp _ _ E2).
    rewrite Qtrunc_nonneg; [reflexivity |].
    apply rnd_nonneg. lra. }
  unfold timestamp_fields.
  destruct (Qlt_le_dec x (inject_Z (2 ^ 53))) as [Hs | Hl].
  - rewrite (float_floordiv_exact x 3600 Hx Hx0 Hs) by lia.
    cbn [mbind result_bind].
    pose proof (Qfloor_div_nonneg x 3600 Hx0 ltac:(lia)) as Hq.
    rewrite Hrest by (rewrite Zle_Qle in Hq; exact Hq).
    rewrite Qfloor_Z.
    exists (Qfloor (x / inject_Z 3600)). split; [reflexivity |].
    split; [exact Hq | reflexivity].
  - destruct (float_floordiv_finite x 3600 Hx ltac:(lia)) as (d & -> & Hd).
    cbn [mbind result_bind].
    rewrite Hrest by (apply Hd, Hx0).
    exists (Qfloor d). split; [reflexivity |].
    split; [apply Qfloor_nonneg, Hd, Hx0 | intros; lra].
Qed.

End Timestamp.

Section Replace.

Lemma separator_eq : separator = [dash; dash; gt].
Proof. reflexivity. Qed.

Lemma replace_from_enough old new n s :
  old <> [] -> (length s <= n)%nat ->
  replace_from n old new s = replace_from (length s) old new s.
Proof.
  intros Hold. revert s.
  induction n as [n IH] using lt_wf_ind. intros s Hn.
  destruct s as [| c rest]; [destruct n; reflexivity |].
  destruct n as [| n]; [cbn [length] in Hn; lia |].
  cbn [replace_from length].
  assert (Hskip : (length (skipn (length old) (c :: rest)) <= length rest)%nat).
  { rewrite length_skipn. destruct old; [congruence | cbn [length]; lia]. }
  destruct (starts_with old (c :: rest)).
  - cbn [length] in Hn. f_equal. rewrite (IH n) by lia.
    symmetry. apply IH; [lia | lia].
  - cbn [length] in Hn. f_equal. apply IH; lia.
Qed.

(** The three equations of [str.replace] for a non-empty [old]. *)
Lemma replace_nil old new : replace old new [] = match old with [] => new | _ => [] end.
Proof. destruct old; [cbn; apply app_nil_r | reflexivity]. Qed.

Lemma replace_hit old new s :
  old <> [] -> s <> [] -> starts_with old s = true ->
  replace old new s = new ++ replace old new (skipn (length old) s).
Proof.
  intros Hold Hs Hp. destruct old as [| o old']; [congruence |].
  destruct s as [| c rest]; [congruence |].
  unfold replace. cbn [length replace_from]. rewrite Hp. f_equal.
  apply replace_from_enough; [discriminate |].
  rewrite length_skipn. cbn. lia.
Qed.

Lemma replace_miss old new c rest :
  old <> [] -> starts_with old (c :: rest) = false ->
  replace old new (c :: rest) = c :: replace old new rest.
Proof.
  intros Hold Hp. destruct old as [| o old']; [congruence |].
  unfold replace. cbn [length replace_from]. rewrite Hp. reflexivity.
Qed.

Lemma rep_nil : rep [] = [].
Proof. reflexivity. Qed.

Lemma rep_hit s : rep (dash :: dash :: gt :: s) = arrow :: rep s.
Proof. unfold rep. rewrite replace_hit by (discriminate || reflexivity). reflexivity. Qed.

Lemma rep_miss c s :
  starts_with separator (c :: s) = false -> rep (c :: s) = c :: rep s.
Proof. apply replace_miss. discriminate. Qed.

Lemma starts_with_separator s :
  starts_with separator s = true -> exists r, s = dash :: dash :: gt :: r.
Proof.
  destruct s as [| a [| b [| c r]]]; cbn; try discriminate.
  - rewrite andb_false_r. discriminate.
  - rewrite !andb_false_r. discriminate.
  - rewrite andb_true_r. intros H.
    apply andb_true_iff in H as [H1 H]. apply andb_true_iff in H as [H2 H3].
    apply N.eqb_eq in H1, H2, H3. subst. exists r. reflexivity.
Qed.

(** How [rep] acts on a string, by cases. *)
Lemma rep_cases s :
  s = [] \/ (exists r, s = dash :: dash :: gt :: r /\ rep s = arrow :: rep r)
  \/ (exists c r, s = c :: r /\ starts_with separator s = false /\ rep s = c :: rep r).
Proof.
  destruct s as [| c r]; [left; reflexivity | right].
  destruct (starts_with separator (c :: r)) eqn:E.
  - left. destruct (starts_with_separator _ E) as [r' ->].
    exists r'. split; [reflexivity | apply rep_hit].
  - right. exists c, r. split; [reflexivity | split; [reflexivity | apply rep_miss, E]].
Qed.

Lemma rep_ind (P : str -> Prop) :
  P [] ->
  (forall r, P r -> P (dash :: dash :: gt :: r)) ->
  (forall c r, starts_with separator (c :: r) = false -> P r -> P (c :: r)) ->
  forall s, P s.
Proof.
  intros H0 H1 H2 s.
  induction s as [s IH] using (induction_ltof1 _ (@length N)). unfold ltof in IH.
  destruct (rep_cases s) as [-> | [(r & -> & _) | (c & r & -> & E & _)]].
  - exact H0.
  - apply H1, IH. cbn. lia.
  - apply H2; [exact E | apply IH; cbn; lia].
Qed.

(** The first code point of the result is the glyph or that of the input. *)
Lemma rep_head s :
  match rep s with
  | [] => s = []
  | c :: _ => c = arrow \/ exists r, s = c :: r /\ starts_with separator s = false
  end.
Proof.
  destruct (rep_cases s) as [-> | [(r & -> & ->) | (c & r & -> & E & ->)]].
  - reflexivity.
  - left. reflexivity.
  - right. exists r. split; [reflexivity | exact E].
Qed.

Lemma rep_no_prefix s : starts_with separator (rep s) = false.
Proof.
  destruct (starts_with separator (rep s)) eqn:E; [exfalso | reflexivity].
  apply starts_with_separator in E as [t Ht].
  destruct (rep_cases s) as [-> | [(r & -> & Hr) | (c & r & -> & E1 & Hr)]].
  - discriminate.
  - rewrite Hr in Ht. discriminate.
  - rewrite Hr in Ht. injection Ht as -> Ht.
    destruct (rep_cases r) as [-> | [(r2 & -> & Hr2) | (c2 & r2 & -> & E2 & Hr2)]].
    + discriminate.
    + rewrite Hr2 in Ht. discriminate.
    + rewrite Hr2 in Ht. injection Ht as -> Ht.
      destruct (rep_cases r2) as [-> | [(r3 & -> & Hr3) | (c3 & r3 & -> & E3 & Hr3)]].
      * discriminate.
      * rewrite Hr3 in Ht. discriminate.
      * rewrite Hr3 in Ht. injection Ht as -> Ht. discriminate.
Qed.

Lemma occurrences_cons p c s :
  occurrences p (c :: s) = ((if starts_with p (c :: s) then 1 else 0) + occurrences p s)%nat.
Proof. reflexivity. Qed.

Lemma starts_with_nil : starts_with separator [] = false.
Proof. reflexivity. Qed.

(** No occurrence of the separator is left, and none is created. *)
Lemma rep_no_occurrence s : occurrences separator (rep s) = 0%nat.
Proof.
  induction s as [| r IH | c r E IH] using rep_ind.
  - reflexivity.
  - rewrite rep_hit, occurrences_cons, IH. reflexivity.
  - pose proof (rep_no_prefix (c :: r)) as Hp.
    rewrite rep_miss in * by exact E.
    rewrite occurrences_cons, Hp, IH. reflexivity.
Qed.

Lemma rep_fixed s : occurrences separator s = 0%nat -> rep s = s.
Proof.
  induction s as [| c r IH]; [reflexivity |].
  rewrite occurrences_cons. intros H.
  destruct (starts_with separator (c :: r)) eqn:E; [discriminate |].
  rewrite rep_miss by exact E. f_equal. apply IH. exact H.
Qed.

Lemma rep_idempotent s : rep (rep s) = rep s.
Proof. apply rep_fixed, rep_no_occurrence. Qed.

Lemma rep_nonempty s : s <> [] -> rep s <> [].
Proof.
  intros H. destruct (rep_cases s) as [-> | [(r & -> & ->) | (c & r & -> & _ & ->)]];
    [congruence | discriminate | discriminate].
Qed.

(** The last code point of the result is the glyph or that of the input. *)
Lemma rep_last s : last (rep s) = Some arrow \/ last (rep s) = last s.
Proof.
  induction s as [| r IH | c r E IH] using rep_ind.
  - right. reflexivity.
  - rewrite rep_hit, !last_cons.
    destruct IH as [-> | ->]; [left; reflexivity |].
    destruct (last r); [right | left]; reflexivity.
  - rewrite rep_miss by exact E. rewrite !last_cons.
    destruct IH as [-> | ->]; [left | right]; reflexivity.
Qed.

End Replace.

Section Strip.

Lemma lstrip_head s : nonspace (head (lstrip s)).
Proof.
  induction s as [| c r IH]; [exact I |].
  cbn [lstrip]. destruct (is_space c) eqn:E; [exact IH | exact E].
Qed.

Lemma lstrip_id s : nonspace (head s) -> lstrip s = s.
Proof. destruct s as [| c r]; [reflexivity |]. cbn. intros ->. reflexivity. Qed.

Lemma lstrip_split s : exists sp, s = sp ++ lstrip s.
Proof.
  induction s as [| c r [sp IH]]; [exists []; reflexivity |].
  cbn [lstrip]. destruct (is_space c).
  - exists (c :: sp). cbn. f_equal. exact IH.
  - exists []. reflexivity.
Qed.

Lemma head_rev (s : str) : head (rev s) = last s.
Proof.
  induction s as [| c r IH]; [reflexivity |].
  cbn [rev]. rewrite last_cons, <- IH.
  destruct (rev r); reflexivity.
Qed.

Lemma last_rev (s : str) : last (rev s) = head s.
Proof. rewrite <- head_rev, rev_involutive. reflexivity. Qed.

Lemma head_app_nonempty (a b : str) : a <> [] -> head (a ++ b) = head a.
Proof. destruct a; [congruence | reflexivity]. Qed.

Lemma strip_trimmed s : trimmed s -> strip s = s.
Proof.
  intros [H1 H2]. unfold strip, rstrip.
  rewrite (lstrip_id s H1), (lstrip_id (rev s)), rev_involutive; [reflexivity |].
  rewrite head_rev. exact H2.
Qed.

Lemma trimmed_strip s : trimmed (strip s).
Proof.
  unfold strip, rstrip. set (u := lstrip s).
  pose proof (lstrip_head s) as Hu. fold u in Hu.
  destruct (lstrip_split (rev u)) as [sp Hsp].
  set (w := lstrip (rev u)) in *.
  split.
  - destruct (rev w) as [| c r] eqn:E; [exact I |].
    assert (Hu' : u = rev w ++ rev sp).
    { rewrite <- rev_app_distr, <- Hsp, rev_involutive. reflexivity. }
    rewrite Hu', E in Hu. exact Hu.
  - rewrite <- head_rev, rev_involutive. apply lstrip_head.
Qed.

Lemma trimmed_rep s : trimmed s -> trimmed (rep s).
Proof.
  intros [H1 H2]. split.
  - pose proof (rep_head s) as H. destruct (rep s) as [| c r]; [exact I |].
    destruct H as [-> | (r' & -> & _)]; [reflexivity | exact H1].
  - destruct (rep_last s) as [-> | ->]; [reflexivity | exact H2].
Qed.

Lemma sanitize_rep s : sanitize s = rep (strip s).
Proof. reflexivity. Qed.

Lemma starts_with_newlines s :
  starts_with separator (s ++ [nl; nl]) = starts_with separator s.
Proof.
  destruct s as [| a [| b [| c r]]]; cbn.
  - reflexivity.
  - rewrite !andb_false_r. reflexivity.
  - rewrite !andb_false_r. reflexivity.
  - reflexivity.
Qed.

Lemma occurrences_newlines s :
  occurrences separator (s ++ [nl; nl]) = occurrences separator s.
Proof.
  induction s as [| c r IH]; [reflexivity |].
  change ((c :: r) ++ [nl; nl]) with (c :: (r ++ [nl; nl])).
  rewrite !occurrences_cons, IH.
  change (c :: (r ++ [nl; nl])) with ((c :: r) ++ [nl; nl]).
  rewrite starts_with_newlines. reflexivity.
Qed.

Lemma sanitize_no_separator s :
  occurrences separator (sanitize s) = 0%nat
  /\ occurrences separator (sanitize s ++ [nl; nl]) = 0%nat.
Proof.
  rewrite occurrences_newlines, sanitize_rep.
  split; apply rep_no_occurrence.
Qed.

End Strip.

Section WriteSrt.

Lemma finite_float_inv v :
  finite_float v = true -> exists q, v = Some (VFloat (Finite q)) /\ repr q.
Proof.
  destruct v as [[[q | |] |] |]; try discriminate.
  cbn. intros H. exists q. split; [reflexivity | apply representable_repr, H].
Qed.

Lemma is_str_inv v : is_str v = true -> exists s, v = Some (VStr s).
Proof. destruct v as [[|s] |]; try discriminate. intros _. exists s. reflexivity. Qed.

(** A valid segment always yields its three writes. *)
Lemma entry_valid i segment :
  valid_segment segment = true ->
  exists tc1 tc2 text,
    segment !! "text"%string = Some (VStr text)
    /\ entry i segment
       = Ok [ str_of_int i ++ [nl];
              tc1 ++ lit " --> " ++ tc2 ++ [nl];
              sanitize text ++ [nl; nl] ].
Proof.
  unfold valid_segment. rewrite !andb_true_iff. intros [[Hs He] Ht].
  apply finite_float_inv in Hs as (qs & Hs & Rs).
  apply finite_float_inv in He as (qe & He & Re).
  apply is_str_inv in Ht as (text & Ht).
  destruct (format_timestamp_total qs Rs) as (h1 & m1 & s1 & ms1 & E1).
  destruct (format_timestamp_total qe Re) as (h2 & m2 & s2 & ms2 & E2).
  exists (timecode h1 m1 s1 ms1), (timecode h2 m2 s2 ms2), text.
  split; [exact Ht |].
  unfold entry, getitem. rewrite Hs, He, Ht. cbn [mbind result_bind].
  rewrite E1. cbn [mbind result_bind]. rewrite E2. reflexivity.
Qed.

(** The loop over a valid prefix: its entries are appended, numbered
    from [i], and the loop goes on with what follows. *)
Lemma write_srt_from_prefix pre :
  Forall (fun s => valid_segment s = true) pre ->
  forall i, exists blocks,
    length blocks = length pre
    /\ (forall k segment, pre !! k = Some segment ->
          exists tc text,
            blocks !! k = Some [ str_of_int (i + Z.of_nat k) ++ [nl]; tc; text ]
            /\ entry (i + Z.of_nat k) segment
               = Ok [ str_of_int (i + Z.of_nat k) ++ [nl]; tc; text ])
    /\ forall rest file,
         write_srt_from i (pre ++ rest) file
         = write_srt_from (i + Z.of_nat (length pre)) rest (file ++ concat blocks).
Proof.
  induction 1 as [| segment pre Hv _ IH]; intros i.
  - exists []. split; [reflexivity |]. split; [intros k s Hk; discriminate |].
    intros rest file. cbn. rewrite Z.add_0_r, app_nil_r. reflexivity.
  - destruct (entry_valid i segment Hv) as (tc1 & tc2 & text & _ & He).
    destruct (IH (i + 1)%Z) as (blocks & Hlen & Hk & Hrun).
    exists ([str_of_int i ++ [nl]; tc1 ++ lit " --> " ++ tc2 ++ [nl];
             sanitize text ++ [nl; nl]] :: blocks).
    split; [cbn; f_equal; exact Hlen |]. split.
    + intros [| k] s Hs.
      * injection Hs as <-. rewrite Z.add_0_r.
        eexists _, _. split; [reflexivity | exact He].
      * destruct (Hk k s Hs) as (tc & tx & Hb & Hen).
        exists tc, tx.
        replace (i + Z.of_nat (S k))%Z with (i + 1 + Z.of_nat k)%Z by lia.
        split; assumption.
    + intros rest file. cbn [app write_srt_from]. rewrite He, Hrun.
      cbn [length concat]. rewrite <- !app_assoc.
      f_equal. lia.
Qed.

End WriteSrt.

Section Order.

Lemma str_compare_refl a : str_compare a a = Eq.
Proof. induction a as [| c r IH]; [reflexivity |]. cbn. rewrite N.compare_refl. exact IH. Qed.

Lemma str_compare_app a a' b b' :
  length a = length a' ->
  str_compare (a ++ b) (a' ++ b')
  = match str_compare a a' with
    | Eq => str_compare b b'
    | c => c
    end.
Proof.
  revert a'. induction a as [| x a IH]; intros [| y a'] H; try discriminate.
  - reflexivity.
  - cbn. destruct (x ?= y)%N; [apply IH; cbn in H; lia | reflexivity | reflexivity].
Qed.

Lemma digit_compare a b :
  (0 <= a)%Z -> (0 <= b)%Z -> (Z.to_N (48 + a) ?= Z.to_N (48 + b))%N = (a ?= b)%Z.
Proof.
  intros Ha Hb. rewrite <- N2Z.inj_compare, !Z2N.id by lia.
  destruct (Z.compare_spec a b), (Z.compare_spec (48 + a) (48 + b)); lia || reflexivity.
Qed.

Lemma format_d_2_compare a b :
  (0 <= a < 100)%Z -> (0 <= b < 100)%Z ->
  str_compare (format_d 2 a) (format_d 2 b) = (a ?= b)%Z.
Proof.
  intros Ha Hb. rewrite !format_d_2 by assumption. cbn [str_compare].
  pose proof (Z.div_mod a 10 ltac:(lia)). pose proof (Z.div_mod b 10 ltac:(lia)).
  pose proof (Z.mod_pos_bound a 10 ltac:(lia)). pose proof (Z.mod_pos_bound b 10 ltac:(lia)).
  assert (0 <= a / 10)%Z by (apply Z.div_pos; lia).
  assert (0 <= b / 10)%Z by (apply Z.div_pos; lia).
  rewrite !digit_compare by lia.
  destruct (Z.compare_spec (a / 10) (b / 10)),
           (Z.compare_spec (a mod 10) (b mod 10)),
           (Z.compare_spec a b); reflexivity || lia.
Qed.

Lemma format_d_3_compare a b :
  (0 <= a < 1000)%Z -> (0 <= b < 1000)%Z ->
  str_compare (format_d 3 a) (format_d 3 b) = (a ?= b)%Z.
Proof.
  intros Ha Hb. rewrite !format_d_3 by assumption. cbn [str_compare].
  pose proof (Z.div_mod a 10 ltac:(lia)). pose proof (Z.div_mod b 10 ltac:(lia)).
  pose proof (Z.mod_pos_bound a 10 ltac:(lia)). pose proof (Z.mod_pos_bound b 10 ltac:(lia)).
  pose proof (Z.div_mod (a / 10) 10 ltac:(lia)). pose proof (Z.div_mod (b / 10) 10 ltac:(lia)).
  pose proof (Z.mod_pos_bound (a / 10) 10 ltac:(lia)).
  pose proof (Z.mod_pos_bound (b / 10) 10 ltac:(lia)).
  assert (Ea : (a / 100 = a / 10 / 10)%Z) by (rewrite Z.div_div by lia; reflexivity).
  assert (Eb : (b / 100 = b / 10 / 10)%Z) by (rewrite Z.div_div by lia; reflexivity).
  rewrite Ea, Eb.
  assert (0 <= a / 10 / 10)%Z by (apply Z.div_pos; [apply Z.div_pos |]; lia).
  assert (0 <= b / 10 / 10)%Z by (apply Z.div_pos; [apply Z.div_pos |]; lia).
  rewrite !digit_compare by lia.
  destruct (Z.compare_spec (a / 10 / 10) (b / 10 / 10)),
           (Z.compare_spec ((a / 10) mod 10) ((b / 10) mod 10)),
           (Z.compare_spec (a mod 10) (b mod 10)),
           (Z.compare_spec a b); reflexivity || lia.
Qed.

Lemma format_d_2_length a : (0 <= a < 100)%Z -> length (format_d 2 a) = 2%nat.
Proof. intros H. rewrite format_d_2 by exact H. reflexivity. Qed.

Lemma format_d_3_length a : (0 <= a < 1000)%Z -> length (format_d 3 a) = 3%nat.
Proof. intros H. rewrite format_d_3 by exact H. reflexivity. Qed.

(** Timecodes of less than a hundred hours compare as their fields do. *)
Lemma timecode_compare h m s ms h' m' s' ms' :
  (0 <= h < 100)%Z -> (0 <= m < 100)%Z -> (0 <= s < 100)%Z -> (0 <= ms < 1000)%Z ->
  (0 <= h' < 100)%Z -> (0 <= m' < 100)%Z -> (0 <= s' < 100)%Z -> (0 <= ms' < 1000)%Z ->
  str_compare (timecode h m s ms) (timecode h' m' s' ms')
  = match (h ?= h')%Z with
    | Eq => match (m ?= m')%Z with
            | Eq => match (s ?= s')%Z with
                    | Eq => (ms ?= ms')%Z
                    | c => c
                    end
            | c => c
            end
    | c => c
    end.
Proof.
  intros. unfold timecode.
  rewrite str_compare_app by (rewrite !format_d_2_length by assumption; reflexivity).
  rewrite format_d_2_compare by assumption.
  destruct (h ?= h')%Z; try reflexivity.
  rewrite (str_compare_app (lit ":")) by reflexivity. cbn [lit str_compare map list_ascii_of_string].
  rewrite N.compare_refl.
  rewrite str_compare_app by (rewrite !format_d_2_length by assumption; reflexivity).
  rewrite format_d_2_compare by assumption.
  destruct (m ?= m')%Z; try reflexivity.
  rewrite (str_compare_app [_]) by reflexivity. cbn [str_compare].
  rewrite N.compare_refl.
  rewrite str_compare_app by (rewrite !format_d_2_length by assumption; reflexivity).
  rewrite format_d_2_compare by assumption.
  destruct (s ?= s')%Z; try reflexivity.
  rewrite (str_compare_app [_]) by reflexivity. cbn [str_compare].
  rewrite N.compare_refl.
  apply format_d_3_compare; assumption.
Qed.

End Order.

Section Floors.
Local Open Scope Q_scope.

Lemma Qfloor_div_floor q n :
  (0 < n)%Z -> Qfloor (q / inject_Z n) = (Qfloor q / n)%Z.
Proof.
  intros Hn. destruct q as [a b]. destruct n as [| p | p]; try lia.
  unfold Qdiv, Qinv, Qmult, Qfloor, inject_Z. cbn.
  rewrite Z.mul_1_r, Pos2Z.inj_mul, Z.div_div by lia. reflexivity.
Qed.

Lemma Qfloor_sub_Z q z : Qfloor (q - inject_Z z) = (Qfloor q - z)%Z.
Proof.
  destruct q as [a b]. unfold Qminus, Qplus, Qopp, Qfloor, inject_Z. cbn.
  rewrite Pos.mul_1_r, Z.mul_1_r.
  replace (a + - z * Z.pos b)%Z with (a + (- z) * Z.pos b)%Z by lia.
  rewrite Z.div_add by lia. lia.
Qed.

Lemma Qfloor_Qmod x n : (0 < n)%Z -> Qfloor (Qmod x n) = (Qfloor x mod n)%Z.
Proof.
  intros Hn. unfold Qmod. rewrite <- inject_Z_mult, Qfloor_sub_Z.
  rewrite Qfloor_div_floor by exact Hn. rewrite Z.mod_eq by lia. reflexivity.
Qed.

Lemma minutes_floor x : Qfloor (Qmod x 3600 / 60) = ((Qfloor x mod 3600) / 60)%Z.
Proof.
  change 60 with (inject_Z 60). rewrite Qfloor_div_floor by lia.
  rewrite Qfloor_Qmod by lia. reflexivity.
Qed.

Lemma millis_range x :
  repr x -> 0 <= x ->
  (0 <= Qfloor (rnd ((x - inject_Z (Qfloor x)) * 1000)) <= 999)%Z.
Proof.
  intros Hx Hx0.
  destruct (repr_frac x Hx) as [_ Hb].
  rewrite Qtrunc_nonneg in Hb by exact Hx0.
  pose proof (Qfloor_frac x) as [Hf _].
  rewrite Qabs_pos in Hb by exact Hf.
  destruct (rnd_millis_bound _ (conj Hf Hb)) as [H0 H1].
  split.
  - apply Qfloor_nonneg, H0.
  - assert (Qfloor (rnd ((x - inject_Z (Qfloor x)) * 1000)) < 1000)%Z; [| lia].
    rewrite Zlt_Qlt. eapply Qle_lt_trans; [apply Qfloor_le | exact H1].
Qed.

(** The fields of a non-negative float below [2^53], from its integer
    part. *)
Lemma timestamp_fields_small x :
  repr x -> 0 <= x -> x < inject_Z (2 ^ 53) ->
  timestamp_fields (VFloat (Finite x))
  = Ok ((Qfloor x / 3600)%Z,
        ((Qfloor x mod 3600) / 60)%Z,
        (Qfloor x mod 60)%Z,
        Qfloor (rnd ((x - inject_Z (Qfloor x)) * 1000))).
Proof.
  intros Hx Hx0 Hs.
  destruct (timestamp_fields_nonneg x Hx Hx0) as (h & E & _ & Hh).
  rewrite E, (Hh Hs), minutes_floor, Qfloor_Qmod by lia.
  change 3600 with (inject_Z 3600). rewrite Qfloor_div_floor by lia.
  reflexivity.
Qed.

End Floors.

Section Monotone.
Local Open Scope Q_scope.

(** Below a hundred hours the timecode grows with the time. *)
Lemma format_timestamp_monotone x y :
  repr x -> repr y -> 0 <= x -> x <= y -> y < 360000 ->
  exists a b,
    format_timestamp (VFloat (Finite x)) = Ok a
    /\ format_timestamp (VFloat (Finite y)) = Ok b
    /\ str_le a b = true.
Proof.
  intros Hx Hy Hx0 Hxy Hy1.
  assert (H53 : 360000 < inject_Z (2 ^ 53)) by (vm_compute; reflexivity).
  pose proof (timestamp_fields_small x Hx Hx0 ltac:(lra)) as Ex.
  pose proof (timestamp_fields_small y Hy ltac:(lra) ltac:(lra)) as Ey.
  apply format_timestamp_fields in Ex, Ey.
  eexists _, _. split; [exact Ex |]. split; [exact Ey |].
  pose proof (millis_range x Hx Hx0) as Mx.
  pose proof (millis_range y Hy ltac:(lra)) as My.
  pose proof (Qfloor_resp_le _ _ Hxy) as HN.
  pose proof (Qfloor_nonneg x Hx0) as HN0.
  assert (HN1 : (Qfloor y < 360000)%Z).
  { rewrite Zlt_Qlt. eapply Qle_lt_trans; [apply Qfloor_le |]. exact Hy1. }
  assert (Hms : Qfloor x = Qfloor y ->
                (Qfloor (rnd ((x - inject_Z (Qfloor x)) * 1000))
                 <= Qfloor (rnd ((y - inject_Z (Qfloor y)) * 1000)))%Z).
  { intros E. rewrite E. apply Qfloor_resp_le, rnd_mono. lra. }
  set (msx := Qfloor (rnd ((x - inject_Z (Qfloor x)) * 1000))) in *.
  set (msy := Qfloor (rnd ((y - inject_Z (Qfloor y)) * 1000))) in *.
  set (N := Qfloor x) in *. set (N' := Qfloor y) in *.
  clearbody msx msy N N'.
  pose proof (Z.div_mod N 3600 ltac:(lia)).
  pose proof (Z.div_mod N' 3600 ltac:(lia)).
  pose proof (Z.mod_pos_bound N 3600 ltac:(lia)).
  pose proof (Z.mod_pos_bound N' 3600 ltac:(lia)).
  pose proof (Z.div_mod (N mod 3600) 60 ltac:(lia)).
  pose proof (Z.div_mod (N' mod 3600) 60 ltac:(lia)).
  pose proof (Z.mod_pos_bound (N mod 3600) 60 ltac:(lia)).
  pose proof (Z.mod_pos_bound (N' mod 3600) 60 ltac:(lia)).
  assert (En : ((N mod 3600) mod 60 = N mod 60)%Z).
  { apply Z.mod_mod_divide. exists 60%Z. reflexivity. }
  assert (En' : ((N' mod 3600) mod 60 = N' mod 60)%Z).
  { apply Z.mod_mod_divide. exists 60%Z. reflexivity. }
  assert (0 <= N / 3600)%Z by (apply Z.div_pos; lia).
  assert (0 <= N' / 3600)%Z by (apply Z.div_pos; lia).
  assert (0 <= N mod 3600 / 60)%Z by (apply Z.div_pos; lia).
  assert (0 <= N' mod 3600 / 60)%Z by (apply Z.div_pos; lia).
  unfold str_le. rewrite timecode_compare by lia.
  destruct (Z.compare_spec (N / 3600) (N' / 3600)); [| reflexivity | lia].
  destruct (Z.compare_spec (N mod 3600 / 60) (N' mod 3600 / 60)); [| reflexivity | lia].
  destruct (Z.compare_spec (N mod 60) (N' mod 60)); [| reflexivity | lia].
  assert (N = N') by lia.
  destruct (Z.compare_spec msx msy); [reflexivity | reflexivity | lia].
Qed.

End Monotone.

Section Ends.

Lemma produces_video_app a b :
  produces_video (a ++ b) = produces_video a || produces_video b.
Proof. apply existsb_app. Qed.

Lemma ends_ret {A} (a : A) : ends (mret a) (Return a) false.
Proof. intros log. exists []. split; [cbn; rewrite app_nil_r |]; reflexivity. Qed.

Lemma ends_emit e : ends (emit e) (Return tt) (is_render e).
Proof.
  intros log. exists [e]. split; [reflexivity |].
  destruct e; reflexivity.
Qed.

Lemma ends_exit {A} code : ends (@sys_exit A code) (Exit code) false.
Proof. intros log. exists []. split; [cbn; rewrite app_nil_r |]; reflexivity. Qed.

Lemma ends_raise {A} e : ends (@raise A e) (Uncaught e) false.
Proof. intros log. exists []. split; [cbn; rewrite app_nil_r |]; reflexivity. Qed.

Lemma ends_lift {A} (r : result A) :
  ends (lift r) (match r with Ok a => Return a | Raise e => Uncaught e end) false.
Proof. destruct r; [apply ends_ret | apply ends_raise]. Qed.

Lemma ends_bind {A B} (c : proc A) (k : A -> proc B) o v ko kv :
  ends c o v ->
  (forall a, o = Return a -> ends (k a) (ko a) (kv a)) ->
  ends (c ≫= k) (continue o ko) (continue_video o v kv).
Proof.
  intros Hc Hk log. destruct (Hc log) as (evs & E & Hv).
  unfold mbind, proc_bind. rewrite E.
  destruct o as [a | code | e].
  - destruct (Hk a eq_refl (log ++ evs)) as (evs' & E' & Hv').
    exists (evs ++ evs'). rewrite E', app_assoc. split; [reflexivity |].
    rewrite produces_video_app, Hv, Hv'. reflexivity.
  - exists evs. split; [reflexivity | exact Hv].
  - exists evs. split; [reflexivity | exact Hv].
Qed.

Lemma ends_when b (c : proc unit) o v :
  (b = true -> ends c o v) ->
  ends (when b c) (if b then o else Return tt) (if b then v else false).
Proof. destruct b; intros H; [apply H; reflexivity | apply ends_ret]. Qed.

Lemma ends_print b m : ends (when b (emit (Print m))) (Return tt) false.
Proof. destruct b; [apply (ends_emit (Print m)) | apply ends_ret]. Qed.

Lemma ends_makedirs b p : ends (when b (emit (MakeDirs p))) (Return tt) false.
Proof. destruct b; [apply (ends_emit (MakeDirs p)) | apply ends_ret]. Qed.

Lemma ends_eq {A} (c : proc A) o v o' v' :
  ends c o v -> o = o' -> v = v' -> ends c o' v'.
Proof. intros H <- <-. exact H. Qed.

Lemma progress_ends i n : ends (progress i n) (Return tt) false.
Proof.
  revert i. induction n as [| n IH]; intros i; [apply ends_ret |].
  cbn [progress].
  eapply ends_eq; [| reflexivity | reflexivity].
  apply (ends_bind _ _ _ _ (fun _ => Return tt) (fun _ => false) (ends_emit Sleep)).
  intros _ _.
  eapply ends_eq; [| reflexivity | reflexivity].
  apply (ends_bind _ _ _ _ (fun _ => Return tt) (fun _ => false)
           (ends_emit (Print (MsgProgress (S i))))).
  intros _ _. apply IH.
Qed.

End Ends.

Section Procedures.
Variable w : world.

Ltac close_ends log :=
  eexists;
  split;
  [ lazymatch goal with
    | |- (log, _) = (log ++ ?e, _) =>
        unify e (@nil event); rewrite app_nil_r; reflexivity
    | _ => rewrite <- ?app_assoc; cbn [app]; reflexivity
    end
  | reflexivity ].

Ltac by_cases log :=
  cbv [mbind mret proc_bind proc_ret when emit sys_exit raise lift negb];
  repeat match goal with
         | |- context [if ?b then _ else _] =>
             lazymatch b with
             | true => fail
             | false => fail
             | context [if _ then _ else _] => fail
             | _ => destruct b; cbv beta iota
             end
         end;
  close_ends log.

Lemma create_assets_directory_ends :
  ends (create_assets_directory w) (Return (cwd_assets w)) false.
Proof. intros log. unfold create_assets_directory. by_cases log. Qed.

Lemma check_file_exists_ends path :
  ends (check_file_exists w path)
       (if isfile w path then Return tt else Exit 1) false.
Proof. intros log. unfold check_file_exists. by_cases log. Qed.

Lemma has_audio_stream_ends path :
  ends (has_audio_stream w path) (probe_outcome w path) false.
Proof.
  intros log. unfold has_audio_stream, probe_outcome.
  destruct (probe w path); by_cases log.
Qed.

Lemma extract_subtitles_ends args :
  ends (extract_subtitles w (input_file args) (model args) (language args)
          (task args) (subtitle_output_path args) (verbose args))
       (extraction_outcome w args) false.
Proof.
  intros log.
  unfold extract_subtitles, extraction_outcome, serialized, has_audio_stream,
    probe_outcome, continue.
  destruct (probe w (input_file args)) as [streams |]; [| by_cases log].
  destruct (has_audio streams); [| by_cases log].
  destruct (load_model w (model args)) as [m | e]; [| by_cases log].
  cbv [mbind mret proc_bind proc_ret when emit sys_exit raise lift negb].
  destruct (verbose args).
  - destruct (transcribe w m (input_file args) (language args) (task args) true)
      as [segments | e]; [| by_cases log].
    destruct (write_srt segments []) as [f [[] | e]]; by_cases log.
  - destruct (transcribe w m (input_file args) (language args) (task args) false)
      as [segments | e]; [| by_cases log].
    destruct (write_srt segments []) as [f [[] | e]]; by_cases log.
Qed.

Lemma transform_ends args srt_file :
  exists v,
    ends (transform_audio_to_video_with_subtitles w (input_file args) srt_file
            (output_path args) (verbose args))
         (transform_outcome w args srt_file) v.
Proof.
  unfold transform_audio_to_video_with_subtitles, transform_outcome,
    has_audio_stream, probe_outcome, continue.
  destruct (probe w (input_file args)) as [streams |];
    [| exists false; intros log; by_cases log].
  destruct (has_audio streams); [| exists false; intros log; by_cases log].
  exists true. intros log.
  cbv [mbind mret proc_bind proc_ret when emit sys_exit raise lift negb].
  destruct (path_exists w (output_path args)), (verbose args);
    match goal with
    | |- context [progress 0 100 ?l] =>
        destruct (progress_ends 0 100 l) as (evs & -> & Hv)
    end;
    destruct (ffmpeg_run w _ _ _ _);
    (eexists; split;
     [ rewrite <- ?app_assoc; cbn [app]; reflexivity
     | rewrite ?produces_video_app, ?Hv; cbn;
       rewrite ?produces_video_app, ?Hv, ?orb_true_r; reflexivity ]).
Qed.

End Procedures.

Section MainOutcome.
Variable w : world.

Ltac simp_proc :=
  cbv [mbind mret proc_bind proc_ret when emit sys_exit raise lift negb].

Ltac use H :=
  match type of H with
  | ends ?c _ _ =>
      match goal with
      | |- context [c ?l] =>
          let evs := fresh "evs" in
          let E := fresh "E" in
          let V := fresh "V" in
          destruct (H l) as (evs & E & V); rewrite E; clear E; cbv beta iota
      end
  end.

Ltac close_main :=
  eexists; split;
  [ rewrite <- ?app_assoc; reflexivity
  | rewrite ?produces_video_app; cbn [produces_video existsb];
    repeat match goal with H : produces_video _ = _ |- _ => rewrite H; clear H end;
    cbn [orb andb]; try reflexivity;
    try (repeat match goal with b : bool |- _ => destruct b end; reflexivity) ].

(** [main] ends as [main_outcome] says, and renders no video when
    [--audio_to_video] or [--combine] is given. *)
Lemma main_ends args :
  exists v,
    ends (main w args) (main_outcome w args) v
    /\ (audio_to_video args || combine args = true -> v = false).
Proof.
  pose proof (create_assets_directory_ends w) as H1.
  pose proof (check_file_exists_ends w (input_file args)) as H2.
  pose proof (extract_subtitles_ends w args) as H3.
  assert (Hsrt : forall srt, exists v,
             ends (transform_audio_to_video_with_subtitles w (input_file args) srt
                     (output_path args) (verbose args))
                  (transform_outcome w args srt) v)
    by (intros srt; apply transform_ends).
  unfold main_outcome, extraction_requested, main.
  set (vb := verbose args) in *. clearbody vb.
  destruct (isfile w (input_file args)) eqn:Hfile.
  2: { exists false. split; [| reflexivity].
       intros log. simp_proc. use H1. use H2. close_main. }
  destruct (audio_to_video args || combine args) eqn:Hav.
  - exists false. split; [| reflexivity].
    intros log. simp_proc. use H1. use H2.
    destruct (extract_subtitles_flag args || combine args
              || audio_to_video_with_subtitles args).
    + destruct vb; use H3;
        destruct (extraction_outcome w args) as [srt | code | e];
        cbv [continue load_global bool_decide decide_rel]; cbn; close_main.
    + destruct vb; cbv [continue load_global]; cbn; close_main.
  - destruct (extract_subtitles_flag args || combine args
              || audio_to_video_with_subtitles args).
    + destruct (extraction_outcome w args) as [[srt |] | code | e] eqn:Hout.
      * destruct (Hsrt srt) as (v & H4).
        exists (audio_to_video_with_subtitles args && v).
        split; [| discriminate].
        intros log. simp_proc. use H1. use H2.
        destruct vb; use H3; cbv [continue];
          destruct (audio_to_video_with_subtitles args); cbv beta iota;
          try use H4;
          try (destruct (transform_outcome w args srt) as [[] | code | e]); close_main.
      * exists false. split; [| discriminate].
        intros log. simp_proc. use H1. use H2.
        destruct vb; use H3; cbv [continue];
          destruct (audio_to_video_with_subtitles args); cbv beta iota; close_main.
      * exists false. split; [| discriminate].
        intros log. simp_proc. use H1. use H2.
        destruct vb; use H3; cbv [continue]; close_main.
      * exists false. split; [| discriminate].
        intros log. simp_proc. use H1. use H2.
        destruct vb; use H3; cbv [continue]; close_main.
    + exists false. split; [| discriminate].
      intros log. simp_proc. use H1. use H2.
      cbv [continue].
      destruct (audio_to_video_with_subtitles args); cbv beta iota; close_main.
Qed.

End MainOutcome.

Section MainTheorems.

Lemma main_missing_file w args log :
  isfile w (input_file args) = false ->
  main w args log
  = (log ++ (if path_exists w (cwd_assets w) then [] else [MakeDirs (cwd_assets w)])
         ++ [Print (MsgFileMissing (input_file args))],
     Exit 1).
Proof.
  intros H. unfold main, create_assets_directory, check_file_exists.
  cbv [mbind mret proc_bind proc_ret when emit sys_exit raise negb].
  rewrite H.
  destruct (path_exists w (cwd_assets w)); rewrite <- ?app_assoc; reflexivity.
Qed.

Lemma main_run w args log :
  exists evs,
    main w args log = (log ++ evs, main_outcome w args)
    /\ (audio_to_video args || combine args = true -> produces_video evs = false).
Proof.
  destruct (main_ends w args) as (v & H & Hv).
  destruct (H log) as (evs & E & V).
  exists evs. split; [exact E |]. intros Hf. rewrite V. apply Hv, Hf.
Qed.

Lemma main_outcome_missing_name w args :
  audio_to_video args || combine args = true ->
  (isfile w (input_file args) = true ->
   (extraction_requested args = true -> extraction_returns w args = true) ->
   main_outcome w args = Uncaught NameError)
  /\ exit_status (main_outcome w args) <> 0%Z.
Proof.
  intros Hav.
  unfold main_outcome, extraction_returns, extraction_outcome, probe_outcome,
    serialized, transcription_raises.
  rewrite Hav.
  destruct (isfile w (input_file args)); [| split; [discriminate | cbn; lia]].
  destruct (extraction_requested args); [| split; [reflexivity | cbn; lia]].
  destruct (probe w (input_file args)) as [streams |];
    [| split; [intros _ H; specialize (H eq_refl); discriminate | cbn; lia]].
  cbn [continue].
  destruct (has_audio streams); [| split; [reflexivity | cbn; lia]].
  destruct (load_model w (model args)) as [m | e];
    [| split; [intros _ H; specialize (H eq_refl); discriminate | cbn; lia]].
  destruct (transcribe w m _ _ _ _) as [segments | e];
    [| split; [intros _ H; specialize (H eq_refl); discriminate | cbn; lia]].
  destruct (snd (write_srt segments [])) as [[] | e];
    [split; [reflexivity | cbn; lia]
    | split; [intros _ H; specialize (H eq_refl); discriminate | cbn; lia]].
Qed.

Lemma main_outcome_status w args :
  audio_to_video args = false -> combine args = false ->
  exit_status (main_outcome w args) = if fails w args then 1%Z else 0%Z.
Proof.
  intros Hav Hc.
  unfold main_outcome, fails, extraction_requested, extraction_outcome,
    transform_outcome, probe_outcome, serialized, transcription_raises.
  rewrite Hav, Hc.
  destruct (isfile w (input_file args)); [| reflexivity].
  destruct (extract_subtitles_flag args), (audio_to_video_with_subtitles args);
    cbn [orb andb negb continue]; try reflexivity;
    (destruct (probe w (input_file args)) as [streams |]; [| reflexivity]);
    cbn [continue];
    (destruct (has_audio streams); cbn [orb andb negb]; [| reflexivity]);
    (destruct (load_model w (model args)) as [m | e]; [| reflexivity]);
    (destruct (transcribe w m _ _ _ _) as [segments | e]; [| reflexivity]);
    (destruct (snd (write_srt segments [])) as [[] | e]; [| reflexivity]);
    cbn [continue orb andb negb]; try reflexivity;
    destruct (ffmpeg_run w _ _ _ _); reflexivity.
Qed.

End MainTheorems.

Section Serializer.

Lemma entry_length i segment b : entry i segment = Ok b -> length b = 3%nat.
Proof.
  unfold entry.
  destruct (getitem segment "start") as [v1 | e]; [| discriminate].
  cbn [mbind result_bind].
  destruct (format_timestamp v1) as [a1 | e]; [| discriminate].
  cbn [mbind result_bind].
  destruct (getitem segment "end") as [v2 | e]; [| discriminate].
  cbn [mbind result_bind].
  destruct (format_timestamp v2) as [a2 | e]; [| discriminate].
  cbn [mbind result_bind].
  destruct (getitem segment "text") as [v3 | e]; [| discriminate].
  cbn [mbind result_bind].
  destruct (sanitized_text v3) as [a3 | e]; [| discriminate].
  cbn [mbind result_bind].
  intros [= <-]. reflexivity.
Qed.

(** The loop of [write_srt], on any input: the entries of the segments
    before the first one that raises are appended, whole, and nothing
    else. *)
Lemma write_srt_from_run segments :
  forall i file,
  exists blocks,
    fst (write_srt_from i segments file) = file ++ concat blocks
    /\ (length blocks <= length segments)%nat
    /\ (forall k b, blocks !! k = Some b ->
          exists segment, segments !! k = Some segment
                          /\ entry (i + Z.of_nat k) segment = Ok b)
    /\ match snd (write_srt_from i segments file) with
       | Ok _ => length blocks = length segments
       | Raise e =>
           exists segment,
             segments !! length blocks = Some segment
             /\ entry (i + Z.of_nat (length blocks)) segment = Raise e
       end.
Proof.
  induction segments as [| segment rest IH]; intros i file.
  - exists []. cbn. rewrite app_nil_r. repeat split; [lia |].
    intros k b H. destruct k; discriminate.
  - cbn [write_srt_from]. destruct (entry i segment) as [writes | e] eqn:E.
    + destruct (IH (i + 1)%Z (file ++ writes)) as (blocks & Hf & Hl & Hk & Hr).
      exists (writes :: blocks). cbn [concat length].
      split; [rewrite Hf, app_assoc; reflexivity |].
      split; [lia |].
      split.
      * intros [| k] b Hb.
        -- injection Hb as <-. exists segment. rewrite Z.add_0_r. split; [reflexivity | exact E].
        -- destruct (Hk k b Hb) as (s & Hs & He). exists s. split; [exact Hs |].
           replace (i + Z.of_nat (S k))%Z with (i + 1 + Z.of_nat k)%Z by lia. exact He.
      * destruct (snd (write_srt_from (i + 1) rest (file ++ writes))) as [[] | e].
        -- lia.
        -- destruct Hr as (s & Hs & He). exists s. split; [exact Hs |].
           replace (i + Z.of_nat (S (length blocks)))%Z
             with (i + 1 + Z.of_nat (length blocks))%Z by lia.
           exact He.
    + exists []. cbn. rewrite app_nil_r, Z.add_0_r.
      split; [reflexivity |]. split; [lia |].
      split; [intros k b H; destruct k; discriminate |].
      exists segment. split; [reflexivity | exact E].
Qed.

Lemma write_srt_from_app a :
  forall i b file,
    write_srt_from i (a ++ b) file
    = match write_srt_from i a file with
      | (f, Ok _) => write_srt_from (i + Z.of_nat (length a)) b f
      | (f, Raise e) => (f, Raise e)
      end.
Proof.
  induction a as [| segment rest IH]; intros i b file.
  - cbn. rewrite Z.add_0_r. reflexivity.
  - cbn [app write_srt_from length]. destruct (entry i segment) as [writes | e].
    + rewrite IH. replace (i + 1 + Z.of_nat (length rest))%Z
        with (i + Z.of_nat (S (length rest)))%Z by lia.
      reflexivity.
    + reflexivity.
Qed.

End Serializer.

Section Sanitizer.

Lemma rep_length s : (length (rep s) <= length s)%nat.
Proof.
  induction s as [| r IH | c r Hc IH] using rep_ind.
  - rewrite rep_nil. lia.
  - rewrite rep_hit. cbn [length]. lia.
  - rewrite rep_miss by exact Hc. cbn [length]. lia.
Qed.

Lemma lstrip_length s : (length (lstrip s) <= length s)%nat.
Proof.
  destruct (lstrip_split s) as (sp & E).
  rewrite E at 2. rewrite length_app. lia.
Qed.

Lemma strip_length s : (length (strip s) <= length s)%nat.
Proof.
  unfold strip, rstrip. rewrite length_rev.
  pose proof (lstrip_length (rev (lstrip s))) as H. rewrite length_rev in H.
  pose proof (lstrip_length s). lia.
Qed.

End Sanitizer.

Section Fields.
Local Open Scope Q_scope.

Lemma floor_parts N :
  (0 <= N)%Z ->
  (3600 * (N / 3600) + 60 * (N mod 3600 / 60) + N mod 60 = N
   /\ 0 <= N mod 3600 / 60 < 60 /\ 0 <= N mod 60 < 60)%Z.
Proof.
  intros HN.
  pose proof (Z.div_mod N 3600 ltac:(lia)) as E1.
  pose proof (Z.div_mod (N mod 3600) 60 ltac:(lia)) as E2.
  pose proof (Z.mod_pos_bound N 3600 ltac:(lia)) as B1.
  pose proof (Z.mod_pos_bound N 60 ltac:(lia)) as B2.
  pose proof (Z.mod_pos_bound (N mod 3600) 60 ltac:(lia)) as B3.
  assert (E3 : ((N mod 3600) mod 60 = N mod 60)%Z).
  { apply Z.mod_mod_divide. exists 60%Z. reflexivity. }
  rewrite E3 in E2, B3.
  assert (0 <= N mod 3600 / 60)%Z by (apply Z.div_pos; lia).
  assert (N mod 3600 / 60 < 60)%Z by (apply Z.div_lt_upper_bound; lia).
  lia.
Qed.

(** The float product [frac * 1000] lies between the integers next to
    the real product. *)
Lemma rnd_floor_bracket y :
  0 <= y -> y < 1000 ->
  (Qfloor y <= Qfloor (rnd y) <= Qfloor y + 1)%Z.
Proof.
  intros H0 H1.
  pose proof (Qfloor_le y) as Hlo.
  pose proof (Qlt_floor y) as Hhi.
  pose proof (Qfloor_nonneg y H0) as Hk0.
  assert (Hk1 : (Qfloor y < 1000)%Z).
  { apply Z.lt_nge. intros Hge.
    assert (inject_Z 1000 <= inject_Z (Qfloor y)) by (rewrite <- Zle_Qle; exact Hge).
    change (inject_Z 1000) with 1000 in H. lra. }
  set (k := Qfloor y) in *. clearbody k.
  assert (R1 : rnd (inject_Z k) == inject_Z k) by (apply rnd_Z; lia).
  assert (R2 : rnd (inject_Z (k + 1)) == inject_Z (k + 1)) by (apply rnd_Z; lia).
  pose proof (rnd_mono _ _ Hlo) as M1.
  assert (Hle : y <= inject_Z (k + 1)) by lra.
  pose proof (rnd_mono _ _ Hle) as M2.
  split.
  - rewrite <- (Qfloor_Z k). apply Qfloor_resp_le. lra.
  - rewrite <- (Qfloor_Z (k + 1)). apply Qfloor_resp_le. lra.
Qed.

Lemma frac_range x : 0 <= x -> 0 <= (x - inject_Z (Qfloor x)) * 1000 < 1000.
Proof.
  intros H. pose proof (Qfloor_le x). pose proof (Qlt_floor x) as Hlt.
  rewrite inject_Z_plus in Hlt. change (inject_Z 1) with 1 in Hlt. lra.
Qed.

End Fields.

Section SerializerTheorems.
Local Open Scope Q_scope.

(** X1.  [write_srt] on any input, well formed or not: it appends the
    whole entries of the segments before the first one whose entry
    raises, each of three strings, and nothing of that segment or the
    later ones; it returns when no entry raises, and else passes on the
    exception of the first that does. *)
Theorem write_srt_stops_at_first_failure
    (segments : list (gmap string value)) (file : sink) :
  exists blocks,
    fst (write_srt segments file) = file ++ concat blocks
    /\ (length blocks <= length segments)%nat
    /\ (forall k b, blocks !! k = Some b ->
          length b = 3%nat
          /\ exists segment, segments !! k = Some segment
                             /\ entry (Z.of_nat k + 1) segment = Ok b)
    /\ match snd (write_srt segments file) with
       | Ok _ => length blocks = length segments
       | Raise e =>
           exists segment,
             segments !! length blocks = Some segment
             /\ entry (Z.of_nat (length blocks) + 1) segment = Raise e
       end.
Proof.
  unfold write_srt.
  destruct (write_srt_from_run segments 1 file) as (blocks & Hf & Hl & Hk & Hr).
  exists blocks. split; [exact Hf |]. split; [exact Hl |]. split.
  - intros k b Hb. destruct (Hk k b Hb) as (s & Hs & He).
    split; [eapply entry_length, He |].
    exists s. rewrite Z.add_comm. split; assumption.
  - destruct (snd (write_srt_from 1 segments file)) as [[] | e]; [exact Hr |].
    destruct Hr as (s & Hs & He). exists s. rewrite Z.add_comm. split; assumption.
Qed.

(** X2.  Serializing [a ++ b] is serializing [a] and, when that
    returns, going on with [b] numbered from [length a + 1] on the same
    sink; an exception in [a] ends the call with the sink as [a] left
    it. *)
Theorem write_srt_app (a b : list (gmap string value)) (file : sink) :
  write_srt (a ++ b) file
  = match write_srt a file with
    | (f, Ok _) => write_srt_from (Z.of_nat (length a) + 1) b f
    | (f, Raise e) => (f, Raise e)
    end.
Proof.
  unfold write_srt. rewrite write_srt_from_app, (Z.add_comm 1). reflexivity.
Qed.

(** X3.  A float that is not finite (an infinity or a NaN) makes
    [format_timestamp] raise [ValueError]: its floor division by 3600 is
    a NaN, which [int] refuses. *)
Theorem format_timestamp_non_finite (x : float) :
  (forall q, x <> Finite q) ->
  format_timestamp (VFloat x) = Raise ValueError.
Proof.
  intros H. destruct x as [q | [|] |].
  - destruct (H q eq_refl).
  - vm_compute. reflexivity.
  - vm_compute. reflexivity.
  - vm_compute. reflexivity.
Qed.

(** X4.  Sanitizing leaves a text as it is exactly when the text has no
    white space at either end and no occurrence of [-->]. *)
Theorem sanitize_fixed_iff (s : str) :
  sanitize s = s <-> trimmed s /\ occurrences separator s = 0%nat.
Proof.
  split.
  - intros E. rewrite <- E. split.
    + rewrite sanitize_rep. apply trimmed_rep, trimmed_strip.
    + apply sanitize_no_separator.
  - intros [Ht Ho]. rewrite sanitize_rep, strip_trimmed by exact Ht.
    apply rep_fixed, Ho.
Qed.

(** X5.  The sanitized text is never longer than the text. *)
Theorem sanitize_length (s : str) : (length (sanitize s) <= length s)%nat.
Proof.
  rewrite sanitize_rep.
  pose proof (rep_length (strip s)). pose proof (strip_length s). lia.
Qed.

(** X6.  For a finite float [0 <= x < 2^53] the hours, minutes and
    seconds of the timecode add up to the whole seconds of [x], with
    minutes and seconds below 60. *)
Theorem timestamp_fields_recombine (x : Q) :
  representable x = true -> 0 <= x -> x < inject_Z (2 ^ 53) ->
  exists hours minutes secs milliseconds,
    timestamp_fields (VFloat (Finite x)) = Ok (hours, minutes, secs, milliseconds)
    /\ (3600 * hours + 60 * minutes + secs = Qfloor x)%Z
    /\ (0 <= minutes < 60)%Z /\ (0 <= secs < 60)%Z.
Proof.
  intros Hx H0 H1. apply representable_repr in Hx.
  rewrite (timestamp_fields_small x Hx H0 H1).
  do 4 eexists. split; [reflexivity |].
  apply floor_parts, Qfloor_nonneg, H0.
Qed.

(** X7.  The milliseconds are computed from the float product of the
    fractional part and 1000: they are the floor of the real product or
    one more, never less. *)
Theorem milliseconds_within_one (x : Q) :
  representable x = true -> 0 <= x ->
  exists hours minutes secs milliseconds,
    timestamp_fields (VFloat (Finite x)) = Ok (hours, minutes, secs, milliseconds)
    /\ (Qfloor ((x - inject_Z (Qfloor x)) * 1000) <= milliseconds
        <= Qfloor ((x - inject_Z (Qfloor x)) * 1000) + 1)%Z.
Proof.
  intros Hx H0. apply representable_repr in Hx.
  destruct (timestamp_fields_nonneg x Hx H0) as (hours & E & _).
  do 4 eexists. split; [exact E |].
  destruct (frac_range x H0) as [F0 F1].
  apply rnd_floor_bracket; assumption.
Qed.

(** X8.  Read as a number of milliseconds, the timecode never goes down
    when the time goes up, for finite floats [0 <= x <= y < 2^53]: also
    past one hundred hours, where the order of the strings fails. *)
Theorem timestamp_fields_monotone (x y : Q) :
  representable x = true -> representable y = true ->
  0 <= x -> x <= y -> y < inject_Z (2 ^ 53) ->
  exists h m s ms h' m' s' ms',
    timestamp_fields (VFloat (Finite x)) = Ok (h, m, s, ms)
    /\ timestamp_fields (VFloat (Finite y)) = Ok (h', m', s', ms')
    /\ (((h * 60 + m) * 60 + s) * 1000 + ms
        <= ((h' * 60 + m') * 60 + s') * 1000 + ms')%Z.
Proof.
  intros Hx Hy H0 Hxy H1. apply representable_repr in Hx, Hy.
  assert (H0y : 0 <= y) by lra.
  assert (H1x : x < inject_Z (2 ^ 53)) by lra.
  rewrite (timestamp_fields_small x Hx H0 H1x), (timestamp_fields_small y Hy H0y H1).
  do 8 eexists. split; [reflexivity |]. split; [reflexivity |].
  pose proof (floor_parts (Qfloor x) (Qfloor_nonneg x H0)) as (Ex & _).
  pose proof (floor_parts (Qfloor y) (Qfloor_nonneg y H0y)) as (Ey & _).
  pose proof (millis_range x Hx H0) as Mx.
  pose proof (millis_range y Hy H0y) as My.
  pose proof (Qfloor_resp_le x y Hxy) as Hf.
  destruct (Z.eq_dec (Qfloor x) (Qfloor y)) as [Heq | Hne].
  - assert (Hm : (Qfloor (rnd ((x - inject_Z (Qfloor x)) * 1000))
                  <= Qfloor (rnd ((y - inject_Z (Qfloor y)) * 1000)))%Z).
    { apply Qfloor_resp_le, rnd_mono. rewrite Heq. lra. }
    set (a := Qfloor (rnd ((x - inject_Z (Qfloor x)) * 1000))) in *.
    set (b := Qfloor (rnd ((y - inject_Z (Qfloor y)) * 1000))) in *.
    clearbody a b. clear Ex. rewrite Heq. lia.
  - set (a := Qfloor (rnd ((x - inject_Z (Qfloor x)) * 1000))) in *.
    set (b := Qfloor (rnd ((y - inject_Z (Qfloor y)) * 1000))) in *.
    clearbody a b. lia.
Qed.

End SerializerTheorems.

Section Negative.
Local Open Scope Q_scope.

Lemma repr_half : repr (1 # 2).
Proof. apply (repr_comp (two ^ (-1))); [reflexivity | apply repr_pow2; lia]. Qed.

Lemma repr_neg_1 : repr (- (1)).
Proof. apply repr_opp, repr_1. Qed.

Lemma Qfloor_le_neg d : d <= - (1) -> inject_Z (Qfloor d) <= - (1).
Proof. intros H. pose proof (Qfloor_le d). lra. Qed.

Lemma Qtrunc_le_neg d : d <= - (1) -> (Qtrunc d <= -1)%Z.
Proof.
  intros H. rewrite <- (Qopp_opp_eq d), Qtrunc_opp, Qtrunc_nonneg by lra.
  assert (1 <= Qfloor (- d))%Z; [| lia].
  rewrite <- (Qfloor_Z 1). apply Qfloor_resp_le. change (inject_Z 1) with 1. lra.
Qed.

(** Snapping a quotient of at most [-1] gives an integer of at most [-1]. *)
Lemma snap_negative d :
  - two ^ 1023 <= d -> d <= - (1) ->
  exists f,
    (if nonzero (Finite d)
     then if flt half (fsub (Finite d) (ffloor (Finite d)))
          then fadd (ffloor (Finite d)) (Finite 1)
          else ffloor (Finite d)
     else zero) = Finite f
    /\ f <= - (1).
Proof.
  intros Hlo Hhi.
  assert (Hnz : nonzero (Finite d) = true).
  { cbn. rewrite negb_true_iff. apply Qeq_bool_false. lra. }
  rewrite Hnz. cbn [ffloor]. pose proof (Qfloor_frac d) as [F1 F2].
  assert (Hfl : - two ^ 1023 <= inject_Z (Qfloor d)).
  { rewrite (pow2_Z 1023), <- inject_Z_opp, <- Zle_Qle by lia.
    rewrite <- (Qfloor_Z (- 2 ^ 1023)). apply Qfloor_resp_le.
    rewrite inject_Z_opp, <- pow2_Z by lia. exact Hlo. }
  pose proof (Qfloor_le_neg d Hhi) as Hfl1.
  rewrite fsub_finite.
  destruct (Qlt_le_dec (1 # 2) (d - inject_Z (Qfloor d))) as [Hgt | Hle].
  - assert (Hk : (Qfloor d <= -2)%Z).
    { assert (Qfloor d < -1)%Z; [| lia].
      rewrite Zlt_Qlt. change (inject_Z (-1)) with (- (1)). lra. }
    rewrite Zle_Qle in Hk. change (inject_Z (-2)) with (- (2)) in Hk.
    set (fl := inject_Z (Qfloor d)) in *. clearbody fl.
    destruct (round_between (d + - fl) 0 1 repr_0 repr_1 ltac:(lra)) as (r & -> & _ & _).
    destruct (flt half (Finite r)).
    + rewrite fadd_finite.
      destruct (round_between (fl + 1) (- two ^ 1023) (- (1))
                  (repr_neg_pow2 1023 ltac:(lia)) repr_neg_1 ltac:(lra))
        as (f & -> & _ & Hf).
      exists f. split; [reflexivity | lra].
    + exists fl. split; [reflexivity | exact Hfl1].
  - set (fl := inject_Z (Qfloor d)) in *. clearbody fl.
    destruct (round_between (d + - fl) 0 (1 # 2) repr_0 repr_half ltac:(lra))
      as (r & -> & _ & Hr).
    assert (Hf : flt half (Finite r) = false).
    { cbn. rewrite Qle_bool_true by lra. reflexivity. }
    rewrite Hf. exists fl. split; [reflexivity | exact Hfl1].
Qed.

Lemma Qeq_bool_true a b : Qeq_bool a b = true -> a == b.
Proof. apply Qeq_bool_eq. Qed.

(** The floor division of a negative float by an integer of at least 4
    is a float of at most [-1]. *)
Lemma float_div_mod_negative x m :
  repr x -> x < 0 -> (4 <= m <= 2 ^ 53)%Z ->
  exists d r,
    float_div_mod (Finite x) (Finite (inject_Z m)) = (Finite d, Finite r)
    /\ d <= - (1).
Proof.
  intros Hx Hn Hm. unfold float_div_mod, fmod, one.
  pose proof (Qeq_bool_inject_Z_0 m ltac:(lia)) as Hwz. rewrite Hwz.
  pose proof (inject_Z_pos m ltac:(lia)) as Hw.
  assert (Hw4 : 4 <= inject_Z m) by (change 4 with (inject_Z 4); rewrite <- Zle_Qle; lia).
  set (w := inject_Z m) in *.
  set (k := Qtrunc (x / w)).
  set (T := inject_Z k).
  pose proof (Qred_correct (x - w * T)) as Hr0.
  set (r0 := Qred (x - w * T)) in *.
  assert (Hxb : - two ^ 1024 < x < two ^ 1024).
  { destruct Hx as [_ Hb]. apply Qabs_Qlt_condition in Hb. exact Hb. }
  assert (H24 : two ^ 1024 == 4 * two ^ 1022).
  { change 1024%Z with (1 + 1 + 1022)%Z. rewrite !pow2_add. change (two ^ 1) with 2. ring. }
  assert (H23 : two ^ 1023 == 2 * two ^ 1022) by (rewrite <- pow2_succ; reflexivity).
  pose proof (pow2_le 0 1022 ltac:(lia)) as H1. change (two ^ 0) with 1 in H1.
  rewrite fsub_finite.
  destruct (trunc_div_nonpos x w Hw ltac:(lra)) as [B1 B2]. fold k in B1, B2. fold T in B1, B2.
  destruct (nonzero (Finite r0)) eqn:En.
  - destruct (round_between (x + - r0) x 0 Hx repr_0 ltac:(lra)) as (t & -> & _ & Ht).
    unfold fdiv. rewrite Hwz.
    assert (Hd : - two ^ 1022 <= t / w <= 0).
    { split.
      - apply Qle_shift_div_l; [exact Hw |].
        assert (two ^ 1022 * 4 <= two ^ 1022 * w) by (apply Qmult_le_l; lra). lra.
      - apply Qle_shift_div_r; [exact Hw |]. lra. }
    destruct (round_between (t / w) (- two ^ 1022) 0
                (repr_neg_pow2 1022 ltac:(lia)) repr_0 Hd) as (d0 & -> & _ & Hd0).
    assert (Hr0n : r0 < 0).
    { unfold nonzero in En. rewrite negb_true_iff in En. apply Qeq_bool_neq in En.
      destruct (Qlt_le_dec r0 0); [assumption | exfalso; apply En; lra]. }
    rewrite (flt_zero_nonneg w) by lra.
    assert (Hf : flt (Finite r0) zero = true).
    { cbn. rewrite Qle_bool_false by exact Hr0n. reflexivity. }
    rewrite Hf. cbn [Bool.eqb negb]. rewrite fadd_finite, fsub_finite.
    destruct (round_between (r0 + w) 0 w repr_0 (repr_Z m ltac:(lia)) ltac:(lra))
      as (r & -> & _ & _).
    destruct (round_between (d0 + - (1)) (- two ^ 1023) (- (1))
                (repr_neg_pow2 1023 ltac:(lia)) repr_neg_1 ltac:(lra))
      as (d & -> & _ & Hdd).
    cbv beta iota zeta.
    destruct (snap_negative d ltac:(lra) ltac:(lra)) as (f & -> & Hf1).
    exists f, r. split; [reflexivity | exact Hf1].
  - assert (Hr00 : r0 == 0).
    { unfold nonzero in En. rewrite negb_false_iff in En. apply Qeq_bool_true, En. }
    assert (HxT : x == w * T) by lra.
    assert (Hk : (k <= -1)%Z).
    { assert (k < 0)%Z; [| lia].
      apply Z.lt_nge. intros Hk0. rewrite Zle_Qle in Hk0. fold T in Hk0.
      change (inject_Z 0) with 0 in Hk0.
      assert (0 <= w * T) by (apply Qmult_le_0_compat; lra). lra. }
    rewrite Zle_Qle in Hk. fold T in Hk. change (inject_Z (-1)) with (- (1)) in Hk.
    destruct (round_between (x + - r0) x x Hx Hx ltac:(lra)) as (t & -> & _ & Ht).
    unfold fdiv. rewrite Hwz.
    assert (Etw : t / w == T).
    { assert (Et : t == w * T) by lra. rewrite Et. field. lra. }
    assert (HTlo : - two ^ 1022 <= T).
    { assert (Hd : - two ^ 1022 <= t / w).
      { apply Qle_shift_div_l; [exact Hw |].
        assert (two ^ 1022 * 4 <= two ^ 1022 * w) by (apply Qmult_le_l; lra). lra. }
      lra. }
    destruct (round_between (t / w) (- two ^ 1022) (- (1))
                (repr_neg_pow2 1022 ltac:(lia)) repr_neg_1 ltac:(lra))
      as (d0 & -> & _ & Hd0).
    cbv beta iota zeta.
    destruct (snap_negative d0 ltac:(lra) ltac:(lra)) as (f & -> & Hf1).
    exists f, 0. split; [reflexivity | exact Hf1].
Qed.

Lemma float_floordiv_negative x m :
  repr x -> x < 0 -> (4 <= m <= 2 ^ 53)%Z ->
  exists d, float_floordiv (Finite x) m = Ok (Finite d) /\ d <= - (1).
Proof.
  intros Hx Hn Hm. unfold float_floordiv.
  rewrite float_of_int_small by lia. cbn [mbind result_bind].
  assert (Hnz : nonzero (Finite (inject_Z m)) = true).
  { cbn. rewrite Qeq_bool_inject_Z_0 by lia. reflexivity. }
  rewrite Hnz.
  destruct (float_div_mod_negative x m Hx Hn Hm) as (d & r & -> & Hd).
  exists d. split; [reflexivity | exact Hd].
Qed.

Lemma Qtrunc_range q lo hi :
  inject_Z lo <= q <= inject_Z hi -> (lo <= Qtrunc q <= hi)%Z.
Proof.
  intros [H1 H2].
  destruct (Qlt_le_dec q 0) as [Hn | Hp].
  - rewrite <- (Qopp_opp_eq q), Qtrunc_opp, Qtrunc_nonneg by lra.
    assert (A : (Qfloor (- q) <= - lo)%Z).
    { rewrite <- (Qfloor_Z (- lo)). apply Qfloor_resp_le. rewrite inject_Z_opp. lra. }
    assert (B : (- hi <= Qfloor (- q))%Z).
    { rewrite <- (Qfloor_Z (- hi)). apply Qfloor_resp_le. rewrite inject_Z_opp. lra. }
    lia.
  - rewrite Qtrunc_nonneg by exact Hp.
    split.
    + rewrite <- (Qfloor_Z lo). apply Qfloor_resp_le, H1.
    + rewrite <- (Qfloor_Z hi). apply Qfloor_resp_le, H2.
Qed.

(** The fields of a negative float: floor division and remainder go
    down, truncation goes up. *)
Lemma timestamp_fields_negative x :
  repr x -> x < 0 ->
  exists hours minutes secs milliseconds,
    timestamp_fields (VFloat (Finite x)) = Ok (hours, minutes, secs, milliseconds)
    /\ (hours <= -1)%Z
    /\ (0 <= minutes <= 60)%Z /\ (0 <= secs <= 60)%Z
    /\ (-999 <= milliseconds <= 0)%Z.
Proof.
  intros Hx Hn. unfold timestamp_fields.
  destruct (float_floordiv_negative x 3600 Hx Hn ltac:(lia)) as (d & -> & Hd).
  cbn [mbind result_bind int_of_float].
  destruct (float_rem_finite x 3600 Hx ltac:(lia)) as (r & -> & Hr & Hrb).
  cbn [mbind result_bind].
  change (inject_Z 3600) with 3600 in Hrb.
  rewrite (float_floordiv_exact r 60 Hr)
    by (lia || lra || (assert (3600 < inject_Z (2 ^ 53)) by (vm_compute; reflexivity); lra)).
  cbn [mbind result_bind int_of_float].
  destruct (float_rem_finite x 60 Hx ltac:(lia)) as (r' & -> & _ & Hrb').
  cbn [mbind result_bind int_of_float].
  rewrite (float_sub_int_frac x Hx). cbn [mbind result_bind].
  destruct (repr_frac x Hx) as [_ Hfb].
  pose proof (pow2_pos (-53)) as Hp53.
  rewrite float_mul_int_1000
    by (rewrite (Qabs_wd _ _ (Qred_correct _)); lra).
  cbn [mbind result_bind int_of_float].
  eexists _, _, _, _. split; [reflexivity |].
  split; [apply Qtrunc_le_neg, Hd |].
  split.
  { rewrite Qtrunc_Z. change (inject_Z 60) with 60.
    assert (H0 : 0 <= r / 60) by (apply Qle_shift_div_l; lra).
    assert (H1 : r / 60 <= 60) by (apply Qle_shift_div_r; lra).
    split.
    - apply Qfloor_nonneg, H0.
    - rewrite <- (Qfloor_Z 60). apply Qfloor_resp_le. exact H1. }
  split.
  { apply Qtrunc_range. exact Hrb'. }
  set (f := Qred (x - inject_Z (Qtrunc x))).
  assert (Ef : f == x - inject_Z (Qtrunc x)) by apply Qred_correct.
  clearbody f.
  assert (Hf0 : f <= 0).
  { destruct (trunc_div_nonpos x 1 ltac:(lra) ltac:(lra)) as [B1 _].
    assert (E : x / 1 == x) by (field).
    rewrite (Qtrunc_comp _ _ E) in B1. lra. }
  assert (Hf1 : - (1 - two ^ (-53)) <= f).
  { rewrite Ef. apply Qabs_Qle_condition in Hfb. lra. }
  assert (E : f * 1000 == - ((- f) * 1000)) by ring.
  rewrite (rnd_comp _ _ E), rnd_opp.
  pose proof (rnd_millis_bound (- f) ltac:(lra)) as [M0 M1].
  set (y := rnd (- f * 1000)) in *. clearbody y.
  rewrite Qtrunc_opp, Qtrunc_nonneg by exact M0.
  pose proof (Qfloor_nonneg y M0).
  assert (Qfloor y < 1000)%Z; [| lia].
  apply Z.lt_nge. intros Hge. rewrite Zle_Qle in Hge.
  pose proof (Qfloor_le y). change (inject_Z 1000) with 1000 in Hge. lra.
Qed.

Lemma format_d_negative w n : (n < 0)%Z -> exists rest, format_d w n = lit "-" ++ rest.
Proof.
  intros H. unfold format_d, sign.
  destruct (Z.ltb_spec n 0) as [_ | Hc]; [| lia].
  eexists. reflexivity.
Qed.

End Negative.

Section Injective.

Lemma decimal_value_inj_format w a b :
  (0 <= a)%Z -> (0 <= b)%Z -> format_d w a = format_d w b -> a = b.
Proof.
  intros Ha Hb E.
  destruct (format_d_nonneg w a Ha) as (_ & _ & Va).
  destruct (format_d_nonneg w b Hb) as (_ & _ & Vb).
  rewrite E in Va. congruence.
Qed.

Lemma timecode_injective h m s ms h' m' s' ms' :
  (0 <= h)%Z -> (0 <= m < 100)%Z -> (0 <= s < 100)%Z -> (0 <= ms < 1000)%Z ->
  (0 <= h')%Z -> (0 <= m' < 100)%Z -> (0 <= s' < 100)%Z -> (0 <= ms' < 1000)%Z ->
  timecode h m s ms = timecode h' m' s' ms' ->
  h = h' /\ m = m' /\ s = s' /\ ms = ms'.
Proof.
  intros Hh Hm Hs Hms Hh' Hm' Hs' Hms' E. unfold timecode in E.
  pose proof (format_d_2_length m Hm) as L1.
  pose proof (format_d_2_length s Hs) as L2.
  pose proof (format_d_3_length ms Hms) as L3.
  pose proof (format_d_2_length m' Hm') as L1'.
  pose proof (format_d_2_length s' Hs') as L2'.
  pose proof (format_d_3_length ms' Hms') as L3'.
  change (lit ":") with [58%N] in E. change (lit ",") with [44%N] in E.
  apply app_inj_2 in E as [E1 E].
  2: { repeat (rewrite ?length_app; cbn [length app]). lia. }
  cbn [app] in E. injection E as E.
  apply app_inj_1 in E as [E2 E]; [| lia].
  cbn [app] in E. injection E as E.
  apply app_inj_1 in E as [E3 E]; [| lia].
  cbn [app] in E. injection E as E4.
  repeat split; eapply decimal_value_inj_format; try eassumption; lia.
Qed.

End Injective.

Section FieldTheorems.
Local Open Scope Q_scope.

(** X9.  A negative finite float is not refused: the hours are at most
    [-1], so that the timecode opens with a minus sign; minutes and
    seconds lie in [0 .. 60] and the milliseconds in [-999 .. 0]. *)
Theorem format_timestamp_negative (x : Q) :
  representable x = true -> x < 0 ->
  exists hours minutes secs milliseconds rest,
    timestamp_fields (VFloat (Finite x)) = Ok (hours, minutes, secs, milliseconds)
    /\ (hours <= -1)%Z
    /\ (0 <= minutes <= 60)%Z /\ (0 <= secs <= 60)%Z
    /\ (-999 <= milliseconds <= 0)%Z
    /\ format_timestamp (VFloat (Finite x)) = Ok (lit "-" ++ rest).
Proof.
  intros Hx Hn. apply representable_repr in Hx.
  destruct (timestamp_fields_negative x Hx Hn) as (h & m & s & ms & E & Hh & Hm & Hs & Hms).
  destruct (format_d_negative 2 h ltac:(lia)) as (rest & Er).
  exists h, m, s, ms. eexists.
  split; [exact E |]. do 4 (split; [assumption |]).
  rewrite (format_timestamp_fields _ _ _ _ _ E). unfold timecode.
  rewrite Er, <- app_assoc. reflexivity.
Qed.

(** X10.  Two finite floats of [0 .. 2^53) get the same timecode only
    when their whole seconds and their milliseconds are the same: the
    timecode can be read back. *)
Theorem format_timestamp_injective (x y : Q) :
  representable x = true -> representable y = true ->
  0 <= x < inject_Z (2 ^ 53) -> 0 <= y < inject_Z (2 ^ 53) ->
  format_timestamp (VFloat (Finite x)) = format_timestamp (VFloat (Finite y)) ->
  timestamp_fields (VFloat (Finite x)) = timestamp_fields (VFloat (Finite y))
  /\ Qfloor x = Qfloor y.
Proof.
  intros Hx Hy [X0 X1] [Y0 Y1] E. apply representable_repr in Hx, Hy.
  pose proof (timestamp_fields_small x Hx X0 X1) as Fx.
  pose proof (timestamp_fields_small y Hy Y0 Y1) as Fy.
  rewrite (format_timestamp_fields _ _ _ _ _ Fx),
    (format_timestamp_fields _ _ _ _ _ Fy) in E.
  injection E as E.
  pose proof (floor_parts (Qfloor x) (Qfloor_nonneg x X0)) as (Ex & Mx & Sx).
  pose proof (floor_parts (Qfloor y) (Qfloor_nonneg y Y0)) as (Ey & My & Sy).
  pose proof (millis_range x Hx X0) as Msx.
  pose proof (millis_range y Hy Y0) as Msy.
  assert (Hhx : (0 <= Qfloor x / 3600)%Z)
    by (apply Z.div_pos; [apply Qfloor_nonneg, X0 | lia]).
  assert (Hhy : (0 <= Qfloor y / 3600)%Z)
    by (apply Z.div_pos; [apply Qfloor_nonneg, Y0 | lia]).
  apply timecode_injective in E as (E1 & E2 & E3 & E4); try lia.
  split.
  - rewrite Fx, Fy, E1, E2, E3, E4. reflexivity.
  - lia.
Qed.

End FieldTheorems.

Section Runs.

Lemma runs_ret {A} (a : A) : runs (mret a) [] (Return a).
Proof. intros log. cbn. rewrite app_nil_r. reflexivity. Qed.

Lemma progress_runs n : forall i, runs (progress i n) (progress_events i n) (Return tt).
Proof.
  induction n as [| n IH]; intros i log.
  - cbn. rewrite app_nil_r. reflexivity.
  - cbn [progress]. cbv [mbind proc_bind emit]. rewrite IH.
    unfold progress_events. cbn [seq flat_map app].
    rewrite <- !app_assoc. reflexivity.
Qed.

End Runs.

Section Traces.
Variable w : world.

Ltac simp_proc :=
  cbv [mbind mret proc_bind proc_ret when emit sys_exit raise lift negb].

Ltac close_run :=
  cbv [say make];
  repeat match goal with
         | |- context [if ?b then _ else _] =>
             lazymatch b with
             | true => fail
             | false => fail
             | context [if _ then _ else _] => fail
             | _ => destruct b; cbv beta iota
             end
         end;
  rewrite <- ?app_assoc; cbn [app]; rewrite ?app_nil_r; reflexivity.

Lemma create_assets_directory_runs :
  runs (create_assets_directory w) (make w (cwd_assets w)) (Return (cwd_assets w)).
Proof. intros log. unfold create_assets_directory. simp_proc. close_run. Qed.

Lemma check_file_exists_runs path :
  runs (check_file_exists w path)
       (if isfile w path then [] else [Print (MsgFileMissing path)])
       (if isfile w path then Return tt else Exit 1).
Proof. intros log. unfold check_file_exists. simp_proc. close_run. Qed.

Lemma extract_subtitles_runs args :
  runs (extract_subtitles w (input_file args) (model args) (language args)
          (task args) (subtitle_output_path args) (verbose args))
       (extraction_events w args) (extraction_outcome w args).
Proof.
  intros log.
  unfold extract_subtitles, extraction_events, extraction_outcome, serialized,
    has_audio_stream, probe_outcome, continue, srt_path.
  destruct (probe w (input_file args)) as [streams |]; [| simp_proc; close_run].
  destruct (has_audio streams); [| simp_proc; close_run].
  destruct (load_model w (model args)) as [m | e]; [| simp_proc; close_run].
  simp_proc.
  destruct (verbose args).
  - destruct (transcribe w m (input_file args) (language args) (task args) true)
      as [segments | e]; [| close_run].
    destruct (write_srt segments []) as [f [[] | e]]; cbn [fst snd]; close_run.
  - destruct (transcribe w m (input_file args) (language args) (task args) false)
      as [segments | e]; [| close_run].
    destruct (write_srt segments []) as [f [[] | e]]; cbn [fst snd]; close_run.
Qed.

Lemma transform_runs args srt_file :
  runs (transform_audio_to_video_with_subtitles w (input_file args) srt_file
          (output_path args) (verbose args))
       (transform_events w args srt_file) (transform_outcome w args srt_file).
Proof.
  intros log.
  unfold transform_audio_to_video_with_subtitles, transform_events,
    transform_outcome, has_audio_stream, probe_outcome, continue, video_path.
  destruct (probe w (input_file args)) as [streams |]; [| simp_proc; close_run].
  destruct (has_audio streams); [| simp_proc; close_run].
  simp_proc. cbv [say make].
  destruct (path_exists w (output_path args)), (verbose args);
    rewrite progress_runs;
    destruct (ffmpeg_run w _ _ _ _);
    rewrite <- ?app_assoc; cbn [app]; rewrite ?app_nil_r; reflexivity.
Qed.

Lemma load_missing_name :
  load_global "transform_audio_to_video" = raise NameError.
Proof. reflexivity. Qed.

Ltac use H :=
  match type of H with
  | runs ?c _ _ =>
      match goal with
      | |- context [c ?l] => rewrite (H l); cbv beta iota
      end
  end.

Ltac close_main :=
  cbv [say continue];
  rewrite <- ?app_assoc; cbn [app]; rewrite ?app_nil_r; reflexivity.

(** [main] appends [main_events] and ends as [main_outcome] says. *)
Lemma main_runs args : runs (main w args) (main_events w args) (main_outcome w args).
Proof.
  pose proof create_assets_directory_runs as H1.
  pose proof (check_file_exists_runs (input_file args)) as H2.
  pose proof (extract_subtitles_runs args) as H3.
  pose proof (transform_runs args) as H4.
  intros log.
  unfold main, main_events, main_outcome, extraction_requested.
  rewrite load_missing_name.
  set (vb := verbose args) in *. clearbody vb.
  simp_proc. use H1. use H2.
  destruct (isfile w (input_file args)); [| close_main].
  rewrite app_nil_r.
  destruct (extract_subtitles_flag args || combine args
            || audio_to_video_with_subtitles args).
  - destruct (audio_to_video args || combine args).
    + destruct vb; use H3;
        destruct (extraction_outcome w args) as [srt | code | e]; close_main.
    + destruct vb; use H3;
        destruct (extraction_outcome w args) as [[srt |] | code | e];
        destruct (audio_to_video_with_subtitles args); cbv [continue]; cbv beta iota;
        try use (H4 srt);
        try (destruct (transform_outcome w args srt) as [[] | code | e]);
        close_main.
  - destruct (audio_to_video args || combine args).
    + destruct vb; close_main.
    + destruct (audio_to_video_with_subtitles args); close_main.
Qed.

End Traces.

Section Observations.

Lemma renders_app a b : renders (a ++ b) = renders a ++ renders b.
Proof. apply flat_map_app. Qed.

Lemma written_app a b : written (a ++ b) = written a ++ written b.
Proof. apply flat_map_app. Qed.

Lemma printed_app a b : printed (a ++ b) = printed a ++ printed b.
Proof. apply flat_map_app. Qed.

Lemma reports_app a b : reports (a ++ b) = reports a ++ reports b.
Proof. apply flat_map_app. Qed.

Lemma renders_say b m : renders (say b m) = [].
Proof. destruct b; reflexivity. Qed.

Lemma written_say b m : written (say b m) = [].
Proof. destruct b; reflexivity. Qed.

Lemma renders_make w p : renders (make w p) = [].
Proof. unfold make. destruct (path_exists w p); reflexivity. Qed.

Lemma written_make w p : written (make w p) = [].
Proof. unfold make. destruct (path_exists w p); reflexivity. Qed.

Lemma reports_make w p : reports (make w p) = [].
Proof. unfold make. destruct (path_exists w p); reflexivity. Qed.

Lemma renders_progress n : forall i, renders (progress_events i n) = [].
Proof. induction n as [| n IH]; intros i; [reflexivity | apply (IH (S i))]. Qed.

Lemma written_progress n : forall i, written (progress_events i n) = [].
Proof. induction n as [| n IH]; intros i; [reflexivity | apply (IH (S i))]. Qed.

Lemma reports_progress n : forall i, reports (progress_events i n) = seq (S i) n.
Proof.
  induction n as [| n IH]; intros i; [reflexivity |].
  unfold progress_events. cbn [seq flat_map app reports].
  f_equal. apply (IH (S i)).
Qed.

End Observations.

Section EventFacts.
Variable w : world.

Ltac obs :=
  rewrite ?renders_app, ?written_app, ?renders_say, ?written_say, ?renders_make,
    ?written_make, ?renders_progress, ?written_progress;
  cbn [renders written flat_map app]; rewrite ?app_nil_r.

Lemma renders_extraction args : renders (extraction_events w args) = [].
Proof.
  unfold extraction_events.
  destruct (probe w (input_file args)) as [streams |]; [| reflexivity].
  destruct (has_audio streams); [| reflexivity].
  destruct (load_model w (model args)) as [m | e]; [| reflexivity].
  destruct (transcribe w m _ _ _ _) as [segments | e]; obs; [| reflexivity].
  destruct (snd (write_srt segments [])); obs; reflexivity.
Qed.

Lemma written_extraction args :
  written (extraction_events w args)
  = match transcribed w args with
    | Some segments => [(srt_path w args, fst (write_srt segments []))]
    | None => []
    end.
Proof.
  unfold extraction_events, transcribed.
  destruct (probe w (input_file args)) as [streams |]; [| reflexivity].
  destruct (has_audio streams); [| reflexivity].
  destruct (load_model w (model args)) as [m | e]; [| reflexivity].
  destruct (transcribe w m _ _ _ _) as [segments | e]; obs; [| reflexivity].
  destruct (snd (write_srt segments [])); obs; reflexivity.
Qed.

Lemma written_transform args srt : written (transform_events w args srt) = [].
Proof.
  unfold transform_events.
  destruct (probe w (input_file args)) as [streams |]; [| reflexivity].
  destruct (has_audio streams); [| reflexivity].
  obs. destruct (ffmpeg_run w _ _ _ _); obs; reflexivity.
Qed.

Lemma renders_transform args srt :
  renders (transform_events w args srt)
  = match probe w (input_file args) with
    | Some streams =>
        if has_audio streams
        then [(input_file args, srt, video_path w args, negb (verbose args))]
        else []
    | None => []
    end.
Proof.
  unfold transform_events.
  destruct (probe w (input_file args)) as [streams |]; [| reflexivity].
  destruct (has_audio streams); [| reflexivity].
  obs. destruct (ffmpeg_run w _ _ _ _); obs; reflexivity.
Qed.

(** The extraction hands a path to [main] exactly when the segments
    were transcribed and serialized without an exception, and then the
    path of the subtitle file. *)
Lemma extraction_outcome_transcribed args :
  extraction_outcome w args
  = match probe w (input_file args) with
    | None => Exit 1
    | Some streams =>
        if has_audio streams then
          match load_model w (model args) with
          | Raise e => Uncaught e
          | Ok m =>
              match transcribe w m (input_file args) (language args) (task args)
                      (verbose args) with
              | Raise e => Uncaught e
              | Ok segments =>
                  match snd (write_srt segments []) with
                  | Raise e => Uncaught e
                  | Ok _ => Return (Some (srt_path w args))
                  end
              end
          end
        else Return None
    end.
Proof.
  unfold extraction_outcome, probe_outcome, serialized, continue, srt_path.
  destruct (probe w (input_file args)) as [streams |]; reflexivity.
Qed.

Lemma will_render_inv args :
  will_render w args = true ->
  isfile w (input_file args) = true
  /\ audio_to_video_with_subtitles args = true
  /\ audio_to_video args || combine args = false
  /\ exists streams segments,
       probe w (input_file args) = Some streams
       /\ has_audio streams = true
       /\ transcribed w args = Some segments
       /\ snd (write_srt segments []) = Ok tt
       /\ extraction_outcome w args = Return (Some (srt_path w args)).
Proof.
  unfold will_render. rewrite extraction_outcome_transcribed. unfold transcribed.
  destruct (isfile w (input_file args)); [| discriminate].
  destruct (audio_to_video_with_subtitles args); [| discriminate].
  destruct (audio_to_video args || combine args); [discriminate |].
  cbn [andb negb].
  destruct (probe w (input_file args)) as [streams |]; [| discriminate].
  destruct (has_audio streams) eqn:Ha; [| discriminate].
  destruct (load_model w (model args)) as [m | e]; [| discriminate].
  destruct (transcribe w m _ _ _ _) as [segments | e]; [| discriminate].
  destruct (snd (write_srt segments [])) as [[] | e] eqn:Hs; [| discriminate].
  intros _. do 3 (split; [reflexivity |]).
  exists streams, segments. rewrite Hs. repeat split; assumption || reflexivity.
Qed.

Lemma renders_main args :
  renders (main_events w args)
  = if will_render w args
    then [(input_file args, srt_path w args, video_path w args, negb (verbose args))]
    else [].
Proof.
  unfold main_events, will_render, extraction_requested.
  rewrite extraction_outcome_transcribed. unfold transcribed.
  obs.
  destruct (isfile w (input_file args)); [| obs; reflexivity].
  destruct (audio_to_video_with_subtitles args).
  - rewrite orb_true_r. obs. rewrite renders_extraction.
    destruct (audio_to_video args || combine args).
    + cbn [andb negb app].
      destruct (probe w (input_file args)) as [streams |]; [| obs; reflexivity].
      destruct (has_audio streams); [| obs; reflexivity].
      destruct (load_model w (model args)) as [m | e]; [| obs; reflexivity].
      destruct (transcribe w m _ _ _ _) as [segments | e]; [| obs; reflexivity].
      destruct (snd (write_srt segments [])) as [[] | e]; obs; reflexivity.
    + cbn [andb negb app].
      destruct (probe w (input_file args)) as [streams |] eqn:Hp; [| obs; reflexivity].
      destruct (has_audio streams) eqn:Ha; [| obs; reflexivity].
      destruct (load_model w (model args)) as [m | e]; [| obs; reflexivity].
      destruct (transcribe w m _ _ _ _) as [segments | e]; [| obs; reflexivity].
      destruct (snd (write_srt segments [])) as [[] | e]; [| obs; reflexivity].
      obs. rewrite renders_transform, Hp, Ha.
      destruct (transform_outcome w args (srt_path w args)); obs; reflexivity.
  - rewrite !andb_false_r. cbn [andb].
    destruct (extract_subtitles_flag args || combine args || false).
    + obs. rewrite renders_extraction. cbn [app].
      destruct (probe w (input_file args)) as [streams |]; [| obs; reflexivity].
      destruct (has_audio streams);
        [| destruct (audio_to_video args || combine args); obs; reflexivity].
      destruct (load_model w (model args)) as [m | e]; [| obs; reflexivity].
      destruct (transcribe w m _ _ _ _) as [segments | e]; [| obs; reflexivity].
      destruct (snd (write_srt segments [])) as [[] | e]; [| obs; reflexivity].
      destruct (audio_to_video args || combine args); obs; reflexivity.
    + destruct (audio_to_video args || combine args); obs; reflexivity.
Qed.

Lemma written_main args :
  written (main_events w args)
  = if isfile w (input_file args) && extraction_requested args
    then match transcribed w args with
         | Some segments => [(srt_path w args, fst (write_srt segments []))]
         | None => []
         end
    else [].
Proof.
  unfold main_events. obs.
  destruct (isfile w (input_file args)); [| obs; reflexivity].
  cbn [andb].
  destruct (extraction_requested args).
  - obs. rewrite written_extraction.
    destruct (extraction_outcome w args) as [[srt |] | code | e]; obs; try reflexivity;
      destruct (audio_to_video args || combine args); obs; try reflexivity;
      destruct (audio_to_video_with_subtitles args); obs; try reflexivity.
    rewrite written_transform.
    destruct (transform_outcome w args srt); obs; reflexivity.
  - destruct (audio_to_video args || combine args); obs; [reflexivity |].
    destruct (audio_to_video_with_subtitles args); reflexivity.
Qed.

End EventFacts.

Section Decompositions.
Variable w : world.

Lemma transcribed_inv args segments :
  transcribed w args = Some segments ->
  exists streams m,
    probe w (input_file args) = Some streams
    /\ has_audio streams = true
    /\ load_model w (model args) = Ok m
    /\ transcribe w m (input_file args) (language args) (task args) (verbose args)
       = Ok segments.
Proof.
  unfold transcribed.
  destruct (probe w (input_file args)) as [streams |] eqn:Hp; [| discriminate].
  destruct (has_audio streams) eqn:Ha; [| discriminate].
  destruct (load_model w (model args)) as [m | e] eqn:Hl; [| discriminate].
  destruct (transcribe w m _ _ _ _) as [s | e] eqn:Ht; [| discriminate].
  intros [= <-]. exists streams, m. repeat split; reflexivity || assumption.
Qed.

(** With an audio track, the events of the transform are the ones
    before the render, which hold the hundred progress reports, the
    render, and what follows it. *)
Lemma transform_events_audio args srt streams :
  probe w (input_file args) = Some streams -> has_audio streams = true ->
  exists pre post,
    transform_events w args srt
    = pre ++ RunFfmpeg (input_file args) srt (video_path w args)
               (negb (verbose args)) :: post
    /\ reports pre = seq 1 100 /\ renders pre = [] /\ written pre = []
    /\ reports post = [] /\ renders post = []
    /\ (ffmpeg_run w (input_file args) srt (video_path w args)
          (negb (verbose args)) = false -> post = []).
Proof.
  intros Hp Ha. unfold transform_events. rewrite Hp, Ha.
  exists (make w (output_path args) ++ say (verbose args) MsgRenderingWithSubtitles
          ++ progress_events 0 100).
  eexists. split; [rewrite <- !app_assoc; reflexivity |].
  rewrite !reports_app, !renders_app, !written_app, reports_make, renders_make,
    written_make, renders_say, written_say, reports_progress, renders_progress,
    written_progress.
  repeat split; try reflexivity.
  - destruct (verbose args); reflexivity.
  - destruct (ffmpeg_run w _ _ _ _), (verbose args); reflexivity.
  - destruct (ffmpeg_run w _ _ _ _), (verbose args); reflexivity.
  - intros ->. reflexivity.
Qed.

Lemma progress_events_silent n :
  forall i, ~ In (Print MsgVideoError) (progress_events i n).
Proof.
  induction n as [| n IH]; intros i H.
  - destruct H.
  - change (progress_events i (S n))
      with (Sleep :: Print (MsgProgress (S i)) :: progress_events (S i) n) in H.
    destruct H as [H | H]; [discriminate |].
    destruct H as [H | H]; [discriminate |].
    exact (IH (S i) H).
Qed.

(** When the render fails, the error message is not among the events of
    the transform. *)
Lemma transform_failure_silent args srt streams :
  probe w (input_file args) = Some streams -> has_audio streams = true ->
  ffmpeg_run w (input_file args) srt (video_path w args) (negb (verbose args)) = false ->
  ~ In (Print MsgVideoError) (transform_events w args srt).
Proof.
  intros Hp Ha Hf. unfold transform_events. rewrite Hp, Ha, Hf.
  rewrite !in_app_iff. intros [H | [H | [H | [H | H]]]].
  - unfold make in H. destruct (path_exists w (output_path args)); [destruct H |].
    destruct H as [H | []]. discriminate.
  - unfold say in H. destruct (verbose args); [| destruct H].
    destruct H as [H | []]. discriminate.
  - exact (progress_events_silent 100 0 H).
  - destruct H as [H | []]. discriminate.
  - destruct H.
Qed.

Lemma extraction_events_transcribed args segments :
  transcribed w args = Some segments ->
  exists pre post,
    extraction_events w args
    = pre ++ WriteFile (srt_path w args) (fst (write_srt segments [])) :: post
    /\ renders pre = [] /\ renders post = [].
Proof.
  intros Ht. destruct (transcribed_inv args segments Ht) as (streams & m & Hp & Ha & Hl & Htr).
  unfold extraction_events. rewrite Hp, Ha, Hl, Htr.
  exists (say (verbose args) (MsgLoadingModel (model args))
          ++ say (verbose args) MsgStartingTranscription
          ++ make w (subtitle_output_path args)).
  eexists. split; [rewrite <- !app_assoc; reflexivity |].
  rewrite !renders_app, !renders_say, renders_make.
  split; [reflexivity |].
  destruct (snd (write_srt segments [])); [apply renders_say | reflexivity].
Qed.

Lemma harmless_say b m :
  (forall path, m <> MsgNoAudioForVideo path) -> Forall harmless (say b m).
Proof.
  intros H. destruct b; constructor; [| constructor].
  intros path [= E]. exact (H path E).
Qed.

Lemma harmless_make p : Forall harmless (make w p).
Proof.
  unfold make. destruct (path_exists w p); constructor; [| constructor].
  intros path. discriminate.
Qed.

Lemma harmless_progress n : forall i, Forall harmless (progress_events i n).
Proof.
  induction n as [| n IH]; intros i; [constructor |].
  unfold progress_events. cbn [seq flat_map app].
  constructor; [intros path; discriminate |].
  constructor; [intros path; discriminate |].
  apply (IH (S i)).
Qed.

Lemma harmless_extraction args : Forall harmless (extraction_events w args).
Proof.
  unfold extraction_events.
  destruct (probe w (input_file args)) as [streams |];
    [| constructor; [intros path; discriminate | constructor]].
  destruct (has_audio streams);
    [| constructor; [intros path; discriminate | constructor]].
  destruct (load_model w (model args)) as [m | e]; [| constructor].
  apply Forall_app. split; [apply harmless_say; discriminate |].
  apply Forall_app. split; [apply harmless_say; discriminate |].
  destruct (transcribe w m _ _ _ _) as [segments | e]; [| constructor].
  apply Forall_app. split; [apply harmless_make |].
  constructor; [intros path; discriminate |].
  destruct (snd (write_srt segments [])); [apply harmless_say; discriminate | constructor].
Qed.

Lemma harmless_transform args srt streams :
  probe w (input_file args) = Some streams -> has_audio streams = true ->
  Forall harmless (transform_events w args srt).
Proof.
  intros Hp Ha. unfold transform_events. rewrite Hp, Ha.
  apply Forall_app. split; [apply harmless_make |].
  apply Forall_app. split; [apply harmless_say; discriminate |].
  apply Forall_app. split; [apply harmless_progress |].
  constructor; [intros path; discriminate |].
  destruct (ffmpeg_run w _ _ _ _);
    [apply harmless_say; discriminate | constructor].
Qed.

Lemma harmless_main args : Forall harmless (main_events w args).
Proof.
  unfold main_events.
  apply Forall_app. split; [apply harmless_make |].
  destruct (isfile w (input_file args));
    [| constructor; [intros path; discriminate | constructor]].
  destruct (extraction_requested args).
  - rewrite extraction_outcome_transcribed.
    apply Forall_app. split.
    { apply Forall_app. split; [apply harmless_say; discriminate |].
      apply Forall_app. split; [apply harmless_extraction |].
      destruct (probe w (input_file args)) as [streams |]; [| constructor].
      destruct (has_audio streams); [| apply harmless_say; discriminate].
      destruct (load_model w (model args)) as [m | e]; [| constructor].
      destruct (transcribe w m _ _ _ _) as [segments | e]; [| constructor].
      destruct (snd (write_srt segments [])); [apply harmless_say; discriminate | constructor]. }
    destruct (probe w (input_file args)) as [streams |] eqn:Hp; [| constructor].
    destruct (has_audio streams) eqn:Ha.
    + destruct (load_model w (model args)) as [m | e]; [| constructor].
      destruct (transcribe w m _ _ _ _) as [segments | e]; [| constructor].
      destruct (snd (write_srt segments [])); [| constructor].
      destruct (audio_to_video args || combine args); [apply harmless_say; discriminate |].
      destruct (audio_to_video_with_subtitles args); [| constructor].
      apply Forall_app. split; [apply harmless_say; discriminate |].
      apply Forall_app. split; [apply (harmless_transform _ _ streams); assumption |].
      destruct (transform_outcome w args (srt_path w args));
        [apply harmless_say; discriminate | constructor | constructor].
    + destruct (audio_to_video args || combine args); [apply harmless_say; discriminate |].
      destruct (audio_to_video_with_subtitles args); [| constructor].
      constructor; [intros path; discriminate | constructor].
  - cbn [app].
    destruct (audio_to_video args || combine args); [apply harmless_say; discriminate |].
    destruct (audio_to_video_with_subtitles args); [| constructor].
    constructor; [intros path; discriminate | constructor].
Qed.

End Decompositions.

Section CommandLineTheorems.

(** X11.  [extract_subtitles] runs no render and writes at most one
    file: the subtitle file, as soon as the file has an audio track, the
    model loads and the transcription answers.  The file holds what
    [write_srt] wrote, also when [write_srt] raised, and the exception
    is passed on; a path is returned only after a serialization without
    exception. *)
Theorem extract_subtitles_writes (w : world) (args : arguments) (log : list event) :
  exists evs o,
    extract_subtitles w (input_file args) (model args) (language args)
      (task args) (subtitle_output_path args) (verbose args) log
    = (log ++ evs, o)
    /\ renders evs = []
    /\ written evs
       = match transcribed w args with
         | Some segments => [(srt_path w args, fst (write_srt segments []))]
         | None => []
         end
    /\ (forall segments e,
          transcribed w args = Some segments ->
          snd (write_srt segments []) = Raise e -> o = Uncaught e)
    /\ (forall path,
          o = Return (Some path) ->
          path = srt_path w args
          /\ exists segments,
               transcribed w args = Some segments
               /\ snd (write_srt segments []) = Ok tt).
Proof.
  exists (extraction_events w args), (extraction_outcome w args).
  split; [apply extract_subtitles_runs |].
  split; [apply renders_extraction |].
  split; [apply written_extraction |].
  rewrite extraction_outcome_transcribed. unfold transcribed.
  destruct (probe w (input_file args)) as [streams |];
    [| split; [intros ? ? [=] | intros ? [=]]].
  destruct (has_audio streams); [| split; [intros ? ? [=] | intros ? [=]]].
  destruct (load_model w (model args)) as [m | e];
    [| split; [intros ? ? [=] | intros ? [=]]].
  destruct (transcribe w m _ _ _ _) as [segments | e];
    [| split; [intros ? ? [=] | intros ? [=]]].
  destruct (snd (write_srt segments [])) as [[] | e] eqn:Hs.
  - split.
    + intros s e [= <-] He. rewrite Hs in He. discriminate.
    + intros path [= <-]. split; [reflexivity |].
      exists segments. split; [reflexivity | exact Hs].
  - split.
    + intros s e' [= <-] He. rewrite Hs in He. injection He as <-. reflexivity.
    + intros path [=].
Qed.

(** X12.  On a file with an audio track,
    [transform_audio_to_video_with_subtitles] prints the progress
    reports 1 to 100 before it runs the one render.  When the render
    succeeds the call returns.  When it fails, the handler evaluates
    [e.stderr.decode()] on a [stderr] that is [None], since [run()] was
    not asked to capture it: the call ends with an uncaught
    [AttributeError], and neither the error message nor [sys.exit(1)] is
    reached. *)
Theorem transform_reports_before_render
    (w : world) (args : arguments) (srt_file : string) (log : list event)
    (streams : list (gmap string string)) :
  probe w (input_file args) = Some streams ->
  has_audio streams = true ->
  exists pre post,
    transform_audio_to_video_with_subtitles w (input_file args) srt_file
      (output_path args) (verbose args) log
    = (log ++ pre
           ++ RunFfmpeg (input_file args) srt_file (video_path w args)
                (negb (verbose args)) :: post,
       if ffmpeg_run w (input_file args) srt_file (video_path w args)
            (negb (verbose args))
       then Return tt else Uncaught AttributeError)
    /\ reports pre = seq 1 100 /\ renders pre = []
    /\ reports post = [] /\ renders post = []
    /\ (ffmpeg_run w (input_file args) srt_file (video_path w args)
          (negb (verbose args)) = false ->
        post = [] /\ ~ In (Print MsgVideoError) (pre ++ post)).
Proof.
  intros Hp Ha.
  destruct (transform_events_audio w args srt_file streams Hp Ha)
    as (pre & post & E & H1 & H2 & _ & H3 & H4 & H5).
  exists pre, post. rewrite (transform_runs w args srt_file log), E.
  split; [| repeat split; try assumption].
  - f_equal. unfold transform_outcome, probe_outcome, continue, video_path.
    rewrite Hp, Ha. reflexivity.
  - apply H5. assumption.
  - intros Hin.
    apply (transform_failure_silent w args srt_file streams Hp Ha H).
    rewrite E. apply in_app_iff. apply in_app_iff in Hin as [Hin | Hin].
    + left. exact Hin.
    + right. right. exact Hin.
Qed.

(** X13.  [main] runs at most one render, and runs it exactly when the
    file is there, [--audio_to_video_with_subtitles] is given without
    [--audio_to_video] and [--combine], and the subtitles were
    extracted; the render then takes the input file and the subtitle
    file of the extraction. *)
Theorem main_renders (w : world) (args : arguments) (log : list event) :
  exists evs,
    main w args log = (log ++ evs, main_outcome w args)
    /\ renders evs
       = if will_render w args
         then [(input_file args, srt_path w args, video_path w args,
                negb (verbose args))]
         else [].
Proof.
  exists (main_events w args).
  split; [apply main_runs | apply renders_main].
Qed.

(** X14.  [main] writes the subtitle file whenever one of the three
    flags that ask for an extraction is given and the segments were
    transcribed, whatever comes after: with [--combine] the file is
    written and the run then ends with the [NameError]. *)
Theorem main_writes_subtitles (w : world) (args : arguments) (log : list event) :
  exists evs,
    main w args log = (log ++ evs, main_outcome w args)
    /\ written evs
       = if isfile w (input_file args) && extraction_requested args
         then match transcribed w args with
              | Some segments => [(srt_path w args, fst (write_srt segments []))]
              | None => []
              end
         else [].
Proof.
  exists (main_events w args).
  split; [apply main_runs | apply written_main].
Qed.

(** X15.  When [main] renders, the subtitle file was written before, by
    a serialization that returned, and it is the file the render
    reads. *)
Theorem main_render_after_write (w : world) (args : arguments) (log : list event) :
  will_render w args = true ->
  exists segments pre mid post,
    transcribed w args = Some segments
    /\ snd (write_srt segments []) = Ok tt
    /\ main w args log
       = (log ++ pre
              ++ WriteFile (srt_path w args) (fst (write_srt segments [])) :: mid
              ++ RunFfmpeg (input_file args) (srt_path w args) (video_path w args)
                   (negb (verbose args)) :: post,
          main_outcome w args)
    /\ renders pre = [] /\ renders mid = [] /\ renders post = [].
Proof.
  intros H.
  destruct (will_render_inv w args H)
    as (Hf & Hs & Hav & streams & segments & Hp & Ha & Ht & Hw & Ho).
  destruct (extraction_events_transcribed w args segments Ht)
    as (p1 & q1 & E1 & R1 & R2).
  destruct (transform_events_audio w args (srt_path w args) streams Hp Ha)
    as (p2 & q2 & E2 & _ & R3 & _ & _ & R4 & _).
  exists segments.
  exists (make w (cwd_assets w) ++ say (verbose args) MsgExtractionStarts ++ p1).
  exists (q1 ++ say (verbose args) MsgExtractionDone
          ++ say (verbose args) MsgSubtitledVideoStarts ++ p2).
  exists (q2 ++ match transform_outcome w args (srt_path w args) with
                | Return _ => say (verbose args) MsgSubtitledVideoCompleted
                | _ => []
                end).
  split; [exact Ht |]. split; [exact Hw |]. split.
  - rewrite (main_runs w args log). f_equal. f_equal.
    unfold main_events, extraction_requested.
    rewrite Hf, Hs, Hav, orb_true_r, Ho, E1, E2.
    repeat (rewrite <- ?app_assoc; cbn [app]). reflexivity.
  - rewrite !renders_app, !renders_say, renders_make, R1, R2, R3, R4.
    repeat split.
    destruct (transform_outcome w args (srt_path w args)); try reflexivity.
    apply renders_say.
Qed.

(** X16.  Without any of the four mode flags [main] only makes sure the
    assets directory exists and checks the input file: nothing is
    probed, transcribed, written or rendered. *)
Theorem main_without_mode_flags (w : world) (args : arguments) (log : list event) :
  extract_subtitles_flag args = false -> audio_to_video args = false ->
  audio_to_video_with_subtitles args = false -> combine args = false ->
  main w args log
  = (log ++ (if path_exists w (cwd_assets w) then [] else [MakeDirs (cwd_assets w)])
         ++ (if isfile w (input_file args) then []
             else [Print (MsgFileMissing (input_file args))]),
     if isfile w (input_file args) then Return tt else Exit 1).
Proof.
  intros H1 H2 H3 H4. rewrite (main_runs w args log).
  unfold main_events, main_outcome, extraction_requested, make.
  rewrite H1, H2, H3, H4. cbn [orb].
  destruct (isfile w (input_file args)); reflexivity.
Qed.

(** X17.  [main] never prints the message of
    [transform_audio_to_video_with_subtitles] for a file without an
    audio track: the extraction has probed the same file before, and
    without an audio track [main] exits on the missing subtitles. *)
Theorem main_never_reports_no_audio_for_video
    (w : world) (args : arguments) (log : list event) :
  exists evs,
    main w args log = (log ++ evs, main_outcome w args)
    /\ forall path, ~ In (Print (MsgNoAudioForVideo path)) evs.
Proof.
  exists (main_events w args). split; [apply main_runs |].
  intros path Hin.
  pose proof (harmless_main w args) as H. rewrite Forall_forall in H.
  apply list_elem_of_In in Hin. exact (H _ Hin path eq_refl).
Qed.

End CommandLineTheorems.

Section StripFacts.

Lemma lstrip_spaces s :
  exists sp, s = sp ++ lstrip s /\ forallb is_space sp = true.
Proof.
  induction s as [| c r (sp & IH & Hsp)]; [exists []; split; reflexivity |].
  cbn [lstrip]. destruct (is_space c) eqn:E.
  - exists (c :: sp). cbn [app forallb]. rewrite E, Hsp.
    split; [f_equal; exact IH | reflexivity].
  - exists []. split; reflexivity.
Qed.

Lemma forallb_rev {A} (f : A -> bool) l : forallb f (rev l) = forallb f l.
Proof.
  induction l as [| a l IH]; [reflexivity |].
  cbn [rev forallb]. rewrite forallb_app, IH. cbn [forallb].
  rewrite andb_true_r. apply andb_comm.
Qed.

Lemma rstrip_spaces s :
  exists sp, s = rstrip s ++ sp /\ forallb is_space sp = true.
Proof.
  destruct (lstrip_spaces (rev s)) as (sp & E & Hsp).
  exists (rev sp). unfold rstrip. split.
  - rewrite <- rev_app_distr, <- E, rev_involutive. reflexivity.
  - rewrite forallb_rev. exact Hsp.
Qed.

Lemma strip_spaces s :
  exists l r,
    s = l ++ strip s ++ r
    /\ forallb is_space l = true /\ forallb is_space r = true.
Proof.
  destruct (lstrip_spaces s) as (l & El & Hl).
  destruct (rstrip_spaces (lstrip s)) as (r & Er & Hr).
  exists l, r. unfold strip. rewrite <- Er, <- El. repeat split; assumption.
Qed.

Lemma starts_with_app p s r :
  starts_with p s = true -> starts_with p (s ++ r) = true.
Proof.
  revert s. induction p as [| a p IH]; intros s H; [reflexivity |].
  destruct s as [| b s]; [discriminate |].
  cbn [starts_with app] in *. apply andb_true_iff in H as [H1 H2].
  rewrite H1, (IH s H2). reflexivity.
Qed.

Lemma occurrences_suffix p l s :
  occurrences p (l ++ s) = 0%nat -> occurrences p s = 0%nat.
Proof.
  induction l as [| c l IH]; intros H; [exact H |].
  apply IH. cbn [app] in H. rewrite occurrences_cons in H. lia.
Qed.

Lemma occurrences_prefix s r :
  occurrences separator (s ++ r) = 0%nat -> occurrences separator s = 0%nat.
Proof.
  induction s as [| c s IH]; intros H; [reflexivity |].
  cbn [app] in H. rewrite occurrences_cons in H. rewrite occurrences_cons.
  rewrite IH by lia.
  destruct (starts_with separator (c :: s)) eqn:E; [| reflexivity].
  change (c :: s ++ r) with ((c :: s) ++ r) in H.
  rewrite (starts_with_app _ _ r E) in H. lia.
Qed.

End StripFacts.

Section MoreTheorems.
Local Open Scope Q_scope.

(** X18.  A text without [-->] only loses white space, and only at its
    two ends: what is written is the text between. *)
Theorem sanitize_plain_text (s : str) :
  occurrences separator s = 0%nat ->
  sanitize s = strip s
  /\ exists l r,
       s = l ++ sanitize s ++ r
       /\ forallb is_space l = true /\ forallb is_space r = true.
Proof.
  intros H.
  destruct (strip_spaces s) as (l & r & E & Hl & Hr).
  assert (Hs : sanitize s = strip s).
  { rewrite sanitize_rep. apply rep_fixed.
    rewrite E in H. apply occurrences_suffix in H. apply occurrences_prefix in H.
    exact H. }
  split; [exact Hs |].
  exists l, r. rewrite Hs. repeat split; assumption.
Qed.

(** X19.  Below one hundred hours the timecode has twelve characters;
    from one hundred hours on (and below [2^53] s) it has more. *)
Theorem format_timestamp_width (x : Q) :
  representable x = true -> 0 <= x -> x < inject_Z (2 ^ 53) ->
  exists tc,
    format_timestamp (VFloat (Finite x)) = Ok tc
    /\ (x < 360000 -> length tc = 12%nat)
    /\ (360000 <= x -> (13 <= length tc)%nat).
Proof.
  intros Hx H0 H1. apply representable_repr in Hx.
  pose proof (timestamp_fields_small x Hx H0 H1) as F.
  rewrite (format_timestamp_fields _ _ _ _ _ F).
  eexists. split; [reflexivity |].
  pose proof (floor_parts (Qfloor x) (Qfloor_nonneg x H0)) as (Ex & Mx & Sx).
  pose proof (millis_range x Hx H0) as Ms.
  unfold timecode. rewrite !length_app.
  rewrite (format_d_2_length (Qfloor x mod 3600 / 60)) by lia.
  rewrite (format_d_2_length (Qfloor x mod 60)) by lia.
  rewrite format_d_3_length by lia.
  cbn [length lit list_ascii_of_string map].
  split.
  - intros Hlt.
    assert (Hf : (Qfloor x < 360000)%Z).
    { rewrite Zlt_Qlt. pose proof (Qfloor_le x). change (inject_Z 360000) with 360000. lra. }
    rewrite format_d_2_length; [reflexivity |].
    split; [apply Z.div_pos; [apply Qfloor_nonneg, H0 | lia] |].
    apply Z.div_lt_upper_bound; lia.
  - intros Hge.
    assert (Hf : (360000 <= Qfloor x)%Z).
    { rewrite <- (Qfloor_Z 360000). apply Qfloor_resp_le. exact Hge. }
    assert (Hh : (100 <= Qfloor x / 3600)%Z) by (apply Z.div_le_lower_bound; lia).
    rewrite format_d_2_large by exact Hh.
    unfold str_of_int. rewrite sign_nonneg by lia. cbn [app].
    pose proof (digits_length_100 _ Hh). lia.
Qed.

End MoreTheorems.

Section Numerals.

Lemma to_uint_no_leading_zero (n : N) d : n <> 0%N -> N.to_uint n <> D0 d.
Proof.
  intros Hn E.
  pose proof (DecimalN.Unsigned.to_of (N.to_uint n)) as H.
  rewrite DecimalN.Unsigned.of_to, E in H.
  destruct (nzhead (D0 d)) eqn:Hz.
  - apply Hn. rewrite <- (DecimalN.Unsigned.of_to n), E.
    apply unorm_0 in Hz. rewrite <- DecimalN.Unsigned.of_uint_norm, Hz. reflexivity.
  - exact (nzhead_nonzero _ _ Hz).
  - rewrite (unorm_nzhead (D0 d)) in H by (rewrite Hz; discriminate).
    exact (nzhead_nonzero _ _ (eq_sym H)).
  - rewrite (unorm_nzhead (D0 d)) in H by (rewrite Hz; discriminate).
    exact (nzhead_nonzero _ _ (eq_sym H)).
  - rewrite (unorm_nzhead (D0 d)) in H by (rewrite Hz; discriminate).
    exact (nzhead_nonzero _ _ (eq_sym H)).
  - rewrite (unorm_nzhead (D0 d)) in H by (rewrite Hz; discriminate).
    exact (nzhead_nonzero _ _ (eq_sym H)).
  - rewrite (unorm_nzhead (D0 d)) in H by (rewrite Hz; discriminate).
    exact (nzhead_nonzero _ _ (eq_sym H)).
  - rewrite (unorm_nzhead (D0 d)) in H by (rewrite Hz; discriminate).
    exact (nzhead_nonzero _ _ (eq_sym H)).
  - rewrite (unorm_nzhead (D0 d)) in H by (rewrite Hz; discriminate).
    exact (nzhead_nonzero _ _ (eq_sym H)).
  - rewrite (unorm_nzhead (D0 d)) in H by (rewrite Hz; discriminate).
    exact (nzhead_nonzero _ _ (eq_sym H)).
  - rewrite (unorm_nzhead (D0 d)) in H by (rewrite Hz; discriminate).
    exact (nzhead_nonzero _ _ (eq_sym H)).
Qed.

Lemma head_lit_uint d :
  head (lit (NilEmpty.string_of_uint d)) = Some 48%N -> exists d', d = D0 d'.
Proof. destruct d; cbn; try discriminate. intros _. eexists. reflexivity. Qed.

(** [str(i)] for a positive [i]: the decimal numeral of [i], without a
    leading zero. *)
Lemma str_of_int_numeral i :
  (0 < i)%Z ->
  forallb is_digit (str_of_int i) = true
  /\ head (str_of_int i) <> Some 48%N
  /\ decimal_value (str_of_int i) = Some i.
Proof.
  intros Hi. unfold str_of_int. rewrite sign_nonneg by lia. cbn [app].
  split; [apply digits_are_digits |].
  split; [| apply value_digits; lia].
  unfold digits. intros H. apply head_lit_uint in H as (d' & H).
  apply (to_uint_no_leading_zero (Z.abs_N i) d'); [lia | exact H].
Qed.

End Numerals.

Section Entries.

Lemma entry_lines_of i segment block :
  (0 < i)%Z -> entry i segment = Ok block -> entry_lines i segment block.
Proof.
  intros Hi. unfold entry, getitem.
  destruct (segment !! "start"%string) as [vs |] eqn:E1; [| discriminate].
  cbn [mbind result_bind].
  destruct (format_timestamp vs) as [a1 | e] eqn:F1; [| discriminate].
  cbn [mbind result_bind].
  destruct (segment !! "end"%string) as [ve |] eqn:E2; [| discriminate].
  cbn [mbind result_bind].
  destruct (format_timestamp ve) as [a2 | e] eqn:F2; [| discriminate].
  cbn [mbind result_bind].
  destruct (segment !! "text"%string) as [[x | text] |] eqn:E3; try discriminate.
  cbn [mbind result_bind sanitized_text].
  intros [= <-].
  destruct (str_of_int_numeral i Hi) as (D & H0 & V).
  exists (str_of_int i), vs, ve, a1, a2, text.
  repeat split; assumption || reflexivity.
Qed.


(** Segments with two finite floats and a string: every one gets its
    entry. *)
Lemma write_srt_valid segments file :
  Forall (fun s => valid_segment s = true) segments ->
  exists blocks,
    write_srt segments file = (file ++ concat blocks, Ok tt)
    /\ length blocks = length segments
    /\ forall k segment, segments !! k = Some segment ->
         exists block, blocks !! k = Some block
                       /\ entry_lines (Z.of_nat k + 1) segment block.
Proof.
  intros Hv.
  destruct (write_srt_from_prefix segments Hv 1) as (blocks & Hlen & Hk & Hrun).
  exists blocks. split; [| split; [exact Hlen |]].
  - unfold write_srt. rewrite <- (app_nil_r segments) at 1. rewrite Hrun. reflexivity.
  - intros k segment Hs. destruct (Hk k segment Hs) as (tc & tx & Hb & He).
    eexists. split; [exact Hb |]. rewrite Z.add_comm.
    apply entry_lines_of; [lia | exact He].
Qed.

End Entries.

Section Claims.
Local Open Scope Q_scope.

(** C4.  The two segments [0.0 .. 1.5 "Hello"] and
    [1.5 .. 3.25 "World --> End"] are written as the eight lines of the
    scenario, each ended by a newline, and nothing else. *)
Theorem write_srt_end_to_end :
  let segments :=
    [ segment_of (literal 0) (literal (15 # 10)) (lit "Hello");
      segment_of (literal (15 # 10)) (literal (325 # 100)) (lit "World --> End") ] in
  snd (write_srt segments []) = Ok tt
  /\ content (fst (write_srt segments []))
     = unlines [ lit "1";
                 lit "00:00:00,000 --> 00:00:01,500";
                 lit "Hello";
                 [];
                 lit "2";
                 lit "00:00:01,500 --> 00:00:03,250";
                 lit "World " ++ [arrow] ++ lit " End";
                 [] ].
Proof. vm_compute. split; reflexivity. Qed.

(** C10.  Sanitizing a text twice gives what sanitizing it once gives. *)
Theorem sanitize_idempotent (s : str) : sanitize (sanitize s) = sanitize s.
Proof.
  rewrite !sanitize_rep.
  rewrite (strip_trimmed (rep (strip s))) by apply trimmed_rep, trimmed_strip.
  apply rep_idempotent.
Qed.

(** C5.  On a finite float [x >= 0] the fields are floors,
    not roundings: minutes and seconds are those of the real number,
    milliseconds are the floor of the float product of the fractional
    part and 1000, and hours are [floor (x / 3600)] as long as
    [x < 2^53]; 1.9999 gives [00:00:01,999] and 3661.5 gives
    [01:01:01,500]. *)
Theorem timestamp_fields_floor (x : Q) :
  representable x = true -> 0 <= x ->
  exists hours,
    timestamp_fields (VFloat (Finite x))
    = Ok (hours,
          Qfloor (Qmod x 3600 / 60),
          Qfloor (Qmod x 60),
          Qfloor (rnd ((x - inject_Z (Qfloor x)) * 1000)))
    /\ (x < inject_Z (2 ^ 53) -> hours = Qfloor (x / 3600))
    /\ format_timestamp (VFloat (literal (19999 # 10000))) = Ok (lit "00:00:01,999")
    /\ format_timestamp (VFloat (literal (36615 # 10))) = Ok (lit "01:01:01,500").
Proof.
  intros Hx Hx0. apply representable_repr in Hx.
  destruct (timestamp_fields_nonneg x Hx Hx0) as (hours & E & _ & Hh).
  exists hours. split; [exact E |]. split; [exact Hh |].
  split; vm_compute; reflexivity.
Qed.

(** C8.  On a finite float [x >= 0] the result is
    [H:M:S,MS]: [M] and [S] are two digits for a number of [0 .. 59],
    [MS] three digits for a number of [0 .. 999], and [H] is at least
    two digits that write the hours in full, whatever their size. *)
Theorem format_timestamp_shape (x : Q) :
  representable x = true -> 0 <= x ->
  exists hours minutes secs millis H M S MS,
    timestamp_fields (VFloat (Finite x)) = Ok (hours, minutes, secs, millis)
    /\ format_timestamp (VFloat (Finite x))
       = Ok (H ++ lit ":" ++ M ++ lit ":" ++ S ++ lit "," ++ MS)
    /\ (0 <= minutes <= 59)%Z /\ padded 2 minutes M
    /\ (0 <= secs <= 59)%Z /\ padded 2 secs S
    /\ (0 <= millis <= 999)%Z /\ padded 3 millis MS
    /\ (0 <= hours)%Z /\ (2 <= length H)%nat
    /\ forallb is_digit H = true /\ decimal_value H = Some hours
    /\ ((100 <= hours)%Z -> H = str_of_int hours)
    /\ (x < inject_Z (2 ^ 53) -> hours = Qfloor (x / 3600)).
Proof.
  intros Hx Hx0. apply representable_repr in Hx.
  destruct (timestamp_fields_nonneg x Hx Hx0) as (hours & E & Hh0 & Hh).
  pose proof (millis_range x Hx Hx0) as Hms.
  rewrite minutes_floor, Qfloor_Qmod in E by lia.
  pose proof (Qfloor_nonneg x Hx0) as HN.
  set (N := Qfloor x) in *.
  set (millis := Qfloor (rnd ((x - inject_Z N) * 1000))) in *.
  clearbody N millis.
  pose proof (Z.mod_pos_bound N 3600 ltac:(lia)).
  pose proof (Z.mod_pos_bound N 60 ltac:(lia)).
  assert (Hm : (0 <= N mod 3600 / 60 <= 59)%Z).
  { split; [apply Z.div_pos; lia |].
    assert (N mod 3600 / 60 < 60)%Z; [| lia].
    apply Z.div_lt_upper_bound; lia. }
  exists hours, (N mod 3600 / 60)%Z, (N mod 60)%Z, millis.
  exists (format_d 2 hours), (format_d 2 (N mod 3600 / 60)),
    (format_d 2 (N mod 60)), (format_d 3 millis).
  destruct (format_d_nonneg 2 hours Hh0) as (L1 & D1 & V1).
  destruct (format_d_nonneg 2 (N mod 3600 / 60) ltac:(lia)) as (_ & D2 & V2).
  destruct (format_d_nonneg 2 (N mod 60) ltac:(lia)) as (_ & D3 & V3).
  destruct (format_d_nonneg 3 millis ltac:(lia)) as (_ & D4 & V4).
  split; [exact E |].
  split; [apply format_timestamp_fields, E |].
  split; [exact Hm |].
  split; [split; [apply format_d_2_length; lia | split; assumption] |].
  split; [lia |].
  split; [split; [apply format_d_2_length; lia | split; assumption] |].
  split; [exact Hms |].
  split; [split; [apply format_d_3_length; lia | split; assumption] |].
  split; [exact Hh0 |].
  split; [exact L1 |].
  split; [exact D1 |].
  split; [exact V1 |].
  split; [apply format_d_2_large | exact Hh].
Qed.

(** C2.  For finite floats [0 <= start <= end] below a
    hundred hours (360000 s), the timecode of [end] is not below the
    timecode of [start] in the order of strings. *)
Theorem format_timestamp_monotone_below_100_hours (x y : Q) :
  representable x = true -> representable y = true ->
  0 <= x -> x <= y -> y < 360000 ->
  exists a b,
    format_timestamp (VFloat (Finite x)) = Ok a
    /\ format_timestamp (VFloat (Finite y)) = Ok b
    /\ str_le a b = true.
Proof.
  intros Hx Hy. apply representable_repr in Hx, Hy.
  apply format_timestamp_monotone; assumption.
Qed.


(** C7.  The text line written for a segment is its sanitized text, and
    holds no occurrence of [-->], whatever the text was. *)
Theorem write_srt_text_has_no_separator
    (segments : list (gmap string value)) (file : sink)
    (k : nat) (segment : gmap string value) (text : str) :
  Forall (fun s => valid_segment s = true) segments ->
  segments !! k = Some segment ->
  segment !! "text"%string = Some (VStr text) ->
  exists blocks index tc,
    write_srt segments file = (file ++ concat blocks, Ok tt)
    /\ blocks !! k = Some [index; tc; sanitize text ++ [nl; nl]]
    /\ occurrences separator (sanitize text ++ [nl; nl]) = 0%nat
    /\ occurrences separator (sanitize text) = 0%nat.
Proof.
  intros Hv Hs Ht.
  destruct (write_srt_from_prefix segments Hv 1) as (blocks & Hlen & Hk & Hrun).
  destruct (Hk k segment Hs) as (tc & tx & Hb & He).
  assert (Hvs : valid_segment segment = true).
  { rewrite Forall_forall in Hv. apply Hv. eapply list_elem_of_lookup_2, Hs. }
  destruct (entry_valid (1 + Z.of_nat k) segment Hvs) as (tc1 & tc2 & t & Ht' & He').
  rewrite Ht in Ht'. injection Ht' as <-.
  rewrite He in He'. injection He' as -> ->.
  exists blocks, (str_of_int (1 + Z.of_nat k) ++ [nl]),
    (tc1 ++ lit " --> " ++ tc2 ++ [nl]).
  split; [| split; [exact Hb |]].
  - unfold write_srt. rewrite <- (app_nil_r segments) at 1. rewrite Hrun. reflexivity.
  - destruct (sanitize_no_separator text) as [H1 H2]. split; assumption.
Qed.

(** C1.  [write_srt] checks neither the order nor the sign of the
    times: every sequence of segments with two finite floats and a
    string is serialized, each segment to its entry, whatever the times
    are.  A segment without [text] stops the call with [KeyError], after
    the entries of the segments before it were written. *)
Theorem write_srt_unchecked
    (segments : list (gmap string value)) (file : sink) :
  (Forall (fun s => valid_segment s = true) segments ->
   exists blocks,
     write_srt segments file = (file ++ concat blocks, Ok tt)
     /\ length blocks = length segments
     /\ forall k segment, segments !! k = Some segment ->
          exists block, blocks !! k = Some block
                        /\ entry_lines (Z.of_nat k + 1) segment block)
  /\ (forall pre segment post,
        segments = pre ++ segment :: post ->
        Forall (fun s => valid_segment s = true) pre ->
        finite_float (segment !! "start"%string) = true ->
        finite_float (segment !! "end"%string) = true ->
        segment !! "text"%string = None ->
        exists blocks,
          write_srt segments file = (file ++ concat blocks, Raise KeyError)
          /\ length blocks = length pre
          /\ forall k earlier, pre !! k = Some earlier ->
               exists block, blocks !! k = Some block
                             /\ entry_lines (Z.of_nat k + 1) earlier block).
Proof.
  split.
  - apply write_srt_valid.
  - intros pre segment post -> Hv Hs He Ht.
    destruct (write_srt_from_prefix pre Hv 1) as (blocks & Hlen & Hk & Hrun).
    exists blocks. split; [| split; [exact Hlen |]].
    + unfold write_srt. rewrite Hrun. cbn [write_srt_from].
      apply finite_float_inv in Hs as (qs & Hs & Rs).
      apply finite_float_inv in He as (qe & He & Re).
      destruct (format_timestamp_total qs Rs) as (h1 & m1 & s1 & ms1 & E1).
      destruct (format_timestamp_total qe Re) as (h2 & m2 & s2 & ms2 & E2).
      unfold entry, getitem. rewrite Hs, He, Ht. cbn [mbind result_bind].
      rewrite E1. cbn [mbind result_bind]. rewrite E2. reflexivity.
    + intros k earlier Hp. destruct (Hk k earlier Hp) as (tc & tx & Hb & Hen).
      eexists. split; [exact Hb |]. rewrite Z.add_comm.
      apply entry_lines_of; [lia | exact Hen].
Qed.

(** C3.  With [--audio_to_video] or [--combine], [main] ends with an
    uncaught [NameError] as soon as the file exists and the extraction
    step, if there is one, comes back; in any case the status is not 0
    and no video is rendered. *)
Theorem main_render_raises_NameError (w : world) (args : arguments) (log : list event) :
  audio_to_video args || combine args = true ->
  (isfile w (input_file args) = true ->
   (extraction_requested args = true -> extraction_returns w args = true) ->
   snd (main w args log) = Uncaught NameError)
  /\ exit_status (snd (main w args log)) <> 0%Z
  /\ produces_video (fst (main w args log)) = produces_video log.
Proof.
  intros Hav.
  destruct (main_run w args log) as (evs & E & Hv).
  destruct (main_outcome_missing_name w args Hav) as [H1 H2].
  rewrite E. cbn [fst snd].
  split; [exact H1 |]. split; [exact H2 |].
  rewrite produces_video_app, (Hv Hav). apply orb_false_r.
Qed.

(** C9.  For the namespace of a command line that was parsed: without
    [--audio_to_video] and [--combine] the
    status is 1 exactly when the input file is missing, the probe or the
    transcription fails, or [--audio_to_video_with_subtitles] is given
    and there is no audio track or the media transform fails, and 0
    otherwise.  A missing input file is reported and ends the run with
    status 1 before anything else than the assets directory is touched. *)
Theorem main_exit_status (w : world) (args : arguments) (log : list event) :
  (audio_to_video args = false -> combine args = false ->
   exit_status (snd (main w args log)) = if fails w args then 1%Z else 0%Z)
  /\ (isfile w (input_file args) = false ->
      main w args log
      = (log ++ (if path_exists w (cwd_assets w) then []
                 else [MakeDirs (cwd_assets w)])
             ++ [Print (MsgFileMissing (input_file args))],
         Exit 1)).
Proof.
  split.
  - intros Hav Hc. destruct (main_run w args log) as (evs & E & _).
    rewrite E. apply main_outcome_status; assumption.
  - apply main_missing_file.
Qed.

(** ** Concrete runs *)

(** C1: the segment [{start: 5.0, end: 2.0}] is serialized like any
    other; the call returns and the sink holds its entry. *)
Lemma write_srt_accepts_inverted_segment :
  literal 2 = Finite 2 /\ literal 5 = Finite 5 /\ 2 < 5
  /\ write_srt [segment_of (literal 5) (literal 2) (lit "x")] []
     = ([ lit "1" ++ [nl];
          lit "00:00:05,000 --> 00:00:02,000" ++ [nl];
          lit "x" ++ [nl; nl] ],
        Ok tt).
Proof. vm_compute. repeat split; reflexivity. Qed.

Lemma write_srt_unchecked_witness :
  (exists blocks,
     write_srt [segment_of (literal (-1)) (literal (-2)) (lit "x")] []
     = ([] ++ concat blocks, Ok tt)
     /\ length blocks = 1%nat
     /\ forall k segment,
          [segment_of (literal (-1)) (literal (-2)) (lit "x")] !! k = Some segment ->
          exists block, blocks !! k = Some block
                        /\ entry_lines (Z.of_nat k + 1) segment block)
  /\ exists blocks,
       write_srt [ segment_of (literal 5) (literal 2) (lit "x");
                   {[ "start"%string := VFloat (literal 0);
                      "end"%string := VFloat (literal 1) ]} ] []
       = ([] ++ concat blocks, Raise KeyError)
       /\ length blocks = 1%nat
       /\ forall k earlier,
            [segment_of (literal 5) (literal 2) (lit "x")] !! k = Some earlier ->
            exists block, blocks !! k = Some block
                          /\ entry_lines (Z.of_nat k + 1) earlier block.
Proof.
  split.
  - apply (proj1 (write_srt_unchecked
                    [segment_of (literal (-1)) (literal (-2)) (lit "x")] [])).
    repeat constructor.
  - apply (proj2 (write_srt_unchecked _ [])
             [segment_of (literal 5) (literal 2) (lit "x")]
             {[ "start"%string := VFloat (literal 0);
                "end"%string := VFloat (literal 1) ]} []).
    + reflexivity.
    + repeat constructor.
    + vm_compute. reflexivity.
    + vm_compute. reflexivity.
    + vm_compute. reflexivity.
Defined.

(** C2: from 99:59:59 to 100:00:00 the timecode goes down in the order
    of strings. *)
Lemma format_timestamp_not_monotone_at_100_hours :
  0 <= 359999 /\ 359999 <= 360000
  /\ format_timestamp (VFloat (literal 359999)) = Ok (lit "99:59:59,000")
  /\ format_timestamp (VFloat (literal 360000)) = Ok (lit "100:00:00,000")
  /\ str_le (lit "99:59:59,000") (lit "100:00:00,000") = false.
Proof. vm_compute. repeat split; discriminate || reflexivity. Qed.

Lemma format_timestamp_monotone_below_100_hours_witness :
  exists a b,
    format_timestamp (VFloat (Finite (3 # 2))) = Ok a
    /\ format_timestamp (VFloat (Finite (13 # 4))) = Ok b
    /\ str_le a b = true.
Proof.
  apply (format_timestamp_monotone_below_100_hours (3 # 2) (13 # 4)).
  - vm_compute. reflexivity.
  - vm_compute. reflexivity.
  - unfold Qle. simpl. lia.
  - unfold Qle. simpl. lia.
  - unfold Qlt. simpl. lia.
Defined.

Lemma main_render_raises_NameError_witness :
  snd (main (sample_world true true) (sample_arguments false false false true) [])
  = Uncaught NameError
  /\ exit_status (snd (main (sample_world true true)
                          (sample_arguments false false false true) [])) <> 0%Z
  /\ produces_video (fst (main (sample_world true true)
                            (sample_arguments false false false true) []))
     = produces_video [].
Proof.
  destruct (main_render_raises_NameError (sample_world true true)
              (sample_arguments false false false true) [] eq_refl)
    as (H1 & H2 & H3).
  split; [| split; [exact H2 | exact H3]].
  apply H1; [reflexivity |]. intros _. vm_compute. reflexivity.
Defined.

(** C5: at 1e20 seconds the hours are one less than the floor of the
    real quotient. *)
Lemma hours_inexact_at_1e20 :
  representable (inject_Z (10 ^ 20)) = true
  /\ timestamp_fields (VFloat (Finite (inject_Z (10 ^ 20))))
     = Ok (27777777777777776, 46, 40, 0)%Z
  /\ Qfloor (inject_Z (10 ^ 20) / 3600) = 27777777777777777%Z
  /\ (27777777777777776 <> 27777777777777777)%Z.
Proof. vm_compute. repeat split; discriminate || reflexivity. Qed.

Lemma timestamp_fields_floor_witness :
  exists hours,
    timestamp_fields (VFloat (Finite (7323 # 2)))
    = Ok (hours,
          Qfloor (Qmod (7323 # 2) 3600 / 60),
          Qfloor (Qmod (7323 # 2) 60),
          Qfloor (rnd (((7323 # 2) - inject_Z (Qfloor (7323 # 2))) * 1000)))
    /\ ((7323 # 2) < inject_Z (2 ^ 53) -> hours = Qfloor ((7323 # 2) / 3600))
    /\ format_timestamp (VFloat (literal (19999 # 10000))) = Ok (lit "00:00:01,999")
    /\ format_timestamp (VFloat (literal (36615 # 10))) = Ok (lit "01:01:01,500").
Proof.
  apply (timestamp_fields_floor (7323 # 2)).
  - vm_compute. reflexivity.
  - unfold Qle. simpl. lia.
Defined.



Lemma write_srt_text_has_no_separator_witness :
  exists blocks index tc,
    write_srt [ segment_of (literal 0) (literal 1) (lit " a-->b ") ] []
    = ([] ++ concat blocks, Ok tt)
    /\ blocks !! 0%nat = Some [index; tc; sanitize (lit " a-->b ") ++ [nl; nl]]
    /\ occurrences separator (sanitize (lit " a-->b ") ++ [nl; nl]) = 0%nat
    /\ occurrences separator (sanitize (lit " a-->b ")) = 0%nat.
Proof.
  apply (write_srt_text_has_no_separator
           [ segment_of (literal 0) (literal 1) (lit " a-->b ") ] [] 0
           (segment_of (literal 0) (literal 1) (lit " a-->b ")) (lit " a-->b ")).
  - repeat constructor.
  - reflexivity.
  - vm_compute. reflexivity.
Defined.

Lemma format_timestamp_shape_witness :
  exists hours minutes secs millis H M S MS,
    timestamp_fields (VFloat (Finite (7323 # 2))) = Ok (hours, minutes, secs, millis)
    /\ format_timestamp (VFloat (Finite (7323 # 2)))
       = Ok (H ++ lit ":" ++ M ++ lit ":" ++ S ++ lit "," ++ MS)
    /\ (0 <= minutes <= 59)%Z /\ padded 2 minutes M
    /\ (0 <= secs <= 59)%Z /\ padded 2 secs S
    /\ (0 <= millis <= 999)%Z /\ padded 3 millis MS
    /\ (0 <= hours)%Z /\ (2 <= length H)%nat
    /\ forallb is_digit H = true /\ decimal_value H = Some hours
    /\ ((100 <= hours)%Z -> H = str_of_int hours)
    /\ ((7323 # 2) < inject_Z (2 ^ 53) -> hours = Qfloor ((7323 # 2) / 3600)).
Proof.
  apply (format_timestamp_shape (7323 # 2)).
  - vm_compute. reflexivity.
  - unfold Qle. simpl. lia.
Defined.

(** C9: only [--extract_subtitles], on a file without an audio track:
    the lack is reported and the run ends with status 0. *)
Lemma extract_only_without_audio_exits_0 :
  extraction_requested (sample_arguments true false false false) = true
  /\ probe_outcome (sample_world true false) "talk.mp3" = Return false
  /\ main (sample_world true false) (sample_arguments true false false false) []
     = ([Print (MsgNoAudioForSubtitles "talk.mp3")], Return tt)
  /\ exit_status (snd (main (sample_world true false)
                          (sample_arguments true false false false) [])) = 0%Z.
Proof. vm_compute. repeat split; reflexivity. Qed.

Lemma main_exit_status_witness :
  main (sample_world false true) (sample_arguments true false false false) []
  = ([] ++ [] ++ [Print (MsgFileMissing "talk.mp3")], Exit 1)
  /\ exit_status (snd (main (sample_world true false)
                         (sample_arguments false false true false) [])) = 1%Z
  /\ exit_status (snd (main (sample_world true true)
                         (sample_arguments false false true false) [])) = 0%Z.
Proof.
  split; [| split].
  - apply (proj2 (main_exit_status (sample_world false true)
                    (sample_arguments true false false false) [])).
    reflexivity.
  - apply (proj1 (main_exit_status (sample_world true false)
                    (sample_arguments false false true false) []));
      reflexivity.
  - apply (proj1 (main_exit_status (sample_world true true)
                    (sample_arguments false false true false) []));
      reflexivity.
Defined.

End Claims.

Section MoreRuns.
Local Open Scope Q_scope.

Lemma format_timestamp_non_finite_witness :
  format_timestamp (VFloat (Inf false)) = Raise ValueError.
Proof. apply (format_timestamp_non_finite (Inf false)). intros q. discriminate. Defined.

Lemma timestamp_fields_recombine_witness :
  exists hours minutes secs milliseconds,
    timestamp_fields (VFloat (Finite (7323 # 2)))
    = Ok (hours, minutes, secs, milliseconds)
    /\ (3600 * hours + 60 * minutes + secs = Qfloor (7323 # 2))%Z
    /\ (0 <= minutes < 60)%Z /\ (0 <= secs < 60)%Z.
Proof.
  apply (timestamp_fields_recombine (7323 # 2)).
  - vm_compute. reflexivity.
  - unfold Qle. simpl. lia.
  - unfold Qlt. simpl. lia.
Defined.

(** At 0.29 s the milliseconds are 290, one more than the floor of the
    real product: the float next to 0.29 is below it, and its product
    with 1000 rounds up to 290. *)
Lemma milliseconds_within_one_witness :
  (exists hours minutes secs milliseconds,
     timestamp_fields (VFloat (Finite (rnd (29 # 100))))
     = Ok (hours, minutes, secs, milliseconds)
     /\ (Qfloor ((rnd (29 # 100) - inject_Z (Qfloor (rnd (29 # 100)))) * 1000)
         <= milliseconds
         <= Qfloor ((rnd (29 # 100) - inject_Z (Qfloor (rnd (29 # 100)))) * 1000) + 1)%Z)
  /\ timestamp_fields (VFloat (literal (29 # 100))) = Ok (0, 0, 0, 290)%Z
  /\ Qfloor ((rnd (29 # 100) - inject_Z (Qfloor (rnd (29 # 100)))) * 1000) = 289%Z.
Proof.
  split; [| split; vm_compute; reflexivity].
  apply (milliseconds_within_one (rnd (29 # 100))).
  - vm_compute. reflexivity.
  - vm_compute. discriminate.
Defined.

Lemma timestamp_fields_monotone_witness :
  exists h m s ms h' m' s' ms',
    timestamp_fields (VFloat (Finite (3 # 2))) = Ok (h, m, s, ms)
    /\ timestamp_fields (VFloat (Finite (13 # 4))) = Ok (h', m', s', ms')
    /\ (((h * 60 + m) * 60 + s) * 1000 + ms
        <= ((h' * 60 + m') * 60 + s') * 1000 + ms')%Z.
Proof.
  apply (timestamp_fields_monotone (3 # 2) (13 # 4)).
  - vm_compute. reflexivity.
  - vm_compute. reflexivity.
  - unfold Qle. simpl. lia.
  - unfold Qle. simpl. lia.
  - unfold Qlt. simpl. lia.
Defined.

(** -1.5 s is written [-1:59:58,-500]. *)
Lemma format_timestamp_negative_witness :
  (exists hours minutes secs milliseconds rest,
     timestamp_fields (VFloat (Finite (- (3 # 2))))
     = Ok (hours, minutes, secs, milliseconds)
     /\ (hours <= -1)%Z
     /\ (0 <= minutes <= 60)%Z /\ (0 <= secs <= 60)%Z
     /\ (-999 <= milliseconds <= 0)%Z
     /\ format_timestamp (VFloat (Finite (- (3 # 2)))) = Ok (lit "-" ++ rest))
  /\ format_timestamp (VFloat (Finite (- (3 # 2)))) = Ok (lit "-1:59:58,-500").
Proof.
  split; [| vm_compute; reflexivity].
  apply (format_timestamp_negative (- (3 # 2))).
  - vm_compute. reflexivity.
  - unfold Qlt. simpl. lia.
Defined.

(** 1.5 s and 1.5 s + 2^-20 s share the timecode [00:00:01,500]. *)
Lemma format_timestamp_injective_witness :
  timestamp_fields (VFloat (Finite (3 # 2)))
  = timestamp_fields (VFloat (Finite (1572865 # 1048576)))
  /\ Qfloor (3 # 2) = Qfloor (1572865 # 1048576).
Proof.
  apply (format_timestamp_injective (3 # 2) (1572865 # 1048576)).
  - vm_compute. reflexivity.
  - vm_compute. reflexivity.
  - split; [unfold Qle | unfold Qlt]; simpl; lia.
  - split; [unfold Qle | unfold Qlt]; simpl; lia.
  - vm_compute. reflexivity.
Defined.

Lemma sanitize_plain_text_witness :
  sanitize (lit "  a -> b  ") = strip (lit "  a -> b  ")
  /\ exists l r,
       lit "  a -> b  " = l ++ sanitize (lit "  a -> b  ") ++ r
       /\ forallb is_space l = true /\ forallb is_space r = true.
Proof. apply (sanitize_plain_text (lit "  a -> b  ")). vm_compute. reflexivity. Defined.

Lemma format_timestamp_width_witness :
  exists tc,
    format_timestamp (VFloat (Finite (7323 # 2))) = Ok tc
    /\ ((7323 # 2) < 360000 -> length tc = 12%nat)
    /\ (360000 <= (7323 # 2) -> (13 <= length tc)%nat).
Proof.
  apply (format_timestamp_width (7323 # 2)).
  - vm_compute. reflexivity.
  - unfold Qle. simpl. lia.
  - unfold Qlt. simpl. lia.
Defined.

(** A render that fails: the hundred reports, the render, and then the
    [AttributeError] of the handler; nothing is printed after the
    render. *)
Lemma transform_reports_before_render_witness :
  exists pre post,
    transform_audio_to_video_with_subtitles (failing_render (sample_world true true))
      "talk.mp3" "./assets/subtitles/talk.srt" "./assets" false []
    = ([] ++ pre
          ++ RunFfmpeg "talk.mp3" "./assets/subtitles/talk.srt"
               "./assets/talk_subtitled.mp4" true
             :: post,
       Uncaught AttributeError)
    /\ reports pre = seq 1 100 /\ renders pre = []
    /\ reports post = [] /\ renders post = []
    /\ post = [] /\ ~ In (Print MsgVideoError) (pre ++ post).
Proof.
  destruct (transform_reports_before_render (failing_render (sample_world true true))
              (sample_arguments false false true false)
              "./assets/subtitles/talk.srt" []
              [ {[ "codec_type"%string := "audio"%string ]} ]
              eq_refl eq_refl)
    as (pre & post & E & H1 & H2 & H3 & H4 & H5).
  exists pre, post. split; [exact E |].
  do 4 (split; [assumption |]).
  apply H5. reflexivity.
Defined.

Lemma main_render_after_write_witness :
  exists segments pre mid post,
    transcribed (sample_world true true) (sample_arguments false false true false)
    = Some segments
    /\ snd (write_srt segments []) = Ok tt
    /\ main (sample_world true true) (sample_arguments false false true false) []
       = ([] ++ pre
             ++ WriteFile "./assets/subtitles/talk.srt" (fst (write_srt segments []))
                :: mid
             ++ RunFfmpeg "talk.mp3" "./assets/subtitles/talk.srt"
                  "./assets/talk_subtitled.mp4" true :: post,
          Return tt)
    /\ renders pre = [] /\ renders mid = [] /\ renders post = [].
Proof.
  apply (main_render_after_write (sample_world true true)
           (sample_arguments false false true false) []).
  vm_compute. reflexivity.
Defined.

Lemma main_without_mode_flags_witness :
  main (sample_world true true) (sample_arguments false false false false) []
  = ([] ++ [] ++ [], Return tt).
Proof.
  apply (main_without_mode_flags (sample_world true true)
           (sample_arguments false false false false) []); reflexivity.
Defined.

End MoreRuns.
